(** * deej: slider-to-session routing engine

    A shallow embedding of [pkg/deej/serial.go] (line protocol decoder and
    slider state tracker) and [pkg/deej/session_map.go] (target resolver and
    session map), with the properties of the specification proved, or
    refuted, on the embedded code.

    Embedded besides: the firmware sketch at the other end of the serial
    line, [pkg/deej/slider_map.go], the theme detection of
    [pkg/deej/tray.go] and the target lists of [pkg/deej/web_config.go],
    with properties read off the code. *)

From Stdlib Require Import ZArith QArith Qabs Lqa Ascii String.
From Stdlib Require Import Floats.SpecFloat.
From stdpp Require Import gmap strings list fin_maps sorting.

Set Default Proof Using "Type".
Local Open Scope string_scope.
Local Open Scope Z_scope.
Local Open Scope list_scope.

(* ===================================================================== *)
(** * Go's [strings] and [strconv], on ASCII byte strings *)
(* ===================================================================== *)

(** Go strings are byte sequences; the serial protocol and the session keys
    are ASCII.  The functions below follow the Go library on ASCII input.
    Bytes above 0x7f are kept as they are: Go decodes them as UTF-8, and
    [TrimSpace] would also drop a Unicode space next to the white space it
    trims, [ToLower] also map a capital outside ASCII.  A statement whose
    truth would turn on such bytes is made of strings of ASCII only
    ([Text.plain], further down). *)
Module Strings.

Definition byte_of (n : nat) : ascii := ascii_of_nat n.

Definition TAB : ascii := byte_of 9.
Definition LF  : ascii := byte_of 10.
Definition VT  : ascii := byte_of 11.
Definition FF  : ascii := byte_of 12.
Definition CR  : ascii := byte_of 13.
Definition SP  : ascii := byte_of 32.

Definition CRLF : string := String CR (String LF "").

(** [asciiSpace] of Go's [strings] package: tab, line feed, vertical tab,
    form feed, carriage return and space *)
Definition isSpace (c : ascii) : bool :=
  existsb (Ascii.eqb c) [TAB; LF; VT; FF; CR; SP].

Definition isDigit (c : ascii) : bool :=
  let n := nat_of_ascii c in ((48 <=? n) && (n <=? 57))%nat.

Definition isUpper (c : ascii) : bool :=
  let n := nat_of_ascii c in ((65 <=? n) && (n <=? 90))%nat.

Definition toLowerByte (c : ascii) : ascii :=
  if isUpper c then ascii_of_nat (nat_of_ascii c + 32) else c.

(** [strings.ToLower] *)
Fixpoint ToLower (s : string) : string :=
  match s with
  | "" => ""
  | String c r => String (toLowerByte c) (ToLower r)
  end.

(** [strings.HasPrefix] *)
Fixpoint HasPrefix (s p : string) : bool :=
  match p, s with
  | "", _ => true
  | String _ _, "" => false
  | String a p', String b s' => if Ascii.eqb a b then HasPrefix s' p' else false
  end.

Fixpoint drop (n : nat) (s : string) : string :=
  match n, s with
  | O, _ => s
  | S _, "" => ""
  | S n', String _ r => drop n' r
  end.

(** [strings.TrimPrefix] *)
Definition TrimPrefix (s p : string) : string :=
  if HasPrefix s p then drop (String.length p) s else s.

Fixpoint trimLeft (s : string) : string :=
  match s with
  | "" => ""
  | String c r => if isSpace c then trimLeft r else s
  end.

(** drops the trailing white space: a byte is kept when it is not a
    space or when something is kept after it *)
Fixpoint trimRight (s : string) : string :=
  match s with
  | "" => ""
  | String c r =>
      match trimRight r with
      | "" => if isSpace c then "" else String c ""
      | r' => String c r'
      end
  end.

(** [strings.TrimSpace] *)
Definition TrimSpace (s : string) : string := trimRight (trimLeft s).

(** the last byte of a string, if it has one *)
Fixpoint lastByte (s : string) : option ascii :=
  match s with
  | "" => None
  | String c "" => Some c
  | String _ r => lastByte r
  end.

(** [strings.Split(s, sep)] for a one-byte separator: the fields between
    the separators, always at least one *)
Fixpoint Split (s : string) (sep : ascii) : list string :=
  match s with
  | "" => [""]
  | String c r =>
      if Ascii.eqb c sep then "" :: Split r sep
      else match Split r sep with
           | f :: fs => String c f :: fs
           | [] => [String c ""]
           end
  end.

Definition digitVal (c : ascii) : Z := Z.of_nat (nat_of_ascii c) - 48.

(** value of a run of decimal digits, [None] when a byte is no digit *)
Fixpoint parseDigits (acc : Z) (s : string) : option Z :=
  match s with
  | "" => Some acc
  | String c r =>
      if isDigit c then parseDigits (10 * acc + digitVal c) r else None
  end.

Definition maxInt : Z := 2 ^ 63 - 1.
Definition minInt : Z := - 2 ^ 63.

Definition clampInt (n : Z) : Z := Z.max minInt (Z.min maxInt n).

(** [strconv.Atoi] on a 64-bit platform, as a pair [(value, ok)]: an
    optional sign followed by at least one decimal digit.  A syntax error
    gives [0]; a value out of the range of [int] gives the nearest bound
    (Go reports [ErrRange] with that value). *)
Definition Atoi (s : string) : Z * bool :=
  let '(neg, body) :=
    match s with
    | String "-" r => (true, r)
    | String "+" r => (false, r)
    | _ => (false, s)
    end in
  match body with
  | "" => (0, false)
  | _ =>
      match parseDigits 0 body with
      | None => (0, false)
      | Some n =>
          let v := if neg then - n else n in
          (clampInt v, Z.eqb (clampInt v) v)
      end
  end.

End Strings.

(* ===================================================================== *)
(** * Go's [regexp], for patterns anchored at both ends *)
(* ===================================================================== *)

Module Regexp.

(** Regular expressions over bytes.  [Class p] is a one-byte class. *)
Inductive regex : Type :=
| Void
| Eps
| Class (p : ascii -> bool)
| Seq (r1 r2 : regex)
| Alt (r1 r2 : regex)
| Star (r : regex).

Definition Chr (c : ascii) : regex := Class (Ascii.eqb c).
(** [\d] *)
Definition Digit : regex := Class Strings.isDigit.
(** [.] without the [s] flag: any byte but a line feed *)
Definition AnyChar : regex := Class (fun c => negb (Ascii.eqb c Strings.LF)).
Definition Opt (r : regex) : regex := Alt Eps r.
(** [r+] *)
Definition Plus (r : regex) : regex := Seq r (Star r).

Fixpoint Times (n : nat) (r : regex) : regex :=
  match n with
  | O => Eps
  | S n' => Seq r (Times n' r)
  end.

Fixpoint UpTo (n : nat) (r : regex) : regex :=
  match n with
  | O => Eps
  | S n' => Opt (Seq r (UpTo n' r))
  end.

(** [r{lo,hi}] *)
Definition Between (lo hi : nat) (r : regex) : regex :=
  Seq (Times lo r) (UpTo (hi - lo) r).

Fixpoint nullable (r : regex) : bool :=
  match r with
  | Void => false
  | Eps => true
  | Class _ => false
  | Seq r1 r2 => nullable r1 && nullable r2
  | Alt r1 r2 => nullable r1 || nullable r2
  | Star _ => true
  end.

(** Brzozowski derivative of [r] by the byte [c] *)
Fixpoint deriv (c : ascii) (r : regex) : regex :=
  match r with
  | Void => Void
  | Eps => Void
  | Class p => if p c then Eps else Void
  | Seq r1 r2 =>
      if nullable r1 then Alt (Seq (deriv c r1) r2) (deriv c r2)
      else Seq (deriv c r1) r2
  | Alt r1 r2 => Alt (deriv c r1) (deriv c r2)
  | Star r1 => Seq (deriv c r1) (Star r1)
  end.

(** [re.MatchString(s)] for a pattern written [^body$]: with both anchors
    and no [m] flag, the body has to match the whole text. *)
Fixpoint MatchString (body : regex) (s : string) : bool :=
  match s with
  | "" => nullable body
  | String c r => MatchString (deriv c body) r
  end.

(** The words of a regular expression, to reason about [MatchString]. *)
Inductive lang : regex -> string -> Prop :=
| lang_eps : lang Eps ""
| lang_class p c : p c = true -> lang (Class p) (String c "")
| lang_seq r1 r2 s1 s2 : lang r1 s1 -> lang r2 s2 -> lang (Seq r1 r2) (s1 +:+ s2)
| lang_alt_l r1 r2 s : lang r1 s -> lang (Alt r1 r2) s
| lang_alt_r r1 r2 s : lang r2 s -> lang (Alt r1 r2) s
| lang_star_nil r : lang (Star r) ""
| lang_star_cons r s1 s2 : lang r s1 -> lang (Star r) s2 -> lang (Star r) (s1 +:+ s2).

End Regexp.

(* ===================================================================== *)
(** * [float32]: IEEE 754 binary32 *)
(* ===================================================================== *)

Module Float32.

Definition prec : Z := 24.
Definition emax : Z := 128.

(** A [float32] value; the operations below round to nearest even, as
    Go's do. *)
Definition float32 : Type := spec_float.

(** [float32(n)] for an integer [n] *)
Definition of_int (n : Z) : float32 := binary_normalize prec emax n 0 false.

Definition div (x y : float32) : float32 := SFdiv prec emax x y.
Definition sub (x y : float32) : float32 := SFsub prec emax x y.
(** [x == y] *)
Definition eqb (x y : float32) : bool := SFeqb x y.

Definition zero : float32 := S754_zero false.
Definition one : float32 := of_int 1.
Definition minus_one : float32 := of_int (-1).

Definition is_finite (x : float32) : bool :=
  match x with
  | S754_zero _ | S754_finite _ _ _ => true
  | _ => false
  end.

(** the rational a finite value stands for ([0] for the others) *)
Definition toQ (x : float32) : Q :=
  match x with
  | S754_finite s m e =>
      let a := if s then Z.neg m else Z.pos m in
      match e with
      | Z0 => inject_Z a
      | Z.pos p => inject_Z (a * 2 ^ Z.pos p)
      | Z.neg p => Qmake a (2 ^ p)
      end
  | _ => 0%Q
  end.

Definition Qltb (x y : Q) : bool := negb (Qle_bool y x).

(** [0 <= x <= 1] *)
Definition in_unit (x : float32) : bool :=
  is_finite x && Qle_bool 0 (toQ x) && Qle_bool (toQ x) 1.

End Float32.

(* ===================================================================== *)
(** * Package [util]: the two helpers of the tracker *)
(* ===================================================================== *)

Module Util.
Import Float32.

(** Modelled from the spec: [util.NormalizeScalar], whose file is not part
    of the sources at hand.  The specification describes it as "a
    deadzone/normalization function that snaps values within a small
    epsilon of 0 or 1 to exactly 0 or 1"; [eps] is that epsilon. *)
Definition NormalizeScalar (eps : Q) (v : float32) : float32 :=
  if Qltb (Qabs (toQ v)) eps then zero
  else if Qltb (Qabs (toQ v - 1)) eps then one
  else v.

(** Modelled from the spec: [util.SignificantlyDifferent], whose file is
    not part of the sources at hand.  The specification gives the test as
    [|normalized - current| > noiseReductionThreshold], the threshold
    being chosen by the configured level; [threshold] is that choice. *)
Definition SignificantlyDifferent (threshold : string -> Q)
    (old new : float32) (noiseReductionLevel : string) : bool :=
  Qltb (threshold noiseReductionLevel) (Qabs (toQ new - toQ old)).

End Util.

(* ===================================================================== *)
(** * [serial.go]: line protocol decoder and slider state tracker *)
(* ===================================================================== *)

(** Modelled from the spec: the type [CanonicalConfig] of [deej.config],
    declared in a file that is not among the sources.  These are the fields
    the code at hand reads, "a slider→targets mapping snapshot; an invert
    sliders boolean; a noise-reduction sensitivity level"; the mapping is
    the [map[int][]string] of [slider_map.go].  A value of this record is
    the snapshot a call works with. *)
Record CanonicalConfig : Type := {
  SliderMapping : gmap Z (list string);
  InvertSliders : bool;
  NoiseReductionLevel : string
}.

Module Serial.
Import Float32.

(** [SliderMoveEvent] *)
Record SliderMoveEvent : Type := {
  SliderID : Z;
  PercentValue : float32
}.

(** A [chan SliderMoveEvent]: the events waiting in its buffer, oldest
    first. *)
Definition channel : Type := list SliderMoveEvent.

(** capacity given to [make] in [SubscribeToSliderMoveEvents] *)
Definition channelCapacity : nat := 100.

(** [select { case consumer <- moveEvent: default: }]: the event is
    dropped when the buffer is full *)
Definition trySend (consumer : channel) (moveEvent : SliderMoveEvent) : channel :=
  if (List.length consumer <? channelCapacity)%nat then consumer ++ [moveEvent]
  else consumer.

(** The slider state of [SerialIO] and its subscribers. *)
Record SerialIO : Type := {
  lastKnownNumSliders : Z;
  currentSliderPercentValues : list float32;
  sliderMoveConsumers : list channel
}.

(** state set up by [NewSerialIO] *)
Definition NewSerialIO : SerialIO :=
  {| lastKnownNumSliders := 0;
     currentSliderPercentValues := [];
     sliderMoveConsumers := [] |}.

(** [SubscribeToSliderMoveEvents] *)
Definition SubscribeToSliderMoveEvents (sio : SerialIO) : SerialIO :=
  {| lastKnownNumSliders := lastKnownNumSliders sio;
     currentSliderPercentValues := currentSliderPercentValues sio;
     sliderMoveConsumers := sliderMoveConsumers sio ++ [[]] |}.

(** [GetNumSliders] *)
Definition GetNumSliders (sio : SerialIO) : Z := lastKnownNumSliders sio.

(** How the loop over the fields of a frame ends. *)
Inductive loopResult : Type :=
| LoopPanic                       (* index out of range *)
| LoopMalformed                   (* the [return] on a dirty first field *)
| LoopDone (values : list float32) (moveEvents : list SliderMoveEvent).

(** What a call leaves behind: a run-time panic, or the new state and the
    move events of the frame (all of them offered to every consumer). *)
Inductive outcome : Type :=
| Panicked
| Returned (sio : SerialIO) (moveEvents : list SliderMoveEvent).

(** [handleCommandResponse] only logs; its cases are kept as data. *)
Inductive commandResponse : Type :=
| RebootAck
| Version (version : option string)
| CommandError (details : option (string * string))
| Unhandled (responseType : string) (responseArgs : list string).

Definition handleCommandResponse (responseType : string)
    (responseArgs : list string) : commandResponse :=
  if String.eqb responseType "reboot_ack" then RebootAck
  else if String.eqb responseType "version" then
    Version (head responseArgs)
  else if String.eqb responseType "error" then
    CommandError match responseArgs with
                 | errorType :: errorDetails :: _ => Some (errorType, errorDetails)
                 | _ => None
                 end
  else Unhandled responseType responseArgs.

Inductive TrayState : Type := TrayNormal | TrayError.

(** What [handleLine] does with a line. *)
Inductive lineResult : Type :=
| LineIgnored
| LineTrayIcon (state : TrayState)
| LineResponse (r : commandResponse)
| LineSliders (o : outcome).

(** [expectedLinePattern], [^\d{1,4}(\|\d{1,4})*\r\n$] *)
Definition expectedLinePattern : Regexp.regex :=
  Regexp.Seq (Regexp.Between 1 4 Regexp.Digit)
    (Regexp.Seq
       (Regexp.Star (Regexp.Seq (Regexp.Chr "|") (Regexp.Between 1 4 Regexp.Digit)))
       (Regexp.Seq (Regexp.Chr Strings.CR) (Regexp.Chr Strings.LF))).

Section Tracker.

(** [util.NormalizeScalar] and [util.SignificantlyDifferent] *)
Variable NormalizeScalar : float32 -> float32.
Variable SignificantlyDifferent : float32 -> float32 -> string -> bool.

Variable config : CanonicalConfig.

(** the body of [for sliderIdx, stringValue := range splitLine] *)
Fixpoint sliderLoop (splitLine : list string) (sliderIdx : nat)
    (values : list float32) (moveEvents : list SliderMoveEvent) : loopResult :=
  match splitLine with
  | [] => LoopDone values moveEvents
  | stringValue :: rest =>
      let number := fst (Strings.Atoi stringValue) in
      if (sliderIdx =? 0)%nat && (1023 <? number) then LoopMalformed
      else
        let dirtyFloat := div (of_int number) (of_int 1023) in
        let normalizedScalar := NormalizeScalar dirtyFloat in
        let normalizedScalar :=
          if InvertSliders config then sub one normalizedScalar
          else normalizedScalar in
        match values !! sliderIdx with
        | None => LoopPanic
        | Some current =>
            if eqb current minus_one
               || SignificantlyDifferent current normalizedScalar
                    (NoiseReductionLevel config)
            then
              sliderLoop rest (S sliderIdx)
                (<[sliderIdx := normalizedScalar]> values)
                (moveEvents ++
                   [{| SliderID := Z.of_nat sliderIdx;
                       PercentValue := normalizedScalar |}])
            else sliderLoop rest (S sliderIdx) values moveEvents
        end
  end.

(** every consumer is offered every event of the frame, in order *)
Definition deliver (moveEvents : list SliderMoveEvent)
    (consumers : list channel) : list channel :=
  map (fun consumer => fold_left trySend moveEvents consumer) consumers.

(** [processSliderData] *)
Definition processSliderData (sio : SerialIO) (sliderData : string) : outcome :=
  let splitLine := Strings.Split sliderData "|" in
  let numSliders := Z.of_nat (List.length splitLine) in
  let '(lastKnown, values) :=
    if negb (numSliders =? lastKnownNumSliders sio)
    then (numSliders, replicate (List.length splitLine) minus_one)
    else (lastKnownNumSliders sio, currentSliderPercentValues sio) in
  match sliderLoop splitLine 0 values [] with
  | LoopPanic => Panicked
  | LoopMalformed =>
      Returned {| lastKnownNumSliders := lastKnown;
                  currentSliderPercentValues := values;
                  sliderMoveConsumers := sliderMoveConsumers sio |} []
  | LoopDone values' moveEvents =>
      Returned {| lastKnownNumSliders := lastKnown;
                  currentSliderPercentValues := values';
                  sliderMoveConsumers :=
                    deliver moveEvents (sliderMoveConsumers sio) |}
               moveEvents
  end.

(** [handleLine] *)
Definition handleLine (sio : SerialIO) (line : string) : lineResult :=
  let line := Strings.TrimSpace line in
  let framed :=
    if Strings.HasPrefix line "deej:" then
      match Strings.Split line ":" with
      | _ :: _ :: messageType :: payload =>
          if String.eqb messageType "startup" then
            Some (LineTrayIcon TrayNormal)
          else if String.eqb messageType "sliders" then
            Some match payload with
                 | sliderData :: _ => LineSliders (processSliderData sio sliderData)
                 | [] => LineIgnored
                 end
          else if String.eqb messageType "response" then
            Some match payload with
                 | responseType :: responseArgs =>
                     LineResponse (handleCommandResponse responseType responseArgs)
                 | [] => LineIgnored
                 end
          else None
      | _ => Some LineIgnored
      end
    else None in
  match framed with
  | Some r => r
  | None =>
      if Strings.HasPrefix line "status:" then
        let status := Strings.TrimSpace (Strings.TrimPrefix line "status:") in
        if String.eqb status "ok" then LineTrayIcon TrayNormal
        else if String.eqb status "warning" then LineTrayIcon TrayNormal
        else LineTrayIcon TrayError
      else if Regexp.MatchString expectedLinePattern line then
        LineSliders (processSliderData sio line)
      else LineIgnored
  end.

End Tracker.

End Serial.

(* ===================================================================== *)
(** * [session_map.go]: target resolver and session map *)
(* ===================================================================== *)

Module SessionMap.
Import Float32.

(** Modelled from the spec: the [Session] interface, declared in a file
    that is not among the sources, "an opaque handle with the capability
    set Key(), SetVolume(float), Release()".  A handle is its identity and
    what [Key()] returns; the two other methods act on the backend and
    appear as calls below. *)
Record Session : Type := {
  sessionID : nat;
  Key : string
}.

(** [time.Time] and [time.Duration], in nanoseconds *)
Definition Time : Type := Z.
Definition Millisecond : Z := 1000000.
Definition Second : Z := 1000 * Millisecond.

Definition masterSessionName : string := "master".
Definition systemSessionName : string := "system".
Definition inputSessionName : string := "mic".
Definition specialTargetTransformPrefix : string := "deej.".
Definition specialTargetCurrentWindow : string := "current".
Definition specialTargetAllUnmapped : string := "unmapped".
Definition minTimeBetweenSessionRefreshes : Z := Second * 5.

(** [deviceSessionKeyPattern], [^.+ \(.+\)$] *)
Definition deviceSessionKeyPattern : Regexp.regex :=
  Regexp.Seq (Regexp.Plus Regexp.AnyChar)
    (Regexp.Seq (Regexp.Chr " ")
       (Regexp.Seq (Regexp.Chr "(")
          (Regexp.Seq (Regexp.Plus Regexp.AnyChar) (Regexp.Chr ")")))).

(** The calls made on the audio backend and on the clock, in order. *)
Inductive call : Type :=
| CallGetAllSessions
| CallRelease (s : Session)
| CallSetVolume (s : Session) (volume : float32) (ok : bool)
| CallSleep (d : Z).

(** The mutable fields of [sessionMap]. *)
Record sessionMap : Type := {
  m : gmap string (list Session);
  lastSessionRefresh : Time;
  unmappedSessions : list Session
}.

(** A session map together with the calls made so far. *)
Definition world : Type := sessionMap * list call.

(** What [handleSliderMoveEvent] starts with [go]. *)
Inductive goroutine : Type :=
| GoSetVolume (s : Session) (volume : float32) (target : string)
| GoDelayedRefresh.

(** [funk.UniqString]: the first occurrence of every string, in order *)
Fixpoint UniqString (seen a : list string) : list string :=
  match a with
  | [] => []
  | v :: rest =>
      if bool_decide (v ∈ seen) then UniqString seen rest
      else v :: UniqString (v :: seen) rest
  end.

(** [targetHasSpecialTransform] *)
Definition targetHasSpecialTransform (target : string) : bool :=
  Strings.HasPrefix target specialTargetTransformPrefix.

(** [add] *)
Definition add (sm : sessionMap) (value : Session) : sessionMap :=
  {| m := match m sm !! Key value with
          | None => <[Key value := [value]]> (m sm)
          | Some existing => <[Key value := existing ++ [value]]> (m sm)
          end;
     lastSessionRefresh := lastSessionRefresh sm;
     unmappedSessions := unmappedSessions sm |}.

(** [get] *)
Definition get (sm : sessionMap) (key : string) : option (list Session) :=
  m sm !! key.

(** [clear]: every held session is released, every key deleted.  Go visits
    the keys in no fixed order; the releases are listed in the order of
    [map_to_list]. *)
Definition clear (w : world) : world :=
  let '(sm, calls) := w in
  ({| m := ∅;
      lastSessionRefresh := lastSessionRefresh sm;
      unmappedSessions := unmappedSessions sm |},
   calls ++ map CallRelease (concat (map snd (map_to_list (m sm))))).

Section Resolver.

Variable config : CanonicalConfig.

(** what [util.GetCurrentWindowProcessNames] answers, [None] for an
    error *)
Variable currentWindowProcessNames : option (list string).

(** [applyTargetTransform] *)
Definition applyTargetTransform (sm : sessionMap)
    (specialTargetName : string) : list string :=
  if String.eqb specialTargetName specialTargetCurrentWindow then
    match currentWindowProcessNames with
    | None => []
    | Some names => UniqString [] (map Strings.ToLower names)
    end
  else if String.eqb specialTargetName specialTargetAllUnmapped then
    map Key (unmappedSessions sm)
  else [].

(** [resolveTarget] *)
Definition resolveTarget (sm : sessionMap) (target : string) : list string :=
  let target := Strings.ToLower target in
  if targetHasSpecialTransform target then
    applyTargetTransform sm
      (Strings.TrimPrefix target specialTargetTransformPrefix)
  else [target].

(** the callback of [sessionMapped] on the targets of one slider:
    [Some true] when it sets [matchFound], [None] when indexing the
    resolved targets panics *)
Fixpoint targetsMatch (sm : sessionMap) (key : string)
    (targets : list string) : option bool :=
  match targets with
  | [] => Some false
  | target :: rest =>
      if targetHasSpecialTransform target then targetsMatch sm key rest
      else match resolveTarget sm target with
           | [] => None
           | target' :: _ =>
               if String.eqb target' key then Some true
               else targetsMatch sm key rest
           end
  end.

(** [SliderMapping.iterate] with that callback; every slider is visited, in
    whatever order, so the order does not change the result *)
Fixpoint iterateMatch (sm : sessionMap) (key : string)
    (sliders : list (Z * list string)) (matchFound : bool) : option bool :=
  match sliders with
  | [] => Some matchFound
  | (_, targets) :: rest =>
      match targetsMatch sm key targets with
      | None => None
      | Some found => iterateMatch sm key rest (matchFound || found)
      end
  end.

(** [sessionMapped]; [None] is a run-time panic *)
Definition sessionMapped (sm : sessionMap) (session : Session) : option bool :=
  if bool_decide (Key session ∈
       [masterSessionName; systemSessionName; inputSessionName])
  then Some true
  else if Regexp.MatchString deviceSessionKeyPattern (Key session)
  then Some true
  else iterateMatch sm (Key session)
         (map_to_list (SliderMapping config)) false.

(** the loop of [getAndAddSessions] *)
Fixpoint addSessions (sm : sessionMap) (sessions : list Session)
    : option sessionMap :=
  match sessions with
  | [] => Some sm
  | session :: rest =>
      let sm := add sm session in
      match sessionMapped sm session with
      | None => None
      | Some true => addSessions sm rest
      | Some false =>
          addSessions
            {| m := m sm;
               lastSessionRefresh := lastSessionRefresh sm;
               unmappedSessions := unmappedSessions sm ++ [session] |}
            rest
      end
  end.

(** [getAndAddSessions] at time [now], [finder] being what
    [sessionFinder.GetAllSessions] answers ([None] for an error).  The
    boolean tells whether an error is returned. *)
Definition getAndAddSessions (now : Time) (finder : option (list Session))
    (w : world) : option (world * bool) :=
  let '(sm, calls) := w in
  let sm := {| m := m sm;
               lastSessionRefresh := now;
               unmappedSessions := [] |} in
  let calls := calls ++ [CallGetAllSessions] in
  match finder with
  | None => Some ((sm, calls), true)
  | Some sessions =>
      match addSessions sm sessions with
      | None => None
      | Some sm' => Some ((sm', calls), false)
      end
  end.

(** [refreshSessions]: [now] is the clock at the test, [now'] the clock
    when the sessions are re-acquired *)
Definition refreshSessions (force : bool) (now now' : Time)
    (finder : option (list Session)) (w : world) : option world :=
  if negb force
     && (now <? lastSessionRefresh (fst w) + minTimeBetweenSessionRefreshes)
  then Some w
  else match getAndAddSessions now' finder (clear w) with
       | None => None
       | Some (w', _) => Some w'
       end.

(** [handleSliderMoveEvent]: the goroutines it starts, in order *)
Definition handleSliderMoveEvent (sm : sessionMap)
    (event : Serial.SliderMoveEvent) : list goroutine :=
  match SliderMapping config !! Serial.SliderID event with
  | None => []
  | Some targets =>
      concat (map (fun target =>
        concat (map (fun resolvedTarget =>
          match get sm resolvedTarget with
          | None => []
          | Some sessions =>
              map (fun session =>
                     GoSetVolume session (Serial.PercentValue event)
                       resolvedTarget) sessions
          end) (resolveTarget sm target))) targets)
  end.

End Resolver.

(** ** The goroutines of [handleSliderMoveEvent]

    [handleSliderMoveEvent] returns once its goroutines are started; they
    then run in an order the scheduler chooses.  A [machine] holds the
    goroutines not yet run; a [choice] is one decision of the environment:
    which goroutine runs next, and what the backend, the clock and the
    window manager answer to it. *)

Record machine : Type := {
  pool : list goroutine;
  state : world;
  crashed : bool
}.

Record choice : Type := {
  pick : nat;
  setVolumeOk : bool;
  clock : Time;
  finder : option (list Session);
  window : option (list string)
}.

Section Goroutines.

Variable config : CanonicalConfig.

(** the body of [go func(s Session, volume float32, target string)]
    and, for [GoDelayedRefresh], of the [go func()] it starts on an
    error *)
Definition runGoroutine (c : choice) (g : goroutine) (rest : list goroutine)
    (w : world) : machine :=
  match g with
  | GoSetVolume s volume _ =>
      let w' := (fst w, snd w ++ [CallSetVolume s volume (setVolumeOk c)]) in
      if setVolumeOk c
      then {| pool := rest; state := w'; crashed := false |}
      else {| pool := rest ++ [GoDelayedRefresh]; state := w'; crashed := false |}
  | GoDelayedRefresh =>
      let w' := (fst w, snd w ++ [CallSleep (100 * Millisecond)]) in
      match refreshSessions config (window c) true (clock c) (clock c)
              (finder c) w' with
      | Some w'' => {| pool := rest; state := w''; crashed := false |}
      | None => {| pool := rest; state := w'; crashed := true |}
      end
  end.

(** one scheduling decision; a panic stops every goroutine *)
Definition stepWith (mch : machine) (c : choice) : machine :=
  if crashed mch then mch
  else match pool mch !! pick c with
       | None => mch
       | Some g => runGoroutine c g (delete (pick c) (pool mch)) (state mch)
       end.

Definition run (schedule : list choice) (mch : machine) : machine :=
  fold_left stepWith schedule mch.

(** the machine [handleSliderMoveEvent] leaves behind *)
Definition spawn (currentWindowProcessNames : option (list string))
    (sm : sessionMap) (event : Serial.SliderMoveEvent) : machine :=
  {| pool := handleSliderMoveEvent config currentWindowProcessNames sm event;
     state := (sm, []);
     crashed := false |}.

End Goroutines.

(** the [SetVolume] calls a pool still has to make *)
Definition pendingSetVolume (p : list goroutine) : list (Session * float32) :=
  omap (fun g => match g with
                 | GoSetVolume s v _ => Some (s, v)
                 | GoDelayedRefresh => None
                 end) p.

Definition isRefresh (g : goroutine) : bool :=
  match g with GoDelayedRefresh => true | _ => false end.

Definition pendingRefreshes (p : list goroutine) : nat :=
  List.length (List.filter isRefresh p).

(** the [SetVolume] calls of a trace *)
Definition setVolumeCalls (calls : list call) : list (Session * float32) :=
  omap (fun c => match c with
                 | CallSetVolume s v _ => Some (s, v)
                 | _ => None
                 end) calls.

Definition isFailure (c : call) : bool :=
  match c with CallSetVolume _ _ false => true | _ => false end.

Definition isSleep (c : call) : bool :=
  match c with CallSleep _ => true | _ => false end.

Definition isEnumeration (c : call) : bool :=
  match c with CallGetAllSessions => true | _ => false end.

Definition countCalls (p : call -> bool) (calls : list call) : nat :=
  List.length (List.filter p calls).

End SessionMap.


(* ===================================================================== *)
(** * Vocabulary of the properties *)
(* ===================================================================== *)

Module Tracker.
Import Float32 Serial.

(** the pattern the specification gives for a legacy bare slider line,
    [^\d{1,4}(\|\d{1,4})*$], applied after trimming CR and LF *)
Definition legacyBarePattern : Regexp.regex :=
  Regexp.Seq (Regexp.Between 1 4 Regexp.Digit)
    (Regexp.Star (Regexp.Seq (Regexp.Chr "|") (Regexp.Between 1 4 Regexp.Digit))).

Definition fieldsOf (sliderData : string) : list string :=
  Strings.Split sliderData "|".

(** the integer a field is read as *)
Definition reading (stringValue : string) : Z := fst (Strings.Atoi stringValue).

Definition firstReading (sliderData : string) : Z :=
  reading (hd "" (fieldsOf sliderData)).

(** a frame the tracker does not discard *)
Definition accepted (sliderData : string) : Prop := firstReading sliderData <= 1023.

Definition inRange (stringValue : string) : Prop := 0 <= reading stringValue <= 1023.

Section Values.
Variable NormalizeScalar : float32 -> float32.
Variable SignificantlyDifferent : float32 -> float32 -> string -> bool.
Variable config : CanonicalConfig.

(** the [normalizedScalar] the loop computes for a field *)
Definition normalized (stringValue : string) : float32 :=
  let v := NormalizeScalar (div (of_int (reading stringValue)) (of_int 1023)) in
  if InvertSliders config then sub one v else v.

(** the test that guards the emission of an event *)
Definition moves (current : float32) (stringValue : string) : bool :=
  eqb current minus_one
  || SignificantlyDifferent current (normalized stringValue)
       (NoiseReductionLevel config).

Definition eventAt (sliderIdx : nat) (stringValue : string) : SliderMoveEvent :=
  {| SliderID := Z.of_nat sliderIdx; PercentValue := normalized stringValue |}.

(** one event per field, in ascending index order *)
Definition allEvents (splitLine : list string) : list SliderMoveEvent :=
  imap eventAt splitLine.

(** a later frame that brings no change for index [i]: it has [n] readings,
    and at [i] the field [f] again, or one within the threshold of the value
    stored for [f] *)
Definition calm (n i : nat) (f sliderData : string) : Prop :=
  List.length (fieldsOf sliderData) = n /\
  exists g, fieldsOf sliderData !! i = Some g /\
    (g = f \/
     SignificantlyDifferent (normalized f) (normalized g)
       (NoiseReductionLevel config) = false).

(** a run of frames, each on the state the one before left; the events
    of every frame, or [None] after a panic *)
Fixpoint processFrames (sio : SerialIO) (frames : list string)
    : option (SerialIO * list (list SliderMoveEvent)) :=
  match frames with
  | [] => Some (sio, [])
  | sliderData :: rest =>
      match processSliderData NormalizeScalar SignificantlyDifferent
              config sio sliderData with
      | Panicked => None
      | Returned sio' moveEvents =>
          match processFrames sio' rest with
          | None => None
          | Some (sio'', later) => Some (sio'', moveEvents :: later)
          end
      end
  end.

End Values.

(** the state right after step 2 of the tracker: [n] slots, all unset *)
Definition unsetAll (n : nat) (sio : SerialIO) : SerialIO :=
  {| lastKnownNumSliders := Z.of_nat n;
     currentSliderPercentValues := replicate n minus_one;
     sliderMoveConsumers := sliderMoveConsumers sio |}.

Definition emitsFor (sliderIdx : nat) (moveEvents : list SliderMoveEvent) : Prop :=
  exists e, e ∈ moveEvents /\ SliderID e = Z.of_nat sliderIdx.

(** [|x - 1/2| <= 1/200]: [x] reads 0.50 to two decimals *)
Definition aboutHalf (x : float32) : Prop :=
  is_finite x = true /\ (Qabs (toQ x - (1 # 2)) <= 1 # 200)%Q.

End Tracker.

Module Resolver.
Import SessionMap.






(** a session map that holds nothing and was never refreshed *)
Definition newSessionMap : sessionMap :=
  {| m := ∅; lastSessionRefresh := 0; unmappedSessions := [] |}.

(** the scheduling decision "run the oldest goroutine", with the given
    outcome for [SetVolume] *)
Definition oldestFirst (ok : bool) : choice :=
  {| pick := 0; setVolumeOk := ok; clock := 0; finder := None; window := None |}.

(** the calls of a pool of [GoSetVolume] goroutines run in order *)
Fixpoint callsInOrder (p : list goroutine) (outcomes : list bool) : list call :=
  match p, outcomes with
  | GoSetVolume s v _ :: p', ok :: outcomes' =>
      CallSetVolume s v ok :: callsInOrder p' outcomes'
  | _, _ => []
  end.

End Resolver.

(** Concrete settings on which the statements below are exercised. *)
Module Sample.
Import Float32 Serial.

Definition epsilon : Q := 1 # 1000000.

Definition threshold (noiseReductionLevel : string) : Q :=
  if String.eqb noiseReductionLevel "high" then 35 # 1000
  else if String.eqb noiseReductionLevel "low" then 15 # 1000
  else 25 # 1000.

Definition NormalizeScalar : float32 -> float32 := Util.NormalizeScalar epsilon.

Definition SignificantlyDifferent : float32 -> float32 -> string -> bool :=
  Util.SignificantlyDifferent threshold.

Definition config (invert : bool) : CanonicalConfig :=
  {| SliderMapping := {[ 0 := ["chrome.exe"] ]};
     InvertSliders := invert;
     NoiseReductionLevel := "default" |}.

(** a tracker with one subscriber, before its first frame *)
Definition fresh : SerialIO := SubscribeToSliderMoveEvents NewSerialIO.

Definition chrome : SessionMap.Session :=
  {| SessionMap.sessionID := 1; SessionMap.Key := "chrome.exe" |}.
Definition chrome' : SessionMap.Session :=
  {| SessionMap.sessionID := 2; SessionMap.Key := "chrome.exe" |}.
Definition spotify : SessionMap.Session :=
  {| SessionMap.sessionID := 3; SessionMap.Key := "spotify.exe" |}.

(** the session map after a refresh at time 0 that found two windows of
    chrome and one of spotify *)
Definition refreshed : SessionMap.sessionMap :=
  {| SessionMap.m := {[ "chrome.exe" := [chrome; chrome'];
                        "spotify.exe" := [spotify] ]};
     SessionMap.lastSessionRefresh := 0;
     SessionMap.unmappedSessions := [spotify] |}.


Definition process (invert : bool) : SerialIO -> string -> outcome :=
  processSliderData NormalizeScalar SignificantlyDifferent (config invert).

End Sample.

(* ===================================================================== *)
(** * [serial.go]: what runs around the tracker *)
(* ===================================================================== *)

Module Connection.
Import Float32 Serial.

(** [firmwareVersion] *)
Definition firmwareVersion : string := "v2.0".

(** What [setupOnConfigReload] does to the slider state on a reload of the
    configuration, once its delay has passed: [sio.lastKnownNumSliders = 0].
    (It also renews the connection when the port or the baud rate changed;
    that part is not modelled.) *)
Definition configReloaded (sio : SerialIO) : SerialIO :=
  {| lastKnownNumSliders := 0;
     currentSliderPercentValues := currentSliderPercentValues sio;
     sliderMoveConsumers := sliderMoveConsumers sio |}.

(** What happens to a [SerialIO], one thing after the other: a line is read
    and handled, the configuration is reloaded, a consumer subscribes.
    [processSliderData] reads [lastKnownNumSliders] once, before it writes
    it, so a reload that falls into a call acts as one right before or
    right after it. *)
Inductive happening : Type :=
| LineRead (line : string)
| ConfigReloaded
| Subscribed.

Section Feed.

Variable NormalizeScalar : float32 -> float32.
Variable SignificantlyDifferent : float32 -> float32 -> string -> bool.
Variable config : CanonicalConfig.

(** the state after a run of happenings, [None] when a line made
    [processSliderData] panic *)
Fixpoint feed (sio : SerialIO) (run : list happening) : option SerialIO :=
  match run with
  | [] => Some sio
  | LineRead line :: rest =>
      match handleLine NormalizeScalar SignificantlyDifferent config sio line with
      | LineSliders Panicked => None
      | LineSliders (Returned sio' _) => feed sio' rest
      | _ => feed sio rest
      end
  | ConfigReloaded :: rest => feed (configReloaded sio) rest
  | Subscribed :: rest => feed (SubscribeToSliderMoveEvents sio) rest
  end.

End Feed.

(** the slots agree with the slider count, unless the count was zeroed *)
Definition inStep (sio : SerialIO) : Prop :=
  lastKnownNumSliders sio = 0 \/
  lastKnownNumSliders sio = Z.of_nat (List.length (currentSliderPercentValues sio)).

(** The connection of a [SerialIO]: [connected], and the bytes written to
    [conn] so far ([None] for a nil [conn]). *)
Record link : Type := {
  connected : bool;
  conn : option (list string)
}.

(** what [conn.Write] answers: all bytes written, or an error after the
    first [n] of them *)
Inductive writeOutcome : Type :=
| WriteDone
| WriteFailed (n : nat).

Inductive sendResult : Type :=
| Sent
| NotConnected
| SendFailed.

(** [fmt.Sprintf("deej:%s:command:%s\n", firmwareVersion, command)] *)
Definition formatCommand (command : string) : string :=
  "deej:" +:+ firmwareVersion +:+ ":command:" +:+ command +:+ String Strings.LF "".

Fixpoint takeBytes (n : nat) (s : string) : string :=
  match n, s with
  | S n', String c r => String c (takeBytes n' r)
  | _, _ => ""
  end.

(** [SendCommand] *)
Definition SendCommand (w : writeOutcome) (l : link) (command : string)
    : link * sendResult :=
  match connected l, conn l with
  | true, Some written =>
      let formattedCommand := formatCommand command in
      match w with
      | WriteDone =>
          ({| connected := true; conn := Some (written ++ [formattedCommand]) |}, Sent)
      | WriteFailed n =>
          ({| connected := true;
              conn := Some (written ++ [takeBytes n formattedCommand]) |}, SendFailed)
      end
  | _, _ => (l, NotConnected)
  end.

(** [RebootArduino], after its notification *)
Definition RebootArduino (w : writeOutcome) (l : link) : link * sendResult :=
  SendCommand w l "reboot".


End Connection.

(* ===================================================================== *)
(** * [deej-5-sliders-vanilla.ino]: the firmware at the other end *)
(* ===================================================================== *)

(** The functions of Arduino's [String] and [Serial] the sketch calls, on
    byte strings without the byte 0.  The core keeps a [String] as a string
    of C: [indexOf], [substring] and the comparisons stop at a byte 0, which
    the functions below do not.  A statement about what the sketch makes of
    given bytes is made of bytes of ASCII other than 0 ([Text.plain],
    [Text.NUL]). *)
Module Arduino.

Definition digit (d : Z) : ascii := ascii_of_nat (48 + Z.to_nat d).

(** the decimal digits of [n], most significant first, written before
    [acc]; [fuel] bounds their number *)
Fixpoint digitsOf (fuel : nat) (n : Z) (acc : string) : string :=
  match fuel with
  | O => acc
  | S fuel' =>
      let acc' := String (digit (n mod 10)) acc in
      if n <? 10 then acc' else digitsOf fuel' (n / 10) acc'
  end.

(** [String(int)] and [message += int]: [itoa] in base 10.  An [int] of
    the AVR has 16 bits, hence at most five digits. *)
Definition Itoa (n : Z) : string :=
  if n <? 0 then String "-" (digitsOf 5 (- n) "") else digitsOf 5 n "".

(** [String::trim]: [isspace] holds of the six bytes of [Strings.isSpace] *)
Definition trim (s : string) : string := Strings.TrimSpace s.

(** [String::startsWith] *)
Definition startsWith (s p : string) : bool := Strings.HasPrefix s p.

(** [String::indexOf(ch, fromIndex)], [None] for -1 *)
Fixpoint indexOf (s : string) (ch : ascii) (fromIndex : nat) : option nat :=
  match s with
  | "" => None
  | String c r =>
      match fromIndex with
      | O => if Ascii.eqb c ch then Some 0%nat
             else option_map S (indexOf r ch 0)
      | S from' => option_map S (indexOf r ch from')
      end
  end.

(** [String::substring(left, right)] for [left <= right], and
    [String::substring(left)] *)
Definition substring (s : string) (left right : nat) : string :=
  String.substring left (right - left) s.

Definition substringFrom (s : string) (left : nat) : string := Strings.drop left s.

(** [Serial.readStringUntil(terminator)] on the bytes received so far: the
    bytes before the first terminator, which is consumed, or all of them
    when the wait for a terminator times out; with it, what stays in the
    receive buffer *)
Fixpoint readStringUntil (terminator : ascii) (rx : string) : string * string :=
  match rx with
  | "" => ("", "")
  | String c r =>
      if Ascii.eqb c terminator then ("", r)
      else let '(s, rest) := readStringUntil terminator r in (String c s, rest)
  end.

(** [Serial.println] ends the line with CR LF *)
Definition println (s : string) : string := s +:+ Strings.CRLF.

End Arduino.

Module Firmware.
Import Arduino.

Definition NUM_SLIDERS : nat := 5.
Definition FIRMWARE_VERSION : string := "v2.0".
Definition CHANGE_THRESHOLD : Z := 10.

(** The globals of the sketch. *)
Record board : Type := {
  analogSliderValues : list Z;
  lastSentValues : list Z
}.

(** what [processCommand] leaves the sketch to do: go on, or start over
    (the jump to address 0) *)
Inductive effect : Type := Continue | Reboot.

(** [updateSliderValues]; [analogRead i] is what the pin of slider [i]
    reads at the time *)
Definition updateSliderValues (analogRead : nat -> Z) (b : board) : board :=
  {| analogSliderValues := map analogRead (seq 0 NUM_SLIDERS);
     lastSentValues := lastSentValues b |}.

(** [hasSignificantChanges].  The values are kept as integers: readings
    of a 10-bit converter, and what was recorded of them, are far from the
    bounds of an [int], and so are their differences. *)
Fixpoint anySignificant (values lastSent : list Z) : bool :=
  match values, lastSent with
  | v :: values', l :: lastSent' =>
      if CHANGE_THRESHOLD <? Z.abs (v - l) then true
      else anySignificant values' lastSent'
  | _, _ => false
  end.

Definition hasSignificantChanges (b : board) : bool :=
  anySignificant (analogSliderValues b) (lastSentValues b).

(** [updateLastSentValues] *)
Definition updateLastSentValues (b : board) : board :=
  {| analogSliderValues := analogSliderValues b;
     lastSentValues := analogSliderValues b |}.

(** the values of a slider message, with ["|"] between them *)
Fixpoint joinValues (values : list Z) : string :=
  match values with
  | [] => ""
  | [v] => Itoa v
  | v :: rest => Itoa v +:+ "|" +:+ joinValues rest
  end.

(** the message [sendSliderValues] builds *)
Definition sliderMessage (values : list Z) : string :=
  "deej:" +:+ FIRMWARE_VERSION +:+ ":sliders:" +:+ joinValues values.

(** [sendSliderValues]: the line it writes *)
Definition sendSliderValues (b : board) : string :=
  println (sliderMessage (analogSliderValues b)).

(** [processCommand]: the lines it writes, and whether the sketch goes on *)
Definition processCommand (b : board) (command : string) : list string * effect :=
  let command := trim command in
  if String.eqb command "reboot" then
    ([println ("deej:" +:+ FIRMWARE_VERSION +:+ ":response:reboot_ack")], Reboot)
  else if String.eqb command "version" then
    ([println ("deej:" +:+ FIRMWARE_VERSION +:+ ":response:version:"
               +:+ FIRMWARE_VERSION)], Continue)
  else if String.eqb command "sliders" then
    ([sendSliderValues b], Continue)
  else
    ([println ("deej:" +:+ FIRMWARE_VERSION +:+ ":response:error:unknown_command:"
               +:+ command)], Continue).

(** [checkForCommands], on the receive buffer [rx]: the lines written,
    whether the sketch goes on, and what stays in the buffer *)
Definition checkForCommands (b : board) (rx : string)
    : list string * effect * string :=
  match rx with
  | "" => ([], Continue, rx)
  | _ =>
      let '(incoming, rx') := readStringUntil Strings.LF rx in
      let incoming := trim incoming in
      let silent := ([], Continue, rx') in
      if startsWith incoming "deej:" then
        match indexOf incoming ":" 5 with
        | Some firstColon =>
            match indexOf incoming ":" (firstColon + 1) with
            | Some secondColon =>
                let messageType := substring incoming (firstColon + 1) secondColon in
                if String.eqb messageType "command" then
                  let command := substringFrom incoming (secondColon + 1) in
                  let '(out, eff) := processCommand b command in
                  (out, eff, rx')
                else silent
            | None => silent
            end
        | None => silent
        end
      else silent
  end.

(** [setup]: the board it leaves and the lines it writes *)
Definition setup (analogRead : nat -> Z) : board * list string :=
  let b := updateSliderValues analogRead
             {| analogSliderValues := replicate NUM_SLIDERS 0;
                lastSentValues := replicate NUM_SLIDERS (-1) |} in
  (updateLastSentValues b,
   [println ("deej:" +:+ FIRMWARE_VERSION +:+ ":startup:5sliders");
    sendSliderValues b]).

(** One turn of [loop].  After a reboot command the sketch starts over:
    [setup] runs, and the receive buffer is empty again (nothing below
    depends on what the buffer holds). *)
Definition loop (analogRead : nat -> Z) (b : board) (rx : string)
    : board * list string * string :=
  let '(out, eff, rx') := checkForCommands b rx in
  match eff with
  | Reboot =>
      let '(b', out') := setup analogRead in (b', out ++ out', "")
  | Continue =>
      let b := updateSliderValues analogRead b in
      if hasSignificantChanges b
      then (updateLastSentValues b, out ++ [sendSliderValues b], rx')
      else (b, out, rx')
  end.

(** What a turn of [loop] meets: the pin readings, and the bytes that
    arrived since the turn before. *)
Record turn : Type := {
  pins : nat -> Z;
  arrived : string
}.

(** the sketch from power-up: [setup], then one [loop] per turn; the
    board at the end and every line written *)
Fixpoint loops (b : board) (rx : string) (turns : list turn)
    : board * list string :=
  match turns with
  | [] => (b, [])
  | t :: rest =>
      let '(b', out, rx') := loop (pins t) b (rx +:+ arrived t) in
      let '(b'', out') := loops b' rx' rest in
      (b'', out ++ out')
  end.

Definition sketch (powerUp : nat -> Z) (turns : list turn) : board * list string :=
  let '(b, out) := setup powerUp in
  let '(b', out') := loops b "" turns in
  (b', out ++ out').

(** the readings of a 10-bit converter *)
Definition tenBit (analogRead : nat -> Z) : Prop :=
  forall i, 0 <= analogRead i <= 1023.

End Firmware.

(** Vocabulary on byte strings. *)
Module Text.

Fixpoint allBytes (P : ascii -> bool) (s : string) : bool :=
  match s with
  | "" => true
  | String c r => P c && allBytes P r
  end.

(** the byte [c] does not occur in [s] *)
Definition free (c : ascii) (s : string) : bool :=
  allBytes (fun b => negb (Ascii.eqb b c)) s.

(** nothing but white space *)
Definition blank (s : string) : bool := allBytes Strings.isSpace s.

(** [s] neither starts nor ends with white space *)
Definition trimmed (s : string) : Prop := Strings.TrimSpace s = s.

(** the range of an [int] of the AVR *)
Definition int16 (n : Z) : Prop := -32768 <= n <= 32767.




End Text.

(** Vocabulary for the host and the firmware taken together. *)
Module Wire.
Import Float32 Serial Firmware.

(** a line the host acts on: it is not ignored, it is no response of a
    type the host does not know, and it does not make the tracker panic *)
Definition understood (r : lineResult) : bool :=
  match r with
  | LineIgnored => false
  | LineResponse (Unhandled _ _) => false
  | LineSliders Panicked => false
  | _ => true
  end.

(** the value the tracker computes for the reading [v] *)
Definition scaled (NormalizeScalar : float32 -> float32) (config : CanonicalConfig)
    (v : Z) : float32 :=
  let x := NormalizeScalar (div (of_int v) (of_int 1023)) in
  if InvertSliders config then sub one x else x.

Definition eventOf (NormalizeScalar : float32 -> float32) (config : CanonicalConfig)
    (sliderIdx : nat) (v : Z) : SliderMoveEvent :=
  {| SliderID := Z.of_nat sliderIdx; PercentValue := scaled NormalizeScalar config v |}.

(** every slider reads within the threshold of what was last recorded as
    sent for it *)
Definition settled (b : board) : Prop :=
  List.length (analogSliderValues b) = NUM_SLIDERS /\
  Forall2 (fun v l => Z.abs (v - l) <= CHANGE_THRESHOLD)
    (analogSliderValues b) (lastSentValues b).

(** the readings of the pins, slider by slider *)
Definition readings (analogRead : nat -> Z) : list Z :=
  map analogRead (seq 0 NUM_SLIDERS).

(** the slider values are readings of a 10-bit converter, one per slider *)
Definition sane (b : board) : Prop :=
  List.length (analogSliderValues b) = NUM_SLIDERS /\
  Forall (fun v => 0 <= v <= 1023) (analogSliderValues b).

(** the host acts on the line, and when it takes it for a slider message
    it hands the tracker [NUM_SLIDERS] readings, all of them in range *)
Definition wellRead (NormalizeScalar : float32 -> float32)
    (SignificantlyDifferent : float32 -> float32 -> string -> bool)
    (config : CanonicalConfig) (sio : SerialIO) (line : string) : Prop :=
  let handled := handleLine NormalizeScalar SignificantlyDifferent config sio line in
  understood handled = true /\
  forall o, handled = LineSliders o ->
    exists sliderData,
      o = processSliderData NormalizeScalar SignificantlyDifferent config sio sliderData /\
      List.length (Tracker.fieldsOf sliderData) = NUM_SLIDERS /\
      Forall Tracker.inRange (Tracker.fieldsOf sliderData).

(** the pins the sketch read last *)
Definition lastPins (powerUp : nat -> Z) (turns : list turn) : nat -> Z :=
  match last turns with
  | Some t => pins t
  | None => powerUp
  end.

End Wire.

(** Vocabulary for the sessions a session map holds. *)
Module Sessions.
Import SessionMap.

(** every session held, key by key *)
Definition held (sm : sessionMap) : list Session :=
  concat (map snd (map_to_list (m sm))).

(** the sessions of an enumeration that go under the key [k], in order *)
Definition under (k : string) (sessions : list Session) : list Session :=
  List.filter (fun s => String.eqb (Key s) k) sessions.

(** the sessions a trace releases, in order *)
Definition released (calls : list call) : list Session :=
  omap (fun c => match c with CallRelease s => Some s | _ => None end) calls.

(** a refresh with these arguments is not skipped *)
Definition due (force : bool) (now : Time) (sm : sessionMap) : Prop :=
  force = true \/ lastSessionRefresh sm + minTimeBetweenSessionRefreshes <= now.


End Sessions.

(* ===================================================================== *)
(** * [slider_map.go] *)
(* ===================================================================== *)

Module SliderMap.

(** [sliderMap.m] *)
Definition sliderMap : Type := gmap Z (list string).

(** [newSliderMap] *)
Definition newSliderMap : sliderMap := ∅.

(** [get] and [set] *)
Definition get (m : sliderMap) (key : Z) : option (list string) := m !! key.

Definition set (m : sliderMap) (key : Z) (value : list string) : sliderMap :=
  <[key := value]> m.

(** A [map[string][]string] of the configuration, as the pairs a [range]
    over it visits, in the order of the visit. *)
Definition mapping : Type := list (string * list string).

(** the closure [getSliderIdx], with [sliderIdxCache] passed along *)
Definition getSliderIdx (sliderIdxCache : gmap string Z) (sliderIdxString : string)
    : Z * gmap string Z :=
  match sliderIdxCache !! sliderIdxString with
  | Some idx => (idx, sliderIdxCache)
  | None =>
      let idx := fst (Strings.Atoi sliderIdxString) in
      (idx, <[sliderIdxString := idx]> sliderIdxCache)
  end.

(** [filteredTargets] *)
Definition filteredTargets (targets : list string) : list string :=
  List.filter (fun target => negb (String.eqb target "")) targets.

(** the loop over [userMapping] *)
Fixpoint copyUser (userMapping : mapping) (sliderIdxCache : gmap string Z)
    (resultMap : sliderMap) : gmap string Z * sliderMap :=
  match userMapping with
  | [] => (sliderIdxCache, resultMap)
  | (sliderIdxString, targets) :: rest =>
      let '(sliderIdx, sliderIdxCache) := getSliderIdx sliderIdxCache sliderIdxString in
      let filtered := filteredTargets targets in
      let resultMap :=
        if (0 <? List.length filtered)%nat then set resultMap sliderIdx filtered
        else resultMap in
      copyUser rest sliderIdxCache resultMap
  end.

(** [newTargets], with [existingSet] passed along *)
Fixpoint newTargets (existingSet : gset string) (targets : list string) : list string :=
  match targets with
  | [] => []
  | target :: rest =>
      if negb (String.eqb target "") && negb (bool_decide (target ∈ existingSet))
      then target :: newTargets ({[ target ]} ∪ existingSet) rest
      else newTargets existingSet rest
  end.

(** the loop over [internalMapping] *)
Fixpoint addInternal (internalMapping : mapping) (sliderIdxCache : gmap string Z)
    (resultMap : sliderMap) : gmap string Z * sliderMap :=
  match internalMapping with
  | [] => (sliderIdxCache, resultMap)
  | (sliderIdxString, targets) :: rest =>
      let '(sliderIdx, sliderIdxCache) := getSliderIdx sliderIdxCache sliderIdxString in
      let existingTargets := default [] (get resultMap sliderIdx) in
      let added := newTargets (list_to_set existingTargets) targets in
      let resultMap :=
        if (0 <? List.length added)%nat
        then set resultMap sliderIdx (existingTargets ++ added)
        else resultMap in
      addInternal rest sliderIdxCache resultMap
  end.

(** [sliderMapFromConfigs] *)
Definition sliderMapFromConfigs (userMapping internalMapping : mapping) : sliderMap :=
  let '(sliderIdxCache, resultMap) := copyUser userMapping ∅ newSliderMap in
  snd (addInternal internalMapping sliderIdxCache resultMap).

(** the slider a key of the configuration stands for *)
Definition sliderOf (entry : string * list string) : Z :=
  fst (Strings.Atoi (fst entry)).

(** one turn of either loop, the slider index read afresh *)
Definition userStep (resultMap : sliderMap) (entry : string * list string) : sliderMap :=
  let filtered := filteredTargets (snd entry) in
  if (0 <? List.length filtered)%nat then set resultMap (sliderOf entry) filtered
  else resultMap.

Definition internalStep (resultMap : sliderMap) (entry : string * list string)
    : sliderMap :=
  let existingTargets := default [] (get resultMap (sliderOf entry)) in
  let added := newTargets (list_to_set existingTargets) (snd entry) in
  if (0 <? List.length added)%nat
  then set resultMap (sliderOf entry) (existingTargets ++ added)
  else resultMap.

(** every cached index is the one [Atoi] reads *)
Definition soundCache (sliderIdxCache : gmap string Z) : Prop :=
  forall sliderIdxString idx,
    sliderIdxCache !! sliderIdxString = Some idx ->
    idx = fst (Strings.Atoi sliderIdxString).

(** no slider is mapped to no target, or to an empty one *)
Definition clean (m : sliderMap) : Prop :=
  forall k targets, get m k = Some targets -> targets <> [] /\ "" ∉ targets.

(** no two keys of the mapping stand for the same slider *)
Definition distinctSliders (mp : mapping) : Prop := NoDup (map sliderOf mp).

(** the targets a mapping gives for the slider [k], as they are written *)
Definition rawFor (k : Z) (mp : mapping) : list string :=
  concat (map (fun entry => if sliderOf entry =? k then snd entry else []) mp).

End SliderMap.

(* ===================================================================== *)
(** * [tray.go]: the theme of the desktop *)
(* ===================================================================== *)

Module Tray.

Inductive ThemeType : Type := ThemeDark | ThemeLight.

(** [b | 32] on a byte *)
Definition or32 (b : ascii) : ascii := ascii_of_N (N.lor (N_of_ascii b) 32).

(** [containsIgnoreCase]; [None] is the run-time panic of a slice
    expression out of range.  The recursion is on [s], and within one [s]
    on [substr]. *)
Fixpoint containsIgnoreCase (s : string) : string -> option bool :=
  fix inner (substr : string) : option bool :=
    let lenS := String.length s in
    let lenSubstr := String.length substr in
    let whole :=
      if (lenSubstr <=? lenS)%nat then
        if String.eqb s substr then Some true
        else if (lenSubstr <? lenS)%nat then
          match (match s with
                 | String _ s' => containsIgnoreCase s' substr
                 | "" => None
                 end) with
          | Some false =>
              match substr with
              | String _ substr' => inner substr'
              | "" => None
              end
          | found => found
          end
        else Some false
      else Some false in
    match whole with
    | Some false =>
        match s, substr with
        | String a s', String b substr' =>
            if Ascii.eqb (or32 a) (or32 b) then containsIgnoreCase s' substr'
            else Some false
        | _, _ => Some false
        end
    | found => found
    end.

Definition lightNames : list string :=
  ["light"; "adwaita"; "breeze-light"; "yaru-light"].

(** the loop of [isLightTheme] *)
Fixpoint anyContained (theme : string) (names : list string) : option bool :=
  match names with
  | [] => Some false
  | name :: rest =>
      match containsIgnoreCase theme name with
      | Some false => anyContained theme rest
      | found => found
      end
  end.

(** [isLightTheme] *)
Definition isLightTheme (theme : string) : option bool :=
  anyContained theme lightNames.

(** [DetectSystemTheme], [Getenv] being [os.Getenv] *)
Definition DetectSystemTheme (Getenv : string -> string) : option ThemeType :=
  let themeOf (name : string) :=
    match isLightTheme name with
    | Some true => Some ThemeLight
    | Some false => Some ThemeDark
    | None => None
    end in
  let gtkTheme := Getenv "GTK_THEME" in
  if negb (String.eqb gtkTheme "") then themeOf gtkTheme
  else
    let xdgTheme := Getenv "XDG_CURRENT_DESKTOP" in
    if negb (String.eqb xdgTheme "") then themeOf xdgTheme
    else Some ThemeDark.

(** the same bytes, up to bit 5 of each *)
Fixpoint sameUpToCase (s t : string) : bool :=
  match s, t with
  | "", "" => true
  | String a s', String b t' => Ascii.eqb (or32 a) (or32 b) && sameUpToCase s' t'
  | _, _ => false
  end.

End Tray.

(* ===================================================================== *)
(** * [web_config.go]: the targets of a slider as text *)
(* ===================================================================== *)

Module WebConfig.





End WebConfig.

(* ===================================================================== *)
(** * The embedding on concrete inputs *)
(* ===================================================================== *)

Example Split_sample :
  Strings.Split "512|1023|0" "|" = ["512"; "1023"; "0"].
Proof. reflexivity. Qed.

Example Split_empty : Strings.Split "" "|" = [""].
Proof. reflexivity. Qed.

Example TrimSpace_sample :
  Strings.TrimSpace (" 512|0" +:+ Strings.CRLF) = "512|0".
Proof. reflexivity. Qed.

Example Atoi_samples :
  Strings.Atoi "1023" = (1023, true) /\ Strings.Atoi "-7" = (-7, true) /\
  Strings.Atoi "12a" = (0, false) /\ Strings.Atoi "" = (0, false) /\
  Strings.Atoi "99999999999999999999" = (Strings.maxInt, false).
Proof. repeat split; reflexivity. Qed.

(** Before [TrimSpace] the pattern of the code does match a bare line. *)
Example expectedLinePattern_samples :
  Regexp.MatchString Serial.expectedLinePattern ("512|1023|0" +:+ Strings.CRLF) = true /\
  Regexp.MatchString Serial.expectedLinePattern "512|1023|0" = false /\
  Regexp.MatchString Serial.expectedLinePattern ("51234|0" +:+ Strings.CRLF) = false /\
  Regexp.MatchString Serial.expectedLinePattern ("512|" +:+ Strings.CRLF) = false.
Proof. repeat split; reflexivity. Qed.

Example deviceSessionKeyPattern_samples :
  Regexp.MatchString SessionMap.deviceSessionKeyPattern "headphones (realtek audio)" = true /\
  Regexp.MatchString SessionMap.deviceSessionKeyPattern "chrome.exe" = false /\
  Regexp.MatchString SessionMap.deviceSessionKeyPattern " ()" = false.
Proof. repeat split; reflexivity. Qed.

Example float32_samples :
  Float32.one = S754_finite false 8388608 (-23) /\
  Float32.minus_one = S754_finite true 8388608 (-23) /\
  Float32.div (Float32.of_int 512) (Float32.of_int 1023)
    = S754_finite false 8396808 (-24) /\
  Float32.div (Float32.of_int 1023) (Float32.of_int 1023) = Float32.one /\
  Float32.sub Float32.one Float32.one = Float32.zero /\
  Float32.eqb Float32.minus_one Float32.minus_one = true.
Proof. repeat split; reflexivity. Qed.

Example handleLine_samples :
  let handle := Serial.handleLine Sample.NormalizeScalar
                  Sample.SignificantlyDifferent (Sample.config false) Sample.fresh in
  handle "status: ok" = Serial.LineTrayIcon Serial.TrayNormal /\
  handle "status:down" = Serial.LineTrayIcon Serial.TrayError /\
  handle "deej:v2.0:startup:sliders,reboot" = Serial.LineTrayIcon Serial.TrayNormal /\
  handle "deej:v2.0:response:error:parse:bad" =
    Serial.LineResponse (Serial.CommandError (Some ("parse", "bad"))) /\
  handle "deej:v2.0:sliders" = Serial.LineIgnored /\
  handle "deej:v2.0" = Serial.LineIgnored /\
  handle "heartbeat" = Serial.LineIgnored.
Proof. repeat split; reflexivity. Qed.

(** A refresh on the sample configuration: both windows of chrome are
    held under one key, spotify alone is unmapped. *)
Example refreshSessions_sample :
  SessionMap.refreshSessions (Sample.config false) None true 0 0
    (Some [Sample.chrome; Sample.spotify; Sample.chrome'])
    (Resolver.newSessionMap, []) =
  Some (Sample.refreshed, [SessionMap.CallGetAllSessions]).
Proof. by vm_compute. Qed.

(** The same refresh with [Deej.unmapped] on a slider: the target passes
    the case-sensitive test of the prefix, resolves to nothing, and
    indexing the result panics. *)
Example cased_prefix_panics :
  SessionMap.refreshSessions
    {| SliderMapping := {[ 0 := ["Deej.unmapped"] ]};
       InvertSliders := false; NoiseReductionLevel := "default" |}
    None true 0 0 (Some [Sample.spotify]) (Resolver.newSessionMap, []) = None.
Proof. by vm_compute. Qed.

(** A slider move on the refreshed map: [SetVolume] fails on the first
    window of chrome, succeeds on the second, and the refresh started by
    the failure runs last. *)
Example failing_SetVolume_run :
  let event := {| Serial.SliderID := 0; Serial.PercentValue := Float32.one |} in
  let failing := Resolver.oldestFirst false in
  let working := Resolver.oldestFirst true in
  SessionMap.run (Sample.config false) [failing; working; working]
    (SessionMap.spawn (Sample.config false) None Sample.refreshed event) =
  {| SessionMap.pool := [];
     SessionMap.state :=
       ({| SessionMap.m := ∅;
           SessionMap.lastSessionRefresh := 0;
           SessionMap.unmappedSessions := [] |},
        [ SessionMap.CallSetVolume Sample.chrome Float32.one false;
          SessionMap.CallSetVolume Sample.chrome' Float32.one true;
          SessionMap.CallSleep (100 * SessionMap.Millisecond);
          SessionMap.CallRelease Sample.spotify;
          SessionMap.CallRelease Sample.chrome;
          SessionMap.CallRelease Sample.chrome';
          SessionMap.CallGetAllSessions ]);
     SessionMap.crashed := false |}.
Proof. by vm_compute. Qed.

(* ===================================================================== *)
(** * The slider state tracker *)
(* ===================================================================== *)

Lemma Split_cons (s : string) (sep : ascii) :
  exists f fs, Strings.Split s sep = f :: fs.
Proof.
  induction s as [|c r [f [fs IH]]]; simpl; [by eauto|].
  destruct (Ascii.eqb c sep); [by eauto|]. rewrite IH. by eauto.
Qed.

Section TrackerFacts.
Import Float32 Serial Tracker.

Variable NormalizeScalar : float32 -> float32.
Variable SignificantlyDifferent : float32 -> float32 -> string -> bool.
Variable config : CanonicalConfig.

Local Abbreviation loop := (sliderLoop NormalizeScalar SignificantlyDifferent config).
Local Abbreviation process := (processSliderData NormalizeScalar SignificantlyDifferent config).
Local Abbreviation norm := (normalized NormalizeScalar config).
Local Abbreviation moving := (moves NormalizeScalar SignificantlyDifferent config).
Local Abbreviation event := (eventAt NormalizeScalar config).

(** One turn of the loop, in the vocabulary above. *)
Lemma sliderLoop_step stringValue rest sliderIdx values moveEvents :
  loop (stringValue :: rest) sliderIdx values moveEvents =
  if (sliderIdx =? 0)%nat && (1023 <? reading stringValue) then LoopMalformed
  else match values !! sliderIdx with
       | None => LoopPanic
       | Some current =>
           if moving current stringValue
           then loop rest (S sliderIdx) (<[sliderIdx := norm stringValue]> values)
                  (moveEvents ++ [event sliderIdx stringValue])
           else loop rest (S sliderIdx) values moveEvents
       end.
Proof. reflexivity. Qed.

(** On slots that are all unset every field yields its event. *)
Lemma sliderLoop_unset rest : forall sliderIdx done moveEvents,
  List.length done = sliderIdx ->
  (sliderIdx = 0%nat -> reading (hd "" rest) <= 1023) ->
  loop rest sliderIdx (done ++ replicate (List.length rest) minus_one) moveEvents =
  LoopDone (done ++ map norm rest)
           (moveEvents ++ imap (fun j => event (sliderIdx + j)) rest).
Proof.
  induction rest as [|f rest IH]; intros idx done evs Hlen Hfirst.
  - simpl. by rewrite !app_nil_r.
  - rewrite sliderLoop_step.
    replace ((idx =? 0)%nat && (1023 <? reading f)) with false; last first.
    { symmetry. apply andb_false_iff.
      destruct (Nat.eqb_spec idx 0) as [->|]; [right|by left].
      apply Z.ltb_ge. by apply Hfirst. }
    simpl List.length. rewrite replicate_S.
    rewrite lookup_app_r by lia.
    replace (idx - List.length done)%nat with 0%nat by lia. simpl.
    rewrite insert_app_r_alt by lia.
    replace (idx - List.length done)%nat with 0%nat by lia. simpl.
    rewrite (cons_middle _ done), app_assoc.
    rewrite IH; [| rewrite length_app; simpl; lia | lia].
    rewrite <- !app_assoc. simpl. f_equal. f_equal.
    rewrite Nat.add_0_r. f_equal.
    apply imap_ext. intros j x _. simpl. f_equal. lia.
Qed.

(** The loop never touches a slot below its index, never shortens the
    slots, and only adds events for its own indices. *)
Lemma sliderLoop_frame rest : forall sliderIdx values moveEvents values' moveEvents',
  loop rest sliderIdx values moveEvents = LoopDone values' moveEvents' ->
  List.length values' = List.length values /\
  (forall k, (k < sliderIdx)%nat -> values' !! k = values !! k) /\
  (forall e, e ∈ moveEvents' -> e ∈ moveEvents \/ Z.of_nat sliderIdx <= SliderID e).
Proof.
  induction rest as [|f rest IH]; intros idx values evs values' evs' H.
  - simpl in H. injection H as <- <-. by auto.
  - rewrite sliderLoop_step in H.
    destruct ((idx =? 0)%nat && (1023 <? reading f)); [done|].
    destruct (values !! idx) as [current|] eqn:Hcur; [|done].
    destruct (moving current f); apply IH in H as (Hlen & Hlow & Hev).
    + rewrite length_insert in Hlen. split; [done|]. split.
      * intros k Hk. rewrite Hlow by lia. apply list_lookup_insert_ne. lia.
      * intros e He. destruct (Hev e He) as [Hin|Hge]; [|right; lia].
        apply elem_of_app in Hin as [Hin|Hin]; [by left|].
        apply list_elem_of_singleton in Hin as ->. right. simpl. lia.
    + split; [done|]. split.
      * intros k Hk. apply Hlow. lia.
      * intros e He. destruct (Hev e He); [by left|right; lia].
Qed.

(** Every event the loop adds carries the normalized value of the field of
    its index, and that value is stored in its slot. *)
Lemma sliderLoop_emitted rest : forall sliderIdx values moveEvents values' moveEvents',
  loop rest sliderIdx values moveEvents = LoopDone values' moveEvents' ->
  forall e, e ∈ moveEvents' ->
    e ∈ moveEvents \/
    exists j f, rest !! j = Some f /\ e = event (sliderIdx + j) f /\
                values' !! (sliderIdx + j)%nat = Some (norm f).
Proof.
  induction rest as [|f rest IH]; intros idx values evs values' evs' H e He.
  - simpl in H. injection H as <- <-. by left.
  - rewrite sliderLoop_step in H.
    destruct ((idx =? 0)%nat && (1023 <? reading f)); [done|].
    destruct (values !! idx) as [current|] eqn:Hcur; [|done].
    destruct (moving current f).
    + pose proof (sliderLoop_frame _ _ _ _ _ _ H) as (_ & Hlow & _).
      destruct (IH _ _ _ _ _ H e He) as [Hin|(j & g & Hj & -> & Hval)].
      * apply elem_of_app in Hin as [Hin|Hin]; [by left|].
        apply list_elem_of_singleton in Hin as ->. right.
        exists 0%nat, f. rewrite Nat.add_0_r. split; [done|]. split; [done|].
        rewrite Hlow by lia. apply list_lookup_insert_eq.
        by apply lookup_lt_Some in Hcur.
      * right. exists (S j), g. split; [done|].
        replace (idx + S j)%nat with (S idx + j)%nat by lia. done.
    + destruct (IH _ _ _ _ _ H e He) as [Hin|(j & g & Hj & -> & Hval)]; [by left|].
      right. exists (S j), g. split; [done|].
      replace (idx + S j)%nat with (S idx + j)%nat by lia. done.
Qed.

(** A slot whose field does not pass the test keeps its value, and no
    event is added for it. *)
Lemma sliderLoop_quiet rest : forall sliderIdx values moveEvents values' moveEvents' j f v,
  loop rest sliderIdx values moveEvents = LoopDone values' moveEvents' ->
  rest !! j = Some f ->
  values !! (sliderIdx + j)%nat = Some v ->
  moving v f = false ->
  values' !! (sliderIdx + j)%nat = Some v /\
  (forall e, e ∈ moveEvents' -> e ∈ moveEvents \/ SliderID e <> Z.of_nat (sliderIdx + j)).
Proof.
  induction rest as [|g rest IH]; intros idx values evs values' evs' j f v H Hj Hv Hq.
  - done.
  - rewrite sliderLoop_step in H.
    destruct ((idx =? 0)%nat && (1023 <? reading g)); [done|].
    destruct (values !! idx) as [current|] eqn:Hcur; [|done].
    destruct j as [|j].
    + simpl in Hj. injection Hj as ->. rewrite Nat.add_0_r in *.
      rewrite Hcur in Hv. injection Hv as ->. rewrite Hq in H.
      apply sliderLoop_frame in H as (_ & Hlow & Hev). split.
      * rewrite Hlow by lia. done.
      * intros e He. destruct (Hev e He); [by left|right; lia].
    + simpl in Hj. replace (idx + S j)%nat with (S idx + j)%nat in * by lia.
      destruct (moving current g).
      * rewrite <- (list_lookup_insert_ne values idx (S idx + j) (norm g)) in Hv by lia.
        destruct (IH _ _ _ _ _ _ _ _ H Hj Hv Hq) as [Hval Hev]. split; [done|].
        intros e He. destruct (Hev e He) as [Hin|Hne]; [|by right].
        apply elem_of_app in Hin as [Hin|Hin]; [by left|].
        apply list_elem_of_singleton in Hin as ->. right. simpl. lia.
      * by apply (IH _ _ _ _ _ _ _ _ H Hj Hv Hq).
Qed.

(** With a slot for every field the loop does not panic. *)
Lemma sliderLoop_no_panic rest : forall sliderIdx values moveEvents,
  (sliderIdx + List.length rest <= List.length values)%nat ->
  loop rest sliderIdx values moveEvents <> LoopPanic.
Proof.
  induction rest as [|f rest IH]; intros idx values evs Hlen; [done|].
  rewrite sliderLoop_step. simpl in Hlen.
  destruct ((idx =? 0)%nat && (1023 <? reading f)); [done|].
  destruct (lookup_lt_is_Some_2 values idx) as [current ->]; [lia|].
  destruct (moving current f); apply IH; rewrite ?length_insert; lia.
Qed.

(** The loop discards a frame at its first field or not at all. *)
Lemma sliderLoop_malformed rest : forall sliderIdx values moveEvents,
  loop rest sliderIdx values moveEvents = LoopMalformed ->
  sliderIdx = 0%nat /\ 1023 < reading (hd "" rest).
Proof.
  induction rest as [|f rest IH]; intros idx values evs H; [done|].
  rewrite sliderLoop_step in H.
  destruct (Nat.eqb_spec idx 0) as [->|Hne]; simpl in H.
  - destruct (Z.ltb_spec 1023 (reading f)); [done|].
    destruct (values !! 0%nat); [|done].
    destruct (moving f0 f); by apply IH in H as [? _].
  - destruct (values !! idx); [|done].
    destruct (moving f0 f); apply IH in H as [? _]; lia.
Qed.

Lemma imap_event_ids splitLine : forall start,
  map SliderID (imap (fun j => event (start + j)) splitLine) =
  map Z.of_nat (seq start (List.length splitLine)).
Proof.
  induction splitLine as [|f rest IH]; intros start; [done|].
  simpl. rewrite Nat.add_0_r. f_equal. rewrite <- IH. f_equal.
  apply imap_ext. intros j x _. simpl. f_equal. lia.
Qed.

(** [allEvents] holds one event per index, in ascending order. *)
Lemma allEvents_ids splitLine :
  map SliderID (allEvents NormalizeScalar config splitLine) =
  map Z.of_nat (seq 0 (List.length splitLine)).
Proof. apply (imap_event_ids splitLine 0). Qed.

(** A frame that is not discarded, met with slots that are all unset,
    yields one event per field. *)
Lemma process_from_unset sio sliderData :
  accepted sliderData ->
  Z.of_nat (List.length (fieldsOf sliderData)) <> lastKnownNumSliders sio \/
  currentSliderPercentValues sio =
    replicate (List.length (fieldsOf sliderData)) minus_one ->
  process sio sliderData =
  Returned
    {| lastKnownNumSliders := Z.of_nat (List.length (fieldsOf sliderData));
       currentSliderPercentValues := map norm (fieldsOf sliderData);
       sliderMoveConsumers :=
         deliver (allEvents NormalizeScalar config (fieldsOf sliderData))
           (sliderMoveConsumers sio) |}
    (allEvents NormalizeScalar config (fieldsOf sliderData)).
Proof.
  intros Hacc Hunset. unfold processSliderData.
  fold (fieldsOf sliderData).
  set (splitLine := fieldsOf sliderData) in *.
  assert (loop splitLine 0 (replicate (List.length splitLine) minus_one) [] =
          LoopDone (map norm splitLine) (allEvents NormalizeScalar config splitLine))
    as Hloop.
  { apply (sliderLoop_unset splitLine 0 [] []); [done|]. intros _. apply Hacc. }
  destruct (Z.eqb_spec (Z.of_nat (List.length splitLine)) (lastKnownNumSliders sio))
    as [Heq|Hne]; simpl.
  - destruct Hunset as [Hne|Hval]; [done|]. rewrite Hval, Hloop. by rewrite Heq.
  - by rewrite Hloop.
Qed.

(** A loop that ends normally found a slot for each of its fields. *)
Lemma sliderLoop_done_length rest : forall sliderIdx values moveEvents values' moveEvents',
  loop rest sliderIdx values moveEvents = LoopDone values' moveEvents' ->
  (rest = [] \/ sliderIdx + List.length rest <= List.length values)%nat.
Proof.
  induction rest as [|f rest IH]; intros idx values evs values' evs' H; [by left|].
  right. rewrite sliderLoop_step in H.
  destruct ((idx =? 0)%nat && (1023 <? reading f)); [done|].
  destruct (values !! idx) as [current|] eqn:Hcur; [|done].
  apply lookup_lt_Some in Hcur.
  destruct (moving current f); apply IH in H as [->|H];
    rewrite ?length_insert in *; simpl; lia.
Qed.

(** A channel receives events of the frame only, after those it holds. *)
Lemma trySend_fold moveEvents : forall consumer,
  exists sent, fold_left trySend moveEvents consumer = consumer ++ sent /\
               forall e, e ∈ sent -> e ∈ moveEvents.
Proof.
  induction moveEvents as [|e rest IH]; intros consumer; simpl.
  - exists []. split; [by rewrite app_nil_r|]. by intros e He.
  - destruct (IH (trySend consumer e)) as (sent & -> & Hsent).
    unfold trySend. destruct (_ <? _)%nat.
    + exists (e :: sent). split; [by rewrite <- app_assoc|].
      intros x Hx. apply elem_of_cons in Hx as [->|Hx]; [left|right; auto].
    + exists sent. split; [done|]. intros x Hx. right. auto.
Qed.

Lemma deliver_nil consumers : deliver [] consumers = consumers.
Proof. unfold deliver. simpl. induction consumers; simpl; congruence. Qed.

(** What a call that does not panic leaves behind. *)
Lemma process_returned sio sliderData sio' moveEvents :
  process sio sliderData = Returned sio' moveEvents ->
  lastKnownNumSliders sio' = Z.of_nat (List.length (fieldsOf sliderData)) /\
  sliderMoveConsumers sio' = deliver moveEvents (sliderMoveConsumers sio) /\
  (moveEvents <> [] ->
   (List.length (fieldsOf sliderData) <= List.length (currentSliderPercentValues sio'))%nat) /\
  forall e, e ∈ moveEvents ->
    exists j f, fieldsOf sliderData !! j = Some f /\ e = event j f /\
                currentSliderPercentValues sio' !! j = Some (norm f).
Proof.
  unfold processSliderData. fold (fieldsOf sliderData).
  set (splitLine := fieldsOf sliderData).
  set (n := Z.of_nat (List.length splitLine)).
  intros H.
  assert ((if negb (n =? lastKnownNumSliders sio)
           then (n, replicate (List.length splitLine) minus_one)
           else (lastKnownNumSliders sio, currentSliderPercentValues sio)).1 = n)
    as Hcount.
  { destruct (Z.eqb_spec n (lastKnownNumSliders sio)); simpl; congruence. }
  destruct (if negb (n =? lastKnownNumSliders sio) then _ else _)
    as [lastKnown values]. simpl in Hcount. subst lastKnown.
  destruct (loop splitLine 0 values []) as [| |values' evs] eqn:Hloop; [done| |].
  - injection H as <- <-. simpl. rewrite deliver_nil.
    split; [done|]. split; [done|]. split; [done|]. by intros e He%elem_of_nil.
  - injection H as <- <-. simpl. split; [done|]. split; [done|]. split.
    + intros Hne.
      destruct (sliderLoop_done_length _ _ _ _ _ _ Hloop) as [Hnil|Hlen].
      * rewrite Hnil in Hloop. simpl in Hloop. by injection Hloop as _ <-.
      * apply sliderLoop_frame in Hloop as (-> & _). simpl in Hlen. lia.
    + intros e He.
      destruct (sliderLoop_emitted _ _ _ _ _ _ Hloop e He) as [Hin|Hev];
        [by apply elem_of_nil in Hin|done].
Qed.

(** A frame with the stored number of readings leaves a slot alone, and
    yields no event for it, when the field of that slot does not pass the
    test. *)
Lemma process_quiet sio sliderData i f v :
  lastKnownNumSliders sio = Z.of_nat (List.length (fieldsOf sliderData)) ->
  (List.length (fieldsOf sliderData) <= List.length (currentSliderPercentValues sio))%nat ->
  fieldsOf sliderData !! i = Some f ->
  currentSliderPercentValues sio !! i = Some v ->
  moving v f = false ->
  exists sio' moveEvents,
    process sio sliderData = Returned sio' moveEvents /\
    lastKnownNumSliders sio' = lastKnownNumSliders sio /\
    List.length (currentSliderPercentValues sio') =
      List.length (currentSliderPercentValues sio) /\
    currentSliderPercentValues sio' !! i = Some v /\
    ~ emitsFor i moveEvents.
Proof.
  intros Hcount Hlen Hf Hv Hquiet. unfold processSliderData.
  fold (fieldsOf sliderData). rewrite Hcount, Z.eqb_refl. simpl.
  destruct (loop (fieldsOf sliderData) 0 (currentSliderPercentValues sio) [])
    as [| |values' evs] eqn:Hloop.
  - by apply sliderLoop_no_panic in Hloop.
  - eexists _, _. split; [done|]. simpl. split; [done|]. split; [done|].
    split; [done|]. by intros (e & He%elem_of_nil & _).
  - eexists _, _. split; [done|]. simpl. split; [done|].
    pose proof (sliderLoop_frame _ _ _ _ _ _ Hloop) as (Hlen' & _ & _).
    destruct (sliderLoop_quiet _ _ _ _ _ _ _ _ v Hloop Hf Hv Hquiet) as [Hval Hev].
    split; [done|]. split; [done|].
    intros (e & He & Hid). destruct (Hev e He) as [Hin|Hne];
      [by apply elem_of_nil in Hin|done].
Qed.

(** C3. A frame that is not discarded and whose number of readings
    differs from [lastKnownNumSliders] is processed as from slots that
    were all reset to the unset value: it yields exactly one move event
    per index, in ascending order, whatever the stored values, the
    threshold and the helpers of [util] are. *)
Theorem resync_emits_every_index sio sliderData :
  let splitLine := fieldsOf sliderData in
  Z.of_nat (List.length splitLine) <> lastKnownNumSliders sio ->
  accepted sliderData ->
  process sio sliderData = process (unsetAll (List.length splitLine) sio) sliderData /\
  exists sio',
    process sio sliderData =
      Returned sio' (allEvents NormalizeScalar config splitLine) /\
    lastKnownNumSliders sio' = Z.of_nat (List.length splitLine) /\
    currentSliderPercentValues sio' = map norm splitLine /\
    List.length (allEvents NormalizeScalar config splitLine) = List.length splitLine /\
    map SliderID (allEvents NormalizeScalar config splitLine) =
      map Z.of_nat (seq 0 (List.length splitLine)).
Proof.
  intros splitLine Hcount Hacc. split.
  - rewrite (process_from_unset sio) by auto.
    rewrite (process_from_unset (unsetAll _ sio)) by auto. done.
  - eexists. split; [apply process_from_unset; auto|]. simpl.
    split; [done|]. split; [done|]. split.
    + unfold allEvents. apply length_imap.
    + apply allEvents_ids.
Qed.

(** C5. A frame whose first field reads above 1023 yields no move event
    and leaves every subscriber's channel as it was. *)
Theorem dirty_first_field_discards sio sliderData :
  1023 < firstReading sliderData ->
  exists sio',
    process sio sliderData = Returned sio' [] /\
    sliderMoveConsumers sio' = sliderMoveConsumers sio.
Proof.
  unfold firstReading, fieldsOf, processSliderData. intros Hdirty.
  destruct (Split_cons sliderData "|") as (f & fs & Hsplit).
  rewrite Hsplit in *. simpl in Hdirty.
  destruct (negb _); rewrite sliderLoop_step; simpl;
    (replace (1023 <? reading f) with true by (symmetry; by apply Z.ltb_lt));
    eexists; split; reflexivity.
Qed.

(** C10. Discarding is not atomic: a frame with a dirty first field and a
    number of readings other than [lastKnownNumSliders] still records its
    count and unsets every slot before it is dropped, so that the next
    frame that is not discarded yields an event for every index. *)
Theorem discard_mutates_tracker sio sliderData :
  let n := List.length (fieldsOf sliderData) in
  Z.of_nat n <> lastKnownNumSliders sio ->
  1023 < firstReading sliderData ->
  process sio sliderData = Returned (unsetAll n sio) [] /\
  lastKnownNumSliders (unsetAll n sio) <> lastKnownNumSliders sio /\
  forall next, accepted next ->
    exists sio',
      process (unsetAll n sio) next =
        Returned sio' (allEvents NormalizeScalar config (fieldsOf next)) /\
      map SliderID (allEvents NormalizeScalar config (fieldsOf next)) =
        map Z.of_nat (seq 0 (List.length (fieldsOf next))).
Proof.
  intros n Hcount Hdirty. split; [|split].
  - unfold firstReading in Hdirty. unfold processSliderData.
    fold (fieldsOf sliderData). fold n.
    destruct (Z.eqb_spec (Z.of_nat n) (lastKnownNumSliders sio)) as [|_]; [done|].
    simpl. destruct (fieldsOf sliderData) as [|f fs] eqn:Hsplit.
    { destruct (Split_cons sliderData "|") as (f & fs & Hs).
      unfold fieldsOf in Hsplit. congruence. }
    rewrite sliderLoop_step. simpl in *.
    by replace (1023 <? reading f) with true by (symmetry; by apply Z.ltb_lt).
  - done.
  - intros next Hacc. eexists. split; [|apply allEvents_ids].
    apply process_from_unset; [done|].
    destruct (decide (Z.of_nat (List.length (fieldsOf next)) = Z.of_nat n)) as [Heq|];
      [right|by left].
    simpl. f_equal. lia.
Qed.

End TrackerFacts.

Lemma resync_emits_every_index_witness :
  Z.of_nat (List.length (Tracker.fieldsOf "512|1023|0"))
    <> Serial.lastKnownNumSliders Sample.fresh /\
  Tracker.accepted "512|1023|0" /\
  exists sio',
    Sample.process false Sample.fresh "512|1023|0" =
    Serial.Returned sio'
      (Tracker.allEvents Sample.NormalizeScalar (Sample.config false)
         ["512"; "1023"; "0"]).
Proof.
  assert (Z.of_nat (List.length (Tracker.fieldsOf "512|1023|0"))
            <> Serial.lastKnownNumSliders Sample.fresh) as Hcount
    by (vm_compute; discriminate).
  assert (Tracker.accepted "512|1023|0") as Hacc by (vm_compute; discriminate).
  split; [exact Hcount|]. split; [exact Hacc|].
  destruct (resync_emits_every_index Sample.NormalizeScalar
              Sample.SignificantlyDifferent (Sample.config false)
              Sample.fresh "512|1023|0" Hcount Hacc) as (_ & sio' & H & _).
  exists sio'. exact H.
Defined.

Lemma dirty_first_field_discards_witness :
  1023 < Tracker.firstReading "4558|925|41" /\
  exists sio',
    Sample.process false Sample.fresh "4558|925|41" = Serial.Returned sio' [] /\
    Serial.sliderMoveConsumers sio' = Serial.sliderMoveConsumers Sample.fresh.
Proof.
  assert (1023 < Tracker.firstReading "4558|925|41") as Hdirty by reflexivity.
  split; [exact Hdirty|].
  exact (dirty_first_field_discards Sample.NormalizeScalar
           Sample.SignificantlyDifferent (Sample.config false)
           Sample.fresh "4558|925|41" Hdirty).
Defined.

Lemma discard_mutates_tracker_witness :
  Z.of_nat (List.length (Tracker.fieldsOf "4558|925|41"))
    <> Serial.lastKnownNumSliders Sample.fresh /\
  1023 < Tracker.firstReading "4558|925|41" /\
  Sample.process false Sample.fresh "4558|925|41" =
    Serial.Returned (Tracker.unsetAll 3 Sample.fresh) [].
Proof.
  assert (Z.of_nat (List.length (Tracker.fieldsOf "4558|925|41"))
            <> Serial.lastKnownNumSliders Sample.fresh) as Hcount
    by (vm_compute; discriminate).
  assert (1023 < Tracker.firstReading "4558|925|41") as Hdirty by reflexivity.
  split; [exact Hcount|]. split; [exact Hdirty|].
  exact (proj1 (discard_mutates_tracker Sample.NormalizeScalar
                  Sample.SignificantlyDifferent (Sample.config false)
                  Sample.fresh "4558|925|41" Hcount Hdirty)).
Defined.


(* ===================================================================== *)
(** * The line protocol decoder *)
(* ===================================================================== *)

Section RegexpFacts.
Import Regexp.

Lemma nullable_lang r : nullable r = true -> lang r "".
Proof.
  induction r as [| |p|r1 IH1 r2 IH2|r1 IH1 r2 IH2|r IH]; simpl; intros H.
  - done.
  - constructor.
  - done.
  - apply andb_true_iff in H as [H1 H2].
    change "" with ("" +:+ ""). constructor; auto.
  - apply orb_true_iff in H as [H|H]; [apply lang_alt_l|apply lang_alt_r]; auto.
  - constructor.
Qed.

Lemma deriv_lang c r : forall s, lang (deriv c r) s -> lang r (String c s).
Proof.
  induction r as [| |p|r1 IH1 r2 IH2|r1 IH1 r2 IH2|r IH]; simpl; intros s H.
  - inversion H.
  - inversion H.
  - destruct (p c) eqn:Hp; inversion H; subst. by constructor.
  - destruct (nullable r1) eqn:Hnull.
    + inversion H as [| |? ? ? ? | ? ? ? Hl | ? ? ? Hr | |]; subst.
      * inversion Hl; subst.
        change (String c (s1 +:+ s2)) with (String c s1 +:+ s2).
        constructor; auto.
      * change (String c s) with ("" +:+ String c s).
        constructor; [by apply nullable_lang | auto].
    + inversion H; subst.
      change (String c (s1 +:+ s2)) with (String c s1 +:+ s2).
      constructor; auto.
  - inversion H; subst; [apply lang_alt_l|apply lang_alt_r]; auto.
  - inversion H; subst.
    change (String c (s1 +:+ s2)) with (String c s1 +:+ s2).
    constructor; auto.
Qed.

(** What [MatchString] accepts is a word of the expression. *)
Lemma MatchString_lang s : forall r, MatchString r s = true -> lang r s.
Proof.
  induction s as [|c s IH]; simpl; intros r H.
  - by apply nullable_lang.
  - by apply deriv_lang, IH.
Qed.

Lemma lang_nullable r s : lang r s -> s = "" -> nullable r = true.
Proof.
  induction 1 as [|p c Hp|r1 r2 s1 s2 H1 IH1 H2 IH2|r1 r2 s H IH|r1 r2 s H IH
                 |r|r s1 s2 H1 IH1 H2 IH2]; intros Hs; simpl; try done.
  - destruct s1; [|done]. simpl in Hs. by rewrite IH1, IH2.
  - by rewrite IH.
  - rewrite IH by done. apply orb_true_r.
Qed.

Lemma lang_deriv r s : lang r s -> forall c t, s = String c t -> lang (deriv c r) t.
Proof.
  induction 1 as [|p a Hp|r1 r2 s1 s2 H1 IH1 H2 IH2|r1 r2 s H IH|r1 r2 s H IH
                 |r|r s1 s2 H1 IH1 H2 IH2]; intros c t Hs; simpl; try done.
  - injection Hs as -> <-. rewrite Hp. constructor.
  - destruct s1 as [|a s1]; simpl in Hs.
    + rewrite (lang_nullable r1 "" H1 eq_refl). apply lang_alt_r. by apply IH2.
    + injection Hs as -> <-.
      destruct (nullable r1); [apply lang_alt_l|]; constructor; auto.
  - apply lang_alt_l. by apply IH.
  - apply lang_alt_r. by apply IH.
  - destruct s1 as [|a s1]; simpl in Hs.
    + by apply IH2.
    + injection Hs as -> <-. constructor; auto.
Qed.

(** [MatchString] decides the words of the expression. *)
Lemma MatchString_iff r s : MatchString r s = true <-> lang r s.
Proof.
  split; [apply MatchString_lang|].
  revert r. induction s as [|c s IH]; intros r H; simpl.
  - by apply (lang_nullable r "").
  - by apply IH, (lang_deriv r (String c s)).
Qed.

Lemma lastByte_app s1 s2 c :
  Strings.lastByte s2 = Some c -> Strings.lastByte (s1 +:+ s2) = Some c.
Proof.
  intros H. induction s1 as [|a s1 IH]; [done|].
  simpl. destruct (s1 +:+ s2) eqn:Happ; [done|exact IH].
Qed.

(** A word of [r1 r2] ends as its part in [r2] does. *)
Lemma lang_seq_last r1 r2 c s :
  (forall s2, lang r2 s2 -> Strings.lastByte s2 = Some c) ->
  lang (Seq r1 r2) s -> Strings.lastByte s = Some c.
Proof. intros Hr2 H. inversion H; subst. by apply lastByte_app, Hr2. Qed.

Lemma lang_chr_last c s : lang (Chr c) s -> Strings.lastByte s = Some c.
Proof.
  intros H. inversion H as [|p a Hp| | | | |]; subst. simpl.
  by apply Ascii.eqb_eq in Hp as ->.
Qed.

End RegexpFacts.

Lemma trimRight_lastByte s c :
  Strings.lastByte (Strings.trimRight s) = Some c -> Strings.isSpace c = false.
Proof.
  induction s as [|a s IH]; simpl; [done|].
  destruct (Strings.trimRight s) as [|b r] eqn:Htrim.
  - destruct (Strings.isSpace a) eqn:Ha; simpl; [done|]. by intros [= <-].
  - apply IH.
Qed.

(** A line that went through [TrimSpace] ends with no line feed, which
    [expectedLinePattern] demands: the pattern matches no trimmed line. *)
Lemma expectedLinePattern_never_matches line :
  Regexp.MatchString Serial.expectedLinePattern (Strings.TrimSpace line) = false.
Proof.
  destruct (Regexp.MatchString _ _) eqn:Hmatch; [|done].
  apply MatchString_lang in Hmatch.
  assert (Strings.lastByte (Strings.TrimSpace line) = Some Strings.LF) as Hlast.
  { unfold Serial.expectedLinePattern in Hmatch.
    repeat (eapply lang_seq_last; [|exact Hmatch]; clear Hmatch; intros ? Hmatch).
    by apply lang_chr_last. }
  by apply trimRight_lastByte in Hlast.
Qed.

Section DecoderFacts.
Import Float32 Serial Tracker.

Variable NormalizeScalar : float32 -> float32.
Variable SignificantlyDifferent : float32 -> float32 -> string -> bool.
Variable config : CanonicalConfig.

Local Abbreviation handle := (handleLine NormalizeScalar SignificantlyDifferent config).
Local Abbreviation process := (processSliderData NormalizeScalar SignificantlyDifferent config).

(** Slider data reaches the tracker through framed messages only: the
    branch for bare lines is never taken. *)
Lemma sliders_only_from_framed_lines sio line o :
  handle sio line = LineSliders o ->
  Strings.HasPrefix (Strings.TrimSpace line) "deej:" = true.
Proof.
  unfold handleLine. rewrite expectedLinePattern_never_matches.
  destruct (Strings.HasPrefix (Strings.TrimSpace line) "deej:"); [done|].
  destruct (Strings.HasPrefix _ "status:"); [|done].
  by repeat destruct (String.eqb _ _).
Qed.

(** C1, on the code.  The bare line ["512|1023|0\r\n"] matches the legacy
    pattern of the specification once CR and LF are trimmed, yet
    [handleLine] ignores it, whatever the state: it trims the line before it
    tests a pattern that ends in [\r\n].  The framed message with the same
    readings is forwarded to [processSliderData], and from a tracker that
    knows no sliders it yields the three move events. *)
Theorem legacy_line_is_dropped sio :
  Regexp.MatchString legacyBarePattern
    (Strings.TrimSpace ("512|1023|0" +:+ Strings.CRLF)) = true /\
  handle sio ("512|1023|0" +:+ Strings.CRLF) = LineIgnored /\
  handle sio ("deej:v2.0:sliders:512|1023|0" +:+ Strings.CRLF) =
    LineSliders (process sio "512|1023|0") /\
  exists sio',
    process NewSerialIO "512|1023|0" =
      Returned sio' (allEvents NormalizeScalar config ["512"; "1023"; "0"]).
Proof.
  split; [reflexivity|]. split; [reflexivity|]. split; [reflexivity|].
  eexists. apply process_from_unset; [by vm_compute|]. left. by vm_compute.
Qed.

End DecoderFacts.

(* ===================================================================== *)
(** * The tracker with the helpers of [util] as the specification
      describes them *)
(* ===================================================================== *)

Lemma Qltb_ge (x y : Q) : (y <= x)%Q -> Float32.Qltb x y = false.
Proof. intros H. unfold Float32.Qltb. apply negb_false_iff. by apply Qle_bool_iff. Qed.

Lemma NormalizeScalar_cases eps v :
  Util.NormalizeScalar eps v = Float32.zero \/
  Util.NormalizeScalar eps v = Float32.one \/
  Util.NormalizeScalar eps v = v.
Proof. unfold Util.NormalizeScalar. repeat destruct (Float32.Qltb _ _); auto. Qed.

(** A value is never significantly different from itself. *)
Lemma SignificantlyDifferent_same threshold v level :
  (0 <= threshold level)%Q ->
  Util.SignificantlyDifferent threshold v v level = false.
Proof.
  intros Hthr. unfold Util.SignificantlyDifferent. apply Qltb_ge.
  apply Qabs_Qle_condition. split; lra.
Qed.

(** The readings of the wire format, [0..1023], divided by 1023 lie in
    [[0, 1]], and so do their complements to one: checked on each of them. *)
Lemma raw_in_unit n :
  0 <= n <= 1023 ->
  let raw := Float32.div (Float32.of_int n) (Float32.of_int 1023) in
  Float32.in_unit raw = true /\ Float32.in_unit (Float32.sub Float32.one raw) = true.
Proof.
  intros Hn raw.
  assert (forallb (fun k =>
            let r := Float32.div (Float32.of_int (Z.of_nat k)) (Float32.of_int 1023) in
            Float32.in_unit r && Float32.in_unit (Float32.sub Float32.one r))
            (seq 0 1024) = true) as Hall by (vm_compute; reflexivity).
  rewrite forallb_forall in Hall.
  specialize (Hall (Z.to_nat n)). rewrite Z2Nat.id in Hall by lia.
  apply andb_true_iff, Hall, in_seq. lia.
Qed.

(** A value of [[0, 1]] is not the unset value [-1.0]. *)
Lemma in_unit_not_unset v :
  Float32.in_unit v = true -> Float32.eqb v Float32.minus_one = false.
Proof.
  unfold Float32.in_unit. intros H.
  apply andb_true_iff in H as [H _]. apply andb_true_iff in H as [Hfin Hpos].
  destruct v as [s| | |s mant e]; try done.
  destruct s; [|done]. exfalso.
  unfold Qle_bool in Hpos. apply Z.leb_le in Hpos.
  destruct e as [|p|p]; simpl in Hpos; lia.
Qed.

Section SpecifiedHelpers.
Import Float32 Serial Tracker.

Variable epsilon : Q.
Variable threshold : string -> Q.
Variable config : CanonicalConfig.

Local Abbreviation norm := (normalized (Util.NormalizeScalar epsilon) config).

(** The normalized value of a reading of the wire format lies in [[0, 1]]. *)
Lemma normalized_in_unit stringValue :
  inRange stringValue -> in_unit (norm stringValue) = true.
Proof.
  intros Hrange. unfold normalized.
  destruct (raw_in_unit _ Hrange) as [Hraw Hcompl].
  destruct (NormalizeScalar_cases epsilon
              (div (of_int (reading stringValue)) (of_int 1023)))
    as [-> | [-> | ->]]; destruct (InvertSliders config); done.
Qed.

End SpecifiedHelpers.

Section SpecifiedTracker.
Import Float32 Serial Tracker.

Variable epsilon : Q.
Variable threshold : string -> Q.

Local Abbreviation N := (Util.NormalizeScalar epsilon).
Local Abbreviation SD := (Util.SignificantlyDifferent threshold).

Lemma NormalizeScalar_one : (epsilon <= 1 # 10)%Q -> N one = one.
Proof.
  intros Heps. unfold Util.NormalizeScalar.
  rewrite (Qltb_ge (Qabs (toQ one))) by (vm_compute (Qabs _); lra).
  by destruct (Qltb _ _).
Qed.

Lemma NormalizeScalar_zero : (epsilon <= 1 # 10)%Q -> N zero = zero.
Proof.
  intros Heps. unfold Util.NormalizeScalar.
  rewrite (Qltb_ge (Qabs (toQ zero - 1))) by (vm_compute (Qabs _); lra).
  by destruct (Qltb _ _).
Qed.

Lemma NormalizeScalar_half :
  (epsilon <= 1 # 10)%Q ->
  N (div (of_int 512) (of_int 1023)) = S754_finite false 8396808 (-24).
Proof.
  intros Heps. unfold Util.NormalizeScalar.
  rewrite !Qltb_ge; [reflexivity| |]; vm_compute (Qabs _); lra.
Qed.

Lemma allEvents_three NormalizeScalar config a b c :
  allEvents NormalizeScalar config [a; b; c] =
  [eventAt NormalizeScalar config 0 a; eventAt NormalizeScalar config 1 b;
   eventAt NormalizeScalar config 2 c].
Proof. reflexivity. Qed.

(** C4. With an epsilon of at most 0.1, the payload ["512|1023|0"] met with
    slots that are all unset yields three move events: about 0.50, exactly
    1.0 and exactly 0.0 for the indices 0, 1 and 2 when the sliders are not
    inverted, and about 0.50, exactly 0.0 and exactly 1.0 when they are. *)
Theorem first_frame_scenario mapping level sio :
  (epsilon <= 1 # 10)%Q ->
  lastKnownNumSliders sio <> 3 \/
    currentSliderPercentValues sio = replicate 3 minus_one ->
  let config invert :=
    {| SliderMapping := mapping; InvertSliders := invert;
       NoiseReductionLevel := level |} in
  (exists sio' half,
     processSliderData N SD (config false) sio "512|1023|0" =
       Returned sio'
         [ {| SliderID := 0; PercentValue := half |};
           {| SliderID := 1; PercentValue := one |};
           {| SliderID := 2; PercentValue := zero |} ] /\
     aboutHalf half) /\
  (exists sio' half,
     processSliderData N SD (config true) sio "512|1023|0" =
       Returned sio'
         [ {| SliderID := 0; PercentValue := half |};
           {| SliderID := 1; PercentValue := zero |};
           {| SliderID := 2; PercentValue := one |} ] /\
     aboutHalf half).
Proof.
  intros Heps Hunset config.
  assert (
    Z.of_nat (List.length (fieldsOf "512|1023|0")) <> lastKnownNumSliders sio \/
    currentSliderPercentValues sio =
      replicate (List.length (fieldsOf "512|1023|0")) minus_one) as Hunset'.
  { destruct Hunset as [Hne|Hval]; [left|by right].
    change (Z.of_nat _) with 3. congruence. }
  assert (accepted "512|1023|0") as Hacc by (vm_compute; discriminate).
  split.
  - eexists _, _. rewrite (process_from_unset N SD (config false)) by auto.
    change (fieldsOf "512|1023|0") with ["512"; "1023"; "0"].
    rewrite allEvents_three. unfold eventAt, normalized.
    cbn [InvertSliders config].
    change (div (of_int (reading "1023")) (of_int 1023)) with one.
    change (div (of_int (reading "0")) (of_int 1023)) with zero.
    change (reading "512") with 512.
    rewrite NormalizeScalar_one, NormalizeScalar_zero, NormalizeScalar_half by done.
    split; [reflexivity|]. split; [reflexivity|]. vm_compute. discriminate.
  - eexists _, _. rewrite (process_from_unset N SD (config true)) by auto.
    change (fieldsOf "512|1023|0") with ["512"; "1023"; "0"].
    rewrite allEvents_three. unfold eventAt, normalized.
    cbn [InvertSliders config].
    change (div (of_int (reading "1023")) (of_int 1023)) with one.
    change (div (of_int (reading "0")) (of_int 1023)) with zero.
    change (reading "512") with 512.
    rewrite NormalizeScalar_one, NormalizeScalar_zero, NormalizeScalar_half by done.
    change (sub one one) with zero. change (sub one zero) with one.
    split; [reflexivity|]. split; [reflexivity|]. vm_compute. discriminate.
Qed.

End SpecifiedTracker.

Lemma first_frame_scenario_witness :
  (Sample.epsilon <= 1 # 10)%Q /\
  Serial.lastKnownNumSliders Sample.fresh <> 3 /\
  exists sio' half,
    Sample.process false Sample.fresh "512|1023|0" =
      Serial.Returned sio'
        [ {| Serial.SliderID := 0; Serial.PercentValue := half |};
          {| Serial.SliderID := 1; Serial.PercentValue := Float32.one |};
          {| Serial.SliderID := 2; Serial.PercentValue := Float32.zero |} ] /\
    Tracker.aboutHalf half.
Proof.
  assert (Sample.epsilon <= 1 # 10)%Q as Heps by (vm_compute; discriminate).
  assert (Serial.lastKnownNumSliders Sample.fresh <> 3) as Hfresh
    by (vm_compute; discriminate).
  split; [exact Heps|]. split; [exact Hfresh|].
  exact (proj1 (first_frame_scenario Sample.epsilon Sample.threshold
                  {[ 0 := ["chrome.exe"] ]} "default" Sample.fresh Heps
                  (or_introl Hfresh))).
Defined.

Section RangeOfEvents.
Import Float32 Serial Tracker.

Variable epsilon : Q.
Variable SignificantlyDifferent : float32 -> float32 -> string -> bool.
Variable config : CanonicalConfig.

Local Abbreviation N := (Util.NormalizeScalar epsilon).

(** C2, as the code has it.  When every field of a payload reads as an
    integer of [0..1023] (a field that is no number reads as 0), every move
    event of the frame has a value in [[0, 1]], and a subscriber's channel
    only grows by such events. *)
Theorem in_range_events_in_unit sio sliderData sio' moveEvents :
  Forall inRange (fieldsOf sliderData) ->
  processSliderData N SignificantlyDifferent config sio sliderData =
    Returned sio' moveEvents ->
  Forall (fun e => in_unit (PercentValue e) = true) moveEvents /\
  forall k consumer consumer',
    sliderMoveConsumers sio !! k = Some consumer ->
    sliderMoveConsumers sio' !! k = Some consumer' ->
    exists sent, consumer' = consumer ++ sent /\
                 Forall (fun e => in_unit (PercentValue e) = true) sent.
Proof.
  intros Hrange Hret.
  apply process_returned in Hret as (_ & Hcons & _ & Hev).
  assert (Forall (fun e => in_unit (PercentValue e) = true) moveEvents) as Hunit.
  { apply Forall_forall. intros e He.
    destruct (Hev e He) as (j & f & Hf & -> & _). simpl.
    apply normalized_in_unit.
    rewrite Forall_forall in Hrange. apply Hrange.
    by apply list_elem_of_lookup_2 in Hf. }
  split; [done|]. intros k consumer consumer' Hk Hk'.
  rewrite Hcons in Hk'. unfold deliver in Hk'.
  change (map ?f ?l) with (f <$> l) in Hk'.
  unfold channel in *.
  rewrite list_lookup_fmap, Hk in Hk'. simpl in Hk'. injection Hk' as <-.
  destruct (trySend_fold moveEvents consumer) as (sent & Heq & Hsent).
  exists sent. split; [exact Heq|].
  apply Forall_forall. intros e He. rewrite Forall_forall in Hunit.
  apply Hunit. auto.
Qed.

End RangeOfEvents.

Lemma in_range_events_in_unit_witness :
  Forall Tracker.inRange (Tracker.fieldsOf "512|x|1023") /\
  exists sio' moveEvents,
    Sample.process true Sample.fresh "512|x|1023" = Serial.Returned sio' moveEvents /\
    Forall (fun e => Float32.in_unit (Serial.PercentValue e) = true) moveEvents.
Proof.
  assert (Forall Tracker.inRange (Tracker.fieldsOf "512|x|1023")) as Hrange.
  { repeat constructor; vm_compute; discriminate. }
  split; [exact Hrange|].
  destruct (Sample.process true Sample.fresh "512|x|1023") as [|sio' moveEvents] eqn:Hret;
    [by vm_compute in Hret|].
  exists sio', moveEvents. split; [reflexivity|].
  exact (proj1 (in_range_events_in_unit Sample.epsilon Sample.SignificantlyDifferent
                  (Sample.config true) Sample.fresh "512|x|1023" sio' moveEvents
                  Hrange Hret)).
Defined.

(** C2, as stated, fails.  The framed line ["deej:v2.0:sliders:0|9999"] is
    accepted, its first field being 0; the second field is not checked, and
    the event for index 1 carries 9999/1023, about 9.77, to the subscriber. *)
Lemma out_of_range_field_leaves_unit_interval :
  let escaped := {| Serial.SliderID := 1;
                    Serial.PercentValue := S754_finite false 10248985 (-20) |} in
  let first := {| Serial.SliderID := 0; Serial.PercentValue := Float32.zero |} in
  Serial.handleLine Sample.NormalizeScalar Sample.SignificantlyDifferent
    (Sample.config false) Sample.fresh
    ("deej:v2.0:sliders:0|9999" +:+ Strings.CRLF) =
  Serial.LineSliders
    (Serial.Returned
       {| Serial.lastKnownNumSliders := 2;
          Serial.currentSliderPercentValues :=
            [Float32.zero; S754_finite false 10248985 (-20)];
          Serial.sliderMoveConsumers := [[first; escaped]] |}
       [first; escaped]) /\
  Float32.in_unit (Serial.PercentValue escaped) = false /\
  (9 < Float32.toQ (Serial.PercentValue escaped))%Q.
Proof. split; [by vm_compute|]. split; by vm_compute. Qed.

Section Idempotence.
Import Float32 Serial Tracker.

Variable epsilon : Q.
Variable threshold : string -> Q.
Variable config : CanonicalConfig.

Local Abbreviation N := (Util.NormalizeScalar epsilon).
Local Abbreviation SD := (Util.SignificantlyDifferent threshold).
Local Abbreviation norm := (normalized N config).

Local Abbreviation calm := (Tracker.calm N SD config).

(** A reading of the wire format is never normalized to the unset value. *)
Lemma in_range_is_not_unset f :
  inRange f -> eqb (norm f) minus_one = false.
Proof. intros Hrange. by apply in_unit_not_unset, normalized_in_unit. Qed.

Lemma calm_frames_are_quiet n i f later : forall sio,
  (0 <= threshold (NoiseReductionLevel config))%Q ->
  eqb (norm f) minus_one = false ->
  lastKnownNumSliders sio = Z.of_nat n ->
  (n <= List.length (currentSliderPercentValues sio))%nat ->
  currentSliderPercentValues sio !! i = Some (norm f) ->
  Forall (calm n i f) later ->
  exists sio' events,
    processFrames N SD config sio later = Some (sio', events) /\
    Forall (fun moveEvents => ~ emitsFor i moveEvents) events /\
    currentSliderPercentValues sio' !! i = Some (norm f).
Proof.
  induction later as [|d later IH]; intros sio Hthr Hset Hcount Hlen Hval Hcalm.
  - exists sio, []. by repeat split.
  - apply Forall_cons in Hcalm as [(Hn & g & Hg & Hsame) Hcalm]. subst n.
    assert (moves N SD config (norm f) g = false) as Hquiet.
    { unfold moves. apply orb_false_iff. split; [done|].
      destruct Hsame as [->|Hnear]; [|done].
      by apply SignificantlyDifferent_same. }
    destruct (process_quiet N SD config sio d i g (norm f) Hcount Hlen Hg Hval Hquiet)
      as (sio1 & evs & Hret & Hcount1 & Hlen1 & Hval1 & Hno).
    destruct (IH sio1) as (sio2 & events & Hrest & Hall & Hval2); try done;
      [congruence|lia|].
    exists sio2, (evs :: events). simpl. rewrite Hret, Hrest.
    split; [done|]. split; [by constructor|done].
Qed.

(** C9, as the code has it.  Once a frame has yielded a move event for an
    index, with a normalized value other than [-1.0], the slot holds that
    value; and as long as the frames that follow have the same number of
    readings and repeat the field of that index (or bring one within the
    threshold), none of them yields an event for that index.  The threshold
    of the configured level is taken non-negative. *)
Theorem redelivery_is_quiet sio sliderData sio1 moveEvents i f :
  (0 <= threshold (NoiseReductionLevel config))%Q ->
  processSliderData N SD config sio sliderData = Returned sio1 moveEvents ->
  fieldsOf sliderData !! i = Some f ->
  eqb (norm f) minus_one = false ->
  emitsFor i moveEvents ->
  currentSliderPercentValues sio1 !! i = Some (norm f) /\
  forall later,
    Forall (calm (List.length (fieldsOf sliderData)) i f) later ->
    exists sio2 events,
      processFrames N SD config sio1 later = Some (sio2, events) /\
      Forall (fun moveEvents => ~ emitsFor i moveEvents) events /\
      currentSliderPercentValues sio2 !! i = Some (norm f).
Proof.
  intros Hthr Hret Hf Hset (e & He & Hid).
  apply process_returned in Hret as (Hcount & _ & Hlen & Hev).
  destruct (Hev e He) as (j & g & Hg & -> & Hval). simpl in Hid.
  apply Nat2Z.inj in Hid as ->.
  assert (g = f) as -> by congruence.
  split; [done|]. intros later Hcalm.
  apply (calm_frames_are_quiet (List.length (fieldsOf sliderData)) i f later sio1);
    try done.
  apply Hlen. intros ->. by apply elem_of_nil in He.
Qed.

End Idempotence.

Lemma redelivery_is_quiet_witness :
  let first :=
    [ {| Serial.SliderID := 0;
         Serial.PercentValue := S754_finite false 8396808 (-24) |};
      {| Serial.SliderID := 1; Serial.PercentValue := Float32.one |} ] in
  let sio1 :=
    {| Serial.lastKnownNumSliders := 2;
       Serial.currentSliderPercentValues :=
         [S754_finite false 8396808 (-24); Float32.one];
       Serial.sliderMoveConsumers := [first] |} in
  Sample.process false Sample.fresh "512|1023" = Serial.Returned sio1 first /\
  exists sio2 events,
    Tracker.processFrames Sample.NormalizeScalar Sample.SignificantlyDifferent
      (Sample.config false) sio1 ["512|1023"; "700|1023"] = Some (sio2, events) /\
    Forall (fun moveEvents => ~ Tracker.emitsFor 1 moveEvents) events.
Proof.
  intros first sio1.
  assert (0 <= Sample.threshold (NoiseReductionLevel (Sample.config false)))%Q
    as Hthr by (vm_compute; discriminate).
  assert (Sample.process false Sample.fresh "512|1023" = Serial.Returned sio1 first)
    as Hret by (vm_compute; reflexivity).
  assert (Tracker.fieldsOf "512|1023" !! 1%nat = Some "1023") as Hf by reflexivity.
  assert (Float32.eqb
            (Tracker.normalized Sample.NormalizeScalar (Sample.config false) "1023")
            Float32.minus_one = false) as Hrange by (vm_compute; reflexivity).
  assert (Tracker.emitsFor 1 first) as Hemit.
  { eexists. split; [apply list_elem_of_further, list_elem_of_here|reflexivity]. }
  destruct (redelivery_is_quiet Sample.epsilon Sample.threshold (Sample.config false)
              Sample.fresh "512|1023" sio1 first 1%nat "1023"
              Hthr Hret Hf Hrange Hemit) as [_ Hlater].
  destruct (Hlater ["512|1023"; "700|1023"]) as (sio2 & events & Hrun & Hquiet & _).
  { assert (forall d, Tracker.fieldsOf d !! 1%nat = Some "1023" ->
              List.length (Tracker.fieldsOf d) = 2%nat ->
              Tracker.calm Sample.NormalizeScalar Sample.SignificantlyDifferent
                (Sample.config false) 2 1 "1023" d) as Hcalm.
    { intros d Hd Hn. split; [exact Hn|]. exists "1023". split; [exact Hd|by left]. }
    apply List.Forall_cons; [by apply Hcalm|].
    apply List.Forall_cons; [by apply Hcalm|]. apply List.Forall_nil. }
  split; [exact Hret|]. exists sio2, events. split; [exact Hrun|exact Hquiet].
Defined.

(** C9, as stated, fails.  The field ["-1023"] is normalized to [-1.0], the
    very value that marks a slot as unset: the framed line
    ["deej:v2.0:sliders:512|-1023"] yields an event for index 1, and so does
    the same line delivered again, on a state it left unchanged, while
    index 0 stays quiet. *)
Lemma redelivered_reading_emits_again :
  let handle := Serial.handleLine Sample.NormalizeScalar
                  Sample.SignificantlyDifferent (Sample.config false) in
  let line := "deej:v2.0:sliders:512|-1023" +:+ Strings.CRLF in
  let unset := {| Serial.SliderID := 1; Serial.PercentValue := Float32.minus_one |} in
  let half := {| Serial.SliderID := 0;
                 Serial.PercentValue := S754_finite false 8396808 (-24) |} in
  let sio1 :=
    {| Serial.lastKnownNumSliders := 2;
       Serial.currentSliderPercentValues :=
         [S754_finite false 8396808 (-24); Float32.minus_one];
       Serial.sliderMoveConsumers := [[half; unset]] |} in
  let sio2 :=
    {| Serial.lastKnownNumSliders := 2;
       Serial.currentSliderPercentValues :=
         [S754_finite false 8396808 (-24); Float32.minus_one];
       Serial.sliderMoveConsumers := [[half; unset; unset]] |} in
  handle Sample.fresh line = Serial.LineSliders (Serial.Returned sio1 [half; unset]) /\
  handle sio1 line = Serial.LineSliders (Serial.Returned sio2 [unset]) /\
  Tracker.emitsFor 1 [unset].
Proof.
  split; [by vm_compute|]. split; [by vm_compute|].
  eexists. split; [apply list_elem_of_here|reflexivity].
Qed.

(* ===================================================================== *)
(** * The session map *)
(* ===================================================================== *)

Section SessionMapFacts.
Import SessionMap Resolver.

Variable config : CanonicalConfig.

(** Adding sessions leaves the time of the last refresh alone. *)
Lemma addSessions_lastSessionRefresh window sessions : forall sm sm',
  addSessions config window sm sessions = Some sm' ->
  lastSessionRefresh sm' = lastSessionRefresh sm.
Proof.
  induction sessions as [|s rest IH]; intros sm sm'; simpl.
  - by intros [= <-].
  - destruct (sessionMapped _ _ _ _) as [[|]|]; [| |done];
      intros Hadd; by apply IH in Hadd.
Qed.

(** C6. A call of [refreshSessions(false)] made less than five seconds
    after the last refresh returns at once: no session is released, the
    backend is not asked for its sessions, and the map, the snapshot of the
    unmapped sessions and the time of the last refresh stay as they were. *)
Theorem refresh_is_rate_limited window now now' finder (w : world) :
  now - lastSessionRefresh (fst w) < 5 * Second ->
  refreshSessions config window false now now' finder w = Some w /\
  forall w', refreshSessions config window false now now' finder w = Some w' ->
    m (fst w') = m (fst w) /\
    unmappedSessions (fst w') = unmappedSessions (fst w) /\
    lastSessionRefresh (fst w') = lastSessionRefresh (fst w) /\
    snd w' = snd w.
Proof.
  intros Hrecent.
  assert (refreshSessions config window false now now' finder w = Some w) as Hret.
  { unfold refreshSessions, minTimeBetweenSessionRefreshes. simpl.
    replace (now <? lastSessionRefresh w.1 + Second * 5) with true; [done|].
    symmetry. apply Z.ltb_lt. lia. }
  split; [done|]. intros w' Hw'. rewrite Hret in Hw'. by injection Hw' as <-.
Qed.

(** Past the five seconds, or when forced, the sessions held are released
    and the backend is asked again. *)
Lemma refresh_enumerates window force now now' finder (w : world) w' :
  force = true \/ 5 * Second <= now - lastSessionRefresh (fst w) ->
  refreshSessions config window force now now' finder w = Some w' ->
  lastSessionRefresh (fst w') = now' /\
  snd w' = snd w
             ++ map CallRelease (concat (map snd (map_to_list (m (fst w)))))
             ++ [CallGetAllSessions].
Proof.
  intros Hdue. unfold refreshSessions, minTimeBetweenSessionRefreshes.
  replace (negb force && (now <? lastSessionRefresh w.1 + Second * 5)) with false;
    last first.
  { symmetry. destruct Hdue as [->|Hlate]; [done|].
    apply andb_false_iff. right. apply Z.ltb_ge. lia. }
  destruct w as [sm calls]. unfold getAndAddSessions, clear. simpl.
  destruct finder as [sessions|].
  - destruct (addSessions _ _ _ _) as [sm'|] eqn:Hadd; [|done].
    intros [= <-]. simpl. split; [|by rewrite <- app_assoc].
    by apply addSessions_lastSessionRefresh in Hadd.
  - intros [= <-]. simpl. split; [done|by rewrite <- app_assoc].
Qed.

End SessionMapFacts.

Lemma refresh_is_rate_limited_witness :
  4 * SessionMap.Second - SessionMap.lastSessionRefresh Sample.refreshed
    < 5 * SessionMap.Second /\
  SessionMap.refreshSessions (Sample.config false) None false
    (4 * SessionMap.Second) (4 * SessionMap.Second)
    (Some [Sample.spotify]) (Sample.refreshed, []) = Some (Sample.refreshed, []).
Proof.
  assert (4 * SessionMap.Second
            - SessionMap.lastSessionRefresh (fst (Sample.refreshed, @nil SessionMap.call))
            < 5 * SessionMap.Second) as Hrecent by reflexivity.
  split; [exact Hrecent|].
  exact (proj1 (refresh_is_rate_limited (Sample.config false) None
                  (4 * SessionMap.Second) (4 * SessionMap.Second)
                  (Some [Sample.spotify]) (Sample.refreshed, []) Hrecent)).
Defined.

Section ResolverFacts.
Import SessionMap Resolver.

Variable config : CanonicalConfig.

(** how one configured target bears on a key *)
Local Abbreviation hits key := (fun target =>
  negb (targetHasSpecialTransform target)
  && String.eqb (Strings.ToLower target) key).









End ResolverFacts.

Section UnmappedTarget.
Import SessionMap Resolver.



End UnmappedTarget.



(* ===================================================================== *)
(** * The goroutines of a slider move *)
(* ===================================================================== *)

Section GoroutineFacts.
Import SessionMap Resolver.

Variable config : CanonicalConfig.

Lemma countCalls_app p calls calls' :
  countCalls p (calls ++ calls') = (countCalls p calls + countCalls p calls')%nat.
Proof. unfold countCalls. by rewrite List.filter_app, length_app. Qed.

Lemma pendingRefreshes_app p p' :
  pendingRefreshes (p ++ p') = (pendingRefreshes p + pendingRefreshes p')%nat.
Proof. unfold pendingRefreshes. by rewrite List.filter_app, length_app. Qed.

Lemma setVolumeCalls_app calls calls' :
  setVolumeCalls (calls ++ calls') = setVolumeCalls calls ++ setVolumeCalls calls'.
Proof. apply omap_app. Qed.

Lemma pendingSetVolume_app p p' :
  pendingSetVolume (p ++ p') = pendingSetVolume p ++ pendingSetVolume p'.
Proof. apply omap_app. Qed.

(** Releasing sessions makes no [SetVolume] call, no pause and no
    enumeration. *)
Lemma releases_are_neutral sessions :
  setVolumeCalls (map CallRelease sessions) = [] /\
  countCalls isFailure (map CallRelease sessions) = 0%nat /\
  countCalls isSleep (map CallRelease sessions) = 0%nat /\
  countCalls isEnumeration (map CallRelease sessions) = 0%nat.
Proof. induction sessions as [|s rest (H1 & H2 & H3 & H4)]; by repeat split. Qed.

(** [handleSliderMoveEvent] starts [SetVolume] goroutines only. *)
Lemma handleSliderMoveEvent_no_refresh window sm event :
  pendingRefreshes (handleSliderMoveEvent config window sm event) = 0%nat.
Proof.
  unfold handleSliderMoveEvent. destruct (_ !! _) as [targets|]; [|done].
  induction targets as [|target targets IH]; [done|].
  simpl. rewrite pendingRefreshes_app, IH, Nat.add_0_r.
  induction (resolveTarget window sm target) as [|key keys IHk]; [done|].
  simpl. rewrite pendingRefreshes_app, IHk, Nat.add_0_r.
  destruct (get sm key) as [sessions|]; [|done].
  by induction sessions.
Qed.

Lemma elem_of_concat {A} (x : A) (ls : list (list A)) :
  x ∈ concat ls <-> exists l, x ∈ l /\ l ∈ ls.
Proof.
  rewrite list_elem_of_In, in_concat. split.
  - intros (l & Hl & Hx). exists l. by rewrite !list_elem_of_In.
  - intros (l & Hx & Hl). exists l. by rewrite <- !list_elem_of_In.
Qed.

Lemma elem_of_map {A B} (f : A -> B) (l : list A) (y : B) :
  y ∈ map f l <-> exists x, y = f x /\ x ∈ l.
Proof. apply list_elem_of_fmap. Qed.

(** The sessions [handleSliderMoveEvent] starts a goroutine for: those held
    under a key that a target of the slider resolves to. *)
Lemma handleSliderMoveEvent_matches window sm event s v :
  (s, v) ∈ pendingSetVolume (handleSliderMoveEvent config window sm event) <->
  v = Serial.PercentValue event /\
  exists targets target key sessions,
    SliderMapping config !! Serial.SliderID event = Some targets /\
    target ∈ targets /\ key ∈ resolveTarget window sm target /\
    get sm key = Some sessions /\ s ∈ sessions.
Proof.
  unfold handleSliderMoveEvent, pendingSetVolume.
  destruct (SliderMapping config !! Serial.SliderID event) as [targets|]; last first.
  { split; [by intros H%elem_of_nil|]. by intros (_ & ? & ? & ? & ? & ? & _). }
  rewrite list_elem_of_omap. split.
  - intros (g & Hg & Hsv).
    apply elem_of_concat in Hg as (gs & Hg & Hgs).
    apply elem_of_map in Hgs as (target & -> & Htarget).
    apply elem_of_concat in Hg as (gs & Hg & Hgs).
    apply elem_of_map in Hgs as (key & -> & Hkey).
    destruct (get sm key) as [sessions|] eqn:Hget; [|by apply elem_of_nil in Hg].
    apply elem_of_map in Hg as (s' & -> & Hs'). injection Hsv as <- <-.
    split; [done|]. by exists targets, target, key, sessions.
  - intros (-> & targets' & target & key & sessions & [= <-] & Htarget & Hkey & Hget & Hs).
    exists (GoSetVolume s (Serial.PercentValue event) key). split; [|done].
    apply elem_of_concat. eexists. split; last first.
    { apply elem_of_map. by exists target. }
    apply elem_of_concat. eexists. split; last first.
    { apply elem_of_map. by exists key. }
    simpl. rewrite Hget. apply elem_of_map. by exists s.
Qed.

Local Ltac tally := unfold countCalls, pendingRefreshes; simpl; lia.

(** One scheduling decision keeps the books: the [SetVolume] calls made
    and pending are the same as before, up to their order; a failure adds
    one pending refresh and a refresh that runs removes one, after its
    pause; and a refresh that runs through asks the backend once. *)
Lemma stepWith_accounting mch c :
  let calls := snd (state mch) in
  let calls' := snd (state (stepWith config mch c)) in
  setVolumeCalls calls' ++ pendingSetVolume (pool (stepWith config mch c))
    ≡ₚ setVolumeCalls calls ++ pendingSetVolume (pool mch) /\
  (countCalls isFailure calls' + countCalls isSleep calls + pendingRefreshes (pool mch)
   = countCalls isFailure calls + countCalls isSleep calls'
     + pendingRefreshes (pool (stepWith config mch c)))%nat /\
  (crashed (stepWith config mch c) = false ->
   crashed mch = false /\
   (countCalls isEnumeration calls' + countCalls isSleep calls
    = countCalls isEnumeration calls + countCalls isSleep calls')%nat).
Proof.
  unfold stepWith. destruct mch as [p [sm calls] [|]]; cbn [crashed pool state snd].
  { repeat split; try done; intros; congruence. }
  destruct (p !! pick c) as [g|] eqn:Hpick; cbn [crashed pool state snd]; [|done].
  rewrite delete_take_drop.
  pose proof (take_drop_middle p (pick c) g Hpick) as Hsplit.
  set (before := take (pick c) p) in *. set (after := drop (S (pick c)) p) in *.
  clearbody before after. subst p. clear Hpick.
  destruct g as [s v target|]; cbn [runGoroutine fst snd].
  - destruct (setVolumeOk c); cbn [pool state snd crashed];
      rewrite !setVolumeCalls_app, !countCalls_app,
        !pendingSetVolume_app, !pendingRefreshes_app.
    + split; [|split; [tally|intros _; split; [done|tally]]].
      simpl. rewrite <- !app_assoc. simpl. f_equiv. by rewrite Permutation_middle.
    + split; [|split; [tally|intros _; split; [done|tally]]].
      simpl. rewrite <- !app_assoc, app_nil_r. simpl. f_equiv.
      by rewrite Permutation_middle.
  - destruct (refreshSessions config (window c) true (clock c) (clock c) (finder c)
                (sm, calls ++ [CallSleep (100 * Millisecond)]))
      as [[sm' calls']|] eqn:Hrefresh; cbn [pool state snd crashed].
    + apply refresh_enumerates in Hrefresh as [_ Hcalls]; [|by left].
      simpl in Hcalls. subst calls'.
      destruct (releases_are_neutral (concat (map snd (map_to_list (m sm)))))
        as (Hsv & Hfail & Hsleep & Henum).
      rewrite !setVolumeCalls_app, !countCalls_app, Hsv, Hfail, Hsleep, Henum,
        !pendingSetVolume_app, !pendingRefreshes_app.
      split; [by rewrite !app_nil_r|]. split; [tally|].
      intros _. split; [done|tally].
    + rewrite !setVolumeCalls_app, !countCalls_app,
        !pendingSetVolume_app, !pendingRefreshes_app.
      split; [by rewrite !app_nil_r|]. split; [tally|done].
Qed.

Lemma run_accounting schedule : forall mch,
  let calls := snd (state mch) in
  let calls' := snd (state (run config schedule mch)) in
  setVolumeCalls calls' ++ pendingSetVolume (pool (run config schedule mch))
    ≡ₚ setVolumeCalls calls ++ pendingSetVolume (pool mch) /\
  (countCalls isFailure calls' + countCalls isSleep calls + pendingRefreshes (pool mch)
   = countCalls isFailure calls + countCalls isSleep calls'
     + pendingRefreshes (pool (run config schedule mch)))%nat /\
  (crashed (run config schedule mch) = false ->
   crashed mch = false /\
   (countCalls isEnumeration calls' + countCalls isSleep calls
    = countCalls isEnumeration calls + countCalls isSleep calls')%nat).
Proof.
  induction schedule as [|c rest IH]; intros mch; simpl; [by repeat split|].
  destruct (IH (stepWith config mch c)) as (Hsv & Hfail & Henum).
  destruct (stepWith_accounting mch c) as (Hsv1 & Hfail1 & Henum1).
  fold (run config rest (stepWith config mch c)).
  split; [by rewrite Hsv|]. split; [lia|].
  intros Halive. destruct (Henum Halive) as [Halive1 Hcount].
  destruct (Henum1 Halive1) as [Halive0 Hcount1]. split; [done|lia].
Qed.

Lemma run_cons c schedule mch :
  run config (c :: schedule) mch = run config schedule (stepWith config mch c).
Proof. reflexivity. Qed.

(** Run oldest first, the [SetVolume] goroutines of a pool all make their
    call, whatever the outcomes; each failure leaves one refresh pending. *)
Lemma run_oldestFirst sm p : forall outcomes refreshes calls,
  pendingRefreshes p = 0%nat ->
  List.length outcomes = List.length p ->
  run config (map oldestFirst outcomes)
    {| pool := p ++ refreshes; state := (sm, calls); crashed := false |} =
  {| pool := refreshes
             ++ replicate (List.length (List.filter negb outcomes)) GoDelayedRefresh;
     state := (sm, calls ++ callsInOrder p outcomes);
     crashed := false |}.
Proof.
  induction p as [|g p IH]; intros outcomes refreshes calls Hsv Hlen.
  - destruct outcomes; [|done]. simpl. by rewrite !app_nil_r.
  - destruct outcomes as [|ok outcomes]; [done|].
    destruct g as [s v target|]; [|done].
    simpl in Hlen. injection Hlen as Hlen.
    change (pendingRefreshes (GoSetVolume s v target :: p))
      with (pendingRefreshes p) in Hsv.
    change (map oldestFirst (ok :: outcomes))
      with (oldestFirst ok :: map oldestFirst outcomes).
    rewrite run_cons. unfold stepWith.
    cbn [crashed pool state pick oldestFirst lookup list_lookup app delete
         list_delete runGoroutine setVolumeOk fst snd].
    destruct ok; cbn [callsInOrder List.filter negb].
    + rewrite IH by done. by rewrite <- app_assoc.
    + rewrite <- app_assoc, IH by done.
      rewrite <- !app_assoc. cbn [List.length app]. done.
Qed.

End GoroutineFacts.

(** C8.  [handleSliderMoveEvent] has no result: all it does is start one
    goroutine per session held under a key its targets resolve to.  In
    every run of these goroutines, in any order and with any outcome of
    each [SetVolume]: the calls made and those still pending are the calls
    started, each once (none is dropped, none is made twice); the failures
    are as many as the forced refreshes begun, each after its pause, plus
    those still pending; a refresh that runs through asks the backend
    whatever the time of the last refresh.  And whatever the outcomes, the
    run that takes the goroutines oldest first makes every call. *)
Theorem setvolume_failure_is_isolated config window sm event schedule :
  let started := SessionMap.handleSliderMoveEvent config window sm event in
  let final := SessionMap.run config schedule (SessionMap.spawn config window sm event) in
  let calls := snd (SessionMap.state final) in
  SessionMap.pendingRefreshes started = 0%nat /\
  (forall s v,
     (s, v) ∈ SessionMap.pendingSetVolume started <->
     v = Serial.PercentValue event /\
     exists targets target key sessions,
       SliderMapping config !! Serial.SliderID event = Some targets /\
       target ∈ targets /\ key ∈ SessionMap.resolveTarget window sm target /\
       SessionMap.get sm key = Some sessions /\ s ∈ sessions) /\
  SessionMap.setVolumeCalls calls ++ SessionMap.pendingSetVolume (SessionMap.pool final)
    ≡ₚ SessionMap.pendingSetVolume started /\
  SessionMap.countCalls SessionMap.isFailure calls =
    (SessionMap.countCalls SessionMap.isSleep calls
     + SessionMap.pendingRefreshes (SessionMap.pool final))%nat /\
  (SessionMap.crashed final = false ->
   SessionMap.countCalls SessionMap.isEnumeration calls =
     SessionMap.countCalls SessionMap.isSleep calls) /\
  forall outcomes,
    List.length outcomes = List.length started ->
    SessionMap.run config (map Resolver.oldestFirst outcomes)
      (SessionMap.spawn config window sm event) =
    {| SessionMap.pool :=
         replicate (List.length (List.filter negb outcomes)) SessionMap.GoDelayedRefresh;
       SessionMap.state := (sm, Resolver.callsInOrder started outcomes);
       SessionMap.crashed := false |}.
Proof.
  intros started final calls.
  pose proof (handleSliderMoveEvent_no_refresh config window sm event) as Hstarted.
  destruct (run_accounting config schedule (SessionMap.spawn config window sm event))
    as (Hsv & Hfail & Henum).
  fold final in Hsv, Hfail, Henum. simpl in Hsv, Hfail, Henum.
  fold started in Hsv, Hfail, Hstarted. fold calls in Hsv, Hfail, Henum.
  split; [done|]. split; [apply handleSliderMoveEvent_matches|].
  split; [done|]. split; [unfold SessionMap.countCalls in *; simpl in *; lia|].
  split.
  - intros Halive. destruct (Henum Halive) as [_ Hcount].
    unfold SessionMap.countCalls in *. simpl in *. lia.
  - intros outcomes Hlen.
    pose proof (run_oldestFirst config sm started outcomes [] [] Hstarted Hlen) as Hrun.
    rewrite app_nil_r in Hrun. exact Hrun.
Qed.

(* ===================================================================== *)
(** * More on the slider state tracker *)
(* ===================================================================== *)

Section TrackerCoverage.
Import Float32 Serial Tracker Connection.

Variable NormalizeScalar : float32 -> float32.
Variable SignificantlyDifferent : float32 -> float32 -> string -> bool.
Variable config : CanonicalConfig.

Local Abbreviation loop := (sliderLoop NormalizeScalar SignificantlyDifferent config).
Local Abbreviation process := (processSliderData NormalizeScalar SignificantlyDifferent config).
Local Abbreviation handle := (handleLine NormalizeScalar SignificantlyDifferent config).
Local Abbreviation norm := (normalized NormalizeScalar config).
Local Abbreviation moving := (moves NormalizeScalar SignificantlyDifferent config).
Local Abbreviation event := (eventAt NormalizeScalar config).

Lemma fieldsOf_length_pos sliderData : (0 < List.length (fieldsOf sliderData))%nat.
Proof.
  unfold fieldsOf. destruct (Split_cons sliderData "|") as (f & fs & ->). simpl. lia.
Qed.

(** A call on slots that are in step with the count returns, and leaves as
    many slots as the frame has fields. *)
Lemma process_in_step sio sliderData :
  inStep sio ->
  exists sio' moveEvents,
    process sio sliderData = Returned sio' moveEvents /\
    lastKnownNumSliders sio' = Z.of_nat (List.length (fieldsOf sliderData)) /\
    List.length (currentSliderPercentValues sio') = List.length (fieldsOf sliderData).
Proof.
  intros Hstep. unfold processSliderData. fold (fieldsOf sliderData).
  pose proof (fieldsOf_length_pos sliderData) as Hpos.
  set (splitLine := fieldsOf sliderData) in *.
  destruct (Z.eqb_spec (Z.of_nat (List.length splitLine)) (lastKnownNumSliders sio))
    as [Heq|Hne]; simpl.
  - assert (List.length (currentSliderPercentValues sio) = List.length splitLine) as Hlen.
    { destruct Hstep as [H0|Hlen]; lia. }
    destruct (loop splitLine 0 (currentSliderPercentValues sio) [])
      as [| |values' evs] eqn:Hloop.
    + apply sliderLoop_no_panic in Hloop; [done|simpl; lia].
    + eexists _, _. by repeat split.
    + apply sliderLoop_frame in Hloop as (Hlen' & _). eexists _, _.
      repeat split; simpl; [done|lia].
  - destruct (loop splitLine 0 (replicate (List.length splitLine) minus_one) [])
      as [| |values' evs] eqn:Hloop.
    + apply sliderLoop_no_panic in Hloop; [done|]. rewrite length_replicate. simpl. lia.
    + eexists _, _. repeat split. simpl. by rewrite length_replicate.
    + apply sliderLoop_frame in Hloop as (Hlen' & _). eexists _, _.
      repeat split; simpl. by rewrite Hlen', length_replicate.
Qed.

(** Whatever the line, [handleLine] reaches the tracker through
    [processSliderData] only. *)
Lemma handleLine_sliders sio line o :
  handle sio line = LineSliders o ->
  exists sliderData, o = process sio sliderData.
Proof.
  unfold handleLine. rewrite expectedLinePattern_never_matches.
  destruct (Strings.HasPrefix _ "deej:").
  - destruct (Strings.Split _ ":") as [|p0 [|p1 [|messageType payload]]]; try done.
    destruct (String.eqb messageType "startup"); [done|].
    destruct (String.eqb messageType "sliders").
    + destruct payload as [|sliderData rest]; [done|]. intros [= H]. by exists sliderData.
    + destruct (String.eqb messageType "response").
      * by destruct payload.
      * destruct (Strings.HasPrefix _ "status:"); [|done].
        by repeat destruct (String.eqb _ _).
  - destruct (Strings.HasPrefix _ "status:"); [|done].
    by repeat destruct (String.eqb _ _).
Qed.

(** X1. Once the slots are in step with the slider count (as in the state
    [NewSerialIO] sets up), they stay so whatever is read, however often
    the configuration is reloaded or a consumer subscribes: no line makes
    [processSliderData] index the slots out of range. *)
Theorem slots_stay_in_step run : forall sio,
  inStep sio ->
  exists sio', feed NormalizeScalar SignificantlyDifferent config sio run = Some sio' /\
               inStep sio'.
Proof.
  induction run as [|[line| |] rest IH]; intros sio Hstep; simpl.
  - by exists sio.
  - destruct (handle sio line) as [| | |o] eqn:Hline; try by apply IH.
    apply handleLine_sliders in Hline as (d & ->).
    destruct (process_in_step sio d Hstep) as (sio1 & evs1 & -> & Hcount & Hlen).
    apply IH. right. lia.
  - apply IH. by left.
  - apply IH. exact Hstep.
Qed.

(** The events the loop adds come after those it was given, and are picked
    in order from the events of its fields. *)
Lemma sliderLoop_sublist rest : forall sliderIdx values moveEvents values' moveEvents',
  loop rest sliderIdx values moveEvents = LoopDone values' moveEvents' ->
  exists added, moveEvents' = moveEvents ++ added /\
                added `sublist_of` imap (fun j => event (sliderIdx + j)) rest.
Proof.
  induction rest as [|f rest IH]; intros idx values evs values' evs' H.
  - simpl in H. injection H as <- <-. exists []. by rewrite app_nil_r.
  - rewrite sliderLoop_step in H.
    destruct ((idx =? 0)%nat && (1023 <? reading f)); [done|].
    destruct (values !! idx) as [current|] eqn:Hcur; [|done].
    assert (imap (fun j => event (idx + j)) (f :: rest) =
            event idx f :: imap (fun j => event (S idx + j)) rest) as ->.
    { simpl. rewrite Nat.add_0_r. f_equal. apply imap_ext. intros j x _.
      simpl. f_equal. lia. }
    destruct (moving current f); apply IH in H as (added & -> & Hsub).
    + exists (event idx f :: added). rewrite <- app_assoc. split; [done|].
      by apply sublist_skip.
    + exists added. split; [done|]. by apply sublist_cons.
Qed.

Lemma sublist_events_sorted rest : forall start l,
  l `sublist_of` imap (fun j => event (start + j)) rest ->
  StronglySorted Z.lt (map SliderID l) /\
  Forall (fun e => Z.of_nat start <= SliderID e) l.
Proof.
  induction rest as [|f rest IH]; intros start l Hsub.
  - apply sublist_nil_r in Hsub as ->. split; constructor.
  - assert (imap (fun j => event (start + j)) (f :: rest) =
            event start f :: imap (fun j => event (S start + j)) rest) as Heq.
    { simpl. rewrite Nat.add_0_r. f_equal. apply imap_ext. intros j x _.
      simpl. f_equal. lia. }
    rewrite Heq in Hsub. apply sublist_cons_r in Hsub as [Hsub|(l' & -> & Hsub)].
    + apply IH in Hsub as [Hs Hge]. split; [done|].
      eapply List.Forall_impl; [|exact Hge]. simpl. intros. lia.
    + apply IH in Hsub as [Hs Hge]. split.
      * simpl. constructor; [done|]. apply List.Forall_map.
        eapply List.Forall_impl; [|exact Hge]. simpl. intros. lia.
      * constructor; [simpl; lia|].
        eapply List.Forall_impl; [|exact Hge]. simpl. intros. lia.
Qed.

(** X2. The move events of a call are picked, in order, from the events
    [allEvents] lists for the fields of the frame: at most one event per
    field, each with the index of its field and the normalized value of
    that field, in strictly ascending order of [SliderID]. *)
Theorem events_follow_the_fields sio sliderData sio' moveEvents :
  process sio sliderData = Returned sio' moveEvents ->
  moveEvents `sublist_of` allEvents NormalizeScalar config (fieldsOf sliderData) /\
  StronglySorted Z.lt (map SliderID moveEvents).
Proof.
  intros H.
  assert (moveEvents `sublist_of` allEvents NormalizeScalar config (fieldsOf sliderData))
    as Hsub.
  { revert H. unfold processSliderData. fold (fieldsOf sliderData).
    destruct (if negb _ then _ else _) as [lastKnown values].
    destruct (loop _ 0 values []) as [| |values' evs] eqn:Hloop; [done| |].
    - intros [= <- <-]. apply sublist_nil_l.
    - intros [= <- <-]. apply sliderLoop_sublist in Hloop as (added & -> & Hsub).
      exact Hsub. }
  split; [done|]. by apply (sublist_events_sorted _ 0) in Hsub as [? _].
Qed.

(** What a buffered channel holds after it was offered the events of a
    frame: as many of them as fit, the oldest first. *)
Lemma trySend_take moveEvents : forall consumer : channel,
  fold_left trySend moveEvents consumer =
  consumer ++ take (channelCapacity - List.length consumer) moveEvents.
Proof.
  induction moveEvents as [|e rest IH]; intros consumer; simpl.
  - by rewrite take_nil, app_nil_r.
  - rewrite IH. unfold trySend.
    destruct (Nat.ltb_spec (List.length consumer) channelCapacity) as [Hlt|Hge].
    + rewrite length_app. simpl.
      replace (channelCapacity - List.length consumer)%nat
        with (S (channelCapacity - (List.length consumer + 1)))%nat by lia.
      by rewrite <- app_assoc.
    + replace (channelCapacity - List.length consumer)%nat with 0%nat by lia.
      by rewrite !take_0.
Qed.

(** X3. Delivery never blocks and never reorders: after a call, and with
    no consumer receiving meanwhile, every subscribed channel holds what
    it held before, followed by the longest prefix of the events of the
    frame that its buffer has room for; what does not fit is dropped, and
    no buffer grows beyond its capacity. *)
Theorem delivery_fills_then_drops sio sliderData sio' moveEvents :
  process sio sliderData = Returned sio' moveEvents ->
  sliderMoveConsumers sio' =
    map (fun consumer : channel =>
           consumer ++ take (channelCapacity - List.length consumer) moveEvents)
      (sliderMoveConsumers sio) /\
  (Forall (fun consumer : channel => (List.length consumer <= channelCapacity)%nat)
     (sliderMoveConsumers sio) ->
   Forall (fun consumer : channel => (List.length consumer <= channelCapacity)%nat)
     (sliderMoveConsumers sio')).
Proof.
  intros H. apply process_returned in H as (_ & Hdel & _).
  assert (sliderMoveConsumers sio' =
          map (fun consumer : channel =>
                 consumer ++ take (channelCapacity - List.length consumer) moveEvents)
            (sliderMoveConsumers sio)) as Heq.
  { rewrite Hdel. unfold deliver. apply map_ext. intros c. apply trySend_take. }
  split; [done|]. rewrite Heq. intros Hcap. apply List.Forall_map.
  eapply List.Forall_impl; [|exact Hcap]. simpl. intros c Hc.
  rewrite length_app, length_take. lia.
Qed.

(** X4. After a reload of the configuration the next frame that is not
    discarded yields a move event for every slider, whatever the slots
    hold: the reload zeroes the slider count, and no frame has zero
    fields. *)
Theorem reload_forces_resync sio sliderData :
  accepted sliderData ->
  process (configReloaded sio) sliderData =
  Returned
    {| lastKnownNumSliders := Z.of_nat (List.length (fieldsOf sliderData));
       currentSliderPercentValues := map norm (fieldsOf sliderData);
       sliderMoveConsumers :=
         deliver (allEvents NormalizeScalar config (fieldsOf sliderData))
           (sliderMoveConsumers sio) |}
    (allEvents NormalizeScalar config (fieldsOf sliderData)).
Proof.
  intros Hacc. apply (process_from_unset _ _ _ (configReloaded sio) sliderData Hacc).
  left. simpl. pose proof (fieldsOf_length_pos sliderData). lia.
Qed.

(** A field that passes the test is stored in its slot and has its event
    added. *)
Lemma sliderLoop_loud rest : forall sliderIdx values moveEvents values' moveEvents' j f v,
  loop rest sliderIdx values moveEvents = LoopDone values' moveEvents' ->
  rest !! j = Some f ->
  values !! (sliderIdx + j)%nat = Some v ->
  moving v f = true ->
  values' !! (sliderIdx + j)%nat = Some (norm f) /\
  event (sliderIdx + j) f ∈ moveEvents'.
Proof.
  induction rest as [|g rest IH]; intros idx values evs values' evs' j f v H Hj Hv Hq.
  - done.
  - rewrite sliderLoop_step in H.
    destruct ((idx =? 0)%nat && (1023 <? reading g)); [done|].
    destruct (values !! idx) as [current|] eqn:Hcur; [|done].
    destruct j as [|j].
    + simpl in Hj. injection Hj as ->. rewrite Nat.add_0_r in *.
      rewrite Hcur in Hv. injection Hv as ->. rewrite Hq in H.
      pose proof (sliderLoop_frame _ _ _ _ _ _ _ _ _ H) as (_ & Hlow & _).
      apply sliderLoop_sublist in H as (added & -> & _). split.
      * rewrite Hlow by lia. apply list_lookup_insert_eq.
        by apply lookup_lt_Some in Hcur.
      * apply elem_of_app. left. apply elem_of_app. right. by left.
    + simpl in Hj. replace (idx + S j)%nat with (S idx + j)%nat in * by lia.
      destruct (moving current g).
      * rewrite <- (list_lookup_insert_ne values idx (S idx + j) (norm g)) in Hv by lia.
        by apply (IH _ _ _ _ _ _ _ _ H Hj Hv Hq).
      * by apply (IH _ _ _ _ _ _ _ _ H Hj Hv Hq).
Qed.

(** X5. On a frame with as many fields as the stored slider count, each
    slider is decided on its own: index [i] gets an event exactly when its
    slot is unset or its field differs significantly from the slot, the
    slot then takes the normalized value of the field, and otherwise stays
    as it was. What the other fields of the frame hold plays no part. *)
Theorem each_slider_decided_alone sio sliderData sio' moveEvents i f v :
  lastKnownNumSliders sio = Z.of_nat (List.length (fieldsOf sliderData)) ->
  accepted sliderData ->
  fieldsOf sliderData !! i = Some f ->
  currentSliderPercentValues sio !! i = Some v ->
  process sio sliderData = Returned sio' moveEvents ->
  (emitsFor i moveEvents <-> moving v f = true) /\
  (moving v f = true -> event i f ∈ moveEvents) /\
  currentSliderPercentValues sio' !! i = Some (if moving v f then norm f else v).
Proof.
  intros Hcount Hacc Hf Hv. unfold processSliderData.
  fold (fieldsOf sliderData). rewrite Hcount, Z.eqb_refl. simpl.
  destruct (loop (fieldsOf sliderData) 0 (currentSliderPercentValues sio) [])
    as [| |values' evs] eqn:Hloop; [done| |].
  - apply sliderLoop_malformed in Hloop as [_ Hbad].
    unfold accepted, firstReading in Hacc. lia.
  - intros [= <- <-]. simpl. destruct (moving v f) eqn:Hm.
    + destruct (sliderLoop_loud _ _ _ _ _ _ _ _ v Hloop Hf Hv Hm) as [Hval Hev].
      split; [|by split]. split; [done|]. intros _. by exists (event i f).
    + destruct (sliderLoop_quiet _ _ _ _ _ _ _ _ _ _ _ v Hloop Hf Hv Hm) as [Hval Hev].
      split; [|by split]. split; [|done].
      intros (e & He & Hid). destruct (Hev e He) as [Hin|Hne];
        [by apply elem_of_nil in Hin|done].
Qed.

End TrackerCoverage.

Lemma slots_stay_in_step_witness :
  Connection.inStep Serial.NewSerialIO /\
  exists sio',
    Connection.feed Sample.NormalizeScalar Sample.SignificantlyDifferent
      (Sample.config false) Serial.NewSerialIO
      [Connection.Subscribed;
       Connection.LineRead "deej:v2.0:sliders:512|1023";
       Connection.ConfigReloaded;
       Connection.LineRead "deej:v2.0:sliders:7"] = Some sio' /\
    Connection.inStep sio'.
Proof.
  assert (Connection.inStep Serial.NewSerialIO) as Hstep by (left; reflexivity).
  split; [exact Hstep|].
  exact (slots_stay_in_step Sample.NormalizeScalar Sample.SignificantlyDifferent
           (Sample.config false) _ Serial.NewSerialIO Hstep).
Defined.

Lemma events_follow_the_fields_witness :
  exists sio' moveEvents,
    Sample.process false Sample.fresh "512|x|1023" = Serial.Returned sio' moveEvents /\
    moveEvents `sublist_of`
      Tracker.allEvents Sample.NormalizeScalar (Sample.config false)
        (Tracker.fieldsOf "512|x|1023") /\
    StronglySorted Z.lt (map Serial.SliderID moveEvents).
Proof.
  destruct (Sample.process false Sample.fresh "512|x|1023") as [|sio' moveEvents] eqn:Hret;
    [by vm_compute in Hret|].
  exists sio', moveEvents. split; [reflexivity|].
  exact (events_follow_the_fields Sample.NormalizeScalar Sample.SignificantlyDifferent
           (Sample.config false) Sample.fresh "512|x|1023" sio' moveEvents Hret).
Defined.

Lemma delivery_fills_then_drops_witness :
  exists sio' moveEvents,
    Sample.process false Sample.fresh "512|1023" = Serial.Returned sio' moveEvents /\
    Serial.sliderMoveConsumers sio' =
      map (fun consumer : Serial.channel =>
             consumer ++ take (Serial.channelCapacity - List.length consumer) moveEvents)
        (Serial.sliderMoveConsumers Sample.fresh).
Proof.
  destruct (Sample.process false Sample.fresh "512|1023") as [|sio' moveEvents] eqn:Hret;
    [by vm_compute in Hret|].
  exists sio', moveEvents. split; [reflexivity|].
  exact (proj1 (delivery_fills_then_drops Sample.NormalizeScalar
                  Sample.SignificantlyDifferent (Sample.config false)
                  Sample.fresh "512|1023" sio' moveEvents Hret)).
Defined.

Lemma reload_forces_resync_witness :
  Tracker.accepted "512|1023" /\
  exists sio',
    Sample.process false (Connection.configReloaded Sample.fresh) "512|1023" =
    Serial.Returned sio'
      (Tracker.allEvents Sample.NormalizeScalar (Sample.config false)
         (Tracker.fieldsOf "512|1023")).
Proof.
  assert (Tracker.accepted "512|1023") as Hacc by (vm_compute; discriminate).
  split; [exact Hacc|]. eexists.
  exact (reload_forces_resync Sample.NormalizeScalar Sample.SignificantlyDifferent
           (Sample.config false) Sample.fresh "512|1023" Hacc).
Defined.

Lemma each_slider_decided_alone_witness :
  let sio :=
    {| Serial.lastKnownNumSliders := 2;
       Serial.currentSliderPercentValues := [Float32.zero; Float32.one];
       Serial.sliderMoveConsumers := [[]] |} in
  exists sio' moveEvents,
    Sample.process false sio "1023|1023" = Serial.Returned sio' moveEvents /\
    Tracker.emitsFor 0 moveEvents /\ ~ Tracker.emitsFor 1 moveEvents /\
    Serial.currentSliderPercentValues sio' = [Float32.one; Float32.one].
Proof.
  intros sio.
  destruct (Sample.process false sio "1023|1023") as [|sio' moveEvents] eqn:Hret;
    [by vm_compute in Hret|].
  assert (Tracker.accepted "1023|1023") as Hacc by (vm_compute; discriminate).
  destruct (each_slider_decided_alone Sample.NormalizeScalar
              Sample.SignificantlyDifferent (Sample.config false)
              sio "1023|1023" sio' moveEvents 0 "1023" Float32.zero
              eq_refl Hacc eq_refl eq_refl Hret) as (H0 & _ & _).
  destruct (each_slider_decided_alone Sample.NormalizeScalar
              Sample.SignificantlyDifferent (Sample.config false)
              sio "1023|1023" sio' moveEvents 1 "1023" Float32.one
              eq_refl Hacc eq_refl eq_refl Hret) as (H1 & _ & _).
  exists sio', moveEvents. split; [reflexivity|]. split; [|split].
  - apply H0. by vm_compute.
  - intros He. apply H1 in He. by vm_compute in He.
  - by vm_compute in Hret; injection Hret as <- _.
Defined.

(* ===================================================================== *)
(** * Lines, fields and numbers *)
(* ===================================================================== *)

Lemma append_cons c r t : String c r +:+ t = String c (r +:+ t).
Proof. reflexivity. Qed.

Lemma append_nil t : "" +:+ t = t.
Proof. reflexivity. Qed.

Local Ltac unfold_append := rewrite ?append_cons, ?append_nil.

Section TextFacts.
Import Strings Text.

Lemma allBytes_app P s t : allBytes P (s +:+ t) = allBytes P s && allBytes P t.
Proof.
  induction s as [|c r IH]; unfold_append; simpl; [done|]. by rewrite IH, andb_assoc.
Qed.

Lemma allBytes_impl (P Q : ascii -> bool) s :
  (forall c, P c = true -> Q c = true) -> allBytes P s = true -> allBytes Q s = true.
Proof.
  intros HPQ. induction s as [|c r IH]; simpl; [done|].
  intros [Hc Hr]%andb_true_iff. apply andb_true_iff. auto.
Qed.



Lemma trimLeft_blank pad s : blank pad = true -> trimLeft (pad +:+ s) = trimLeft s.
Proof.
  induction pad as [|c r IH]; unfold_append; simpl; [done|].
  intros [Hc Hr]%andb_true_iff. rewrite Hc. auto.
Qed.

Lemma trimRight_blank pad : blank pad = true -> trimRight pad = "".
Proof.
  induction pad as [|c r IH]; simpl; [done|].
  intros [Hc Hr]%andb_true_iff. by rewrite IH, Hc.
Qed.

Lemma trimRight_app_blank s pad : blank pad = true -> trimRight (s +:+ pad) = trimRight s.
Proof.
  intros Hpad. induction s as [|c r IH]; unfold_append; simpl.
  - by apply trimRight_blank.
  - by rewrite IH.
Qed.

Lemma trimLeft_all_blank pad : blank pad = true -> trimLeft pad = "".
Proof.
  induction pad as [|c r IH]; simpl; [done|].
  intros [Hc Hr]%andb_true_iff. rewrite Hc. auto.
Qed.

Lemma trimLeft_app s pad :
  blank pad = true ->
  trimLeft (s +:+ pad) = match trimLeft s with "" => "" | t => t +:+ pad end.
Proof.
  intros Hpad. induction s as [|c r IH]; unfold_append; simpl.
  - by apply trimLeft_all_blank.
  - by destruct (isSpace c).
Qed.

(** White space around a line never matters to [TrimSpace]. *)
Lemma TrimSpace_padding before s after :
  blank before = true -> blank after = true ->
  TrimSpace (before +:+ s +:+ after) = TrimSpace s.
Proof.
  intros Hb Ha. unfold TrimSpace. rewrite trimLeft_blank by done.
  rewrite trimLeft_app by done.
  destruct (trimLeft s) as [|c r] eqn:Hs; [done|].
  by apply trimRight_app_blank.
Qed.

(** [trimRight] passes over a part that ends in a byte that is no white
    space. *)
Lemma trimRight_app_kept s c t :
  lastByte s = Some c -> isSpace c = false ->
  trimRight (s +:+ t) = s +:+ trimRight t.
Proof.
  induction s as [|a r IH]; [done|]. unfold_append. simpl. destruct r as [|b r].
  - intros [= ->] Hc. unfold_append. rewrite Hc. by destruct (trimRight t).
  - intros Hlast Hc. rewrite (IH Hlast Hc). unfold_append. done.
Qed.



Lemma trimLeft_trimRight s : trimLeft (trimRight s) = trimRight (trimLeft s).
Proof.
  induction s as [|a r IH]; [done|]. simpl.
  destruct (isSpace a) eqn:Ha.
  - rewrite <- IH. destruct (trimRight r) as [|b r']; [done|]. simpl. by rewrite Ha.
  - simpl. destruct (trimRight r) as [|b r']; simpl; by rewrite Ha.
Qed.

Lemma trimRight_idemp s : trimRight (trimRight s) = trimRight s.
Proof.
  induction s as [|a r IH]; [done|]. simpl.
  destruct (trimRight r) as [|b r'] eqn:Hr.
  - destruct (isSpace a) eqn:Ha; [done|]. simpl. by rewrite Ha.
  - change (trimRight (String a (String b r')))
      with (match trimRight (String b r') with
            | "" => if isSpace a then "" else String a ""
            | r'' => String a r''
            end).
    rewrite IH. done.
Qed.

(** the fields of a text in which the separator does not occur *)
Lemma Split_free s sep : free sep s = true -> Split s sep = [s].
Proof.
  induction s as [|c r IH]; [done|]. simpl.
  intros [Hc Hr]%andb_true_iff. apply negb_true_iff in Hc. rewrite Hc, IH; done.
Qed.

(** the first field ends at the first separator *)
Lemma Split_app s sep t :
  free sep s = true -> Split (s +:+ String sep t) sep = s :: Split t sep.
Proof.
  induction s as [|c r IH]; unfold_append.
  - intros _. simpl. by rewrite Ascii.eqb_refl.
  - simpl. intros [Hc Hr]%andb_true_iff. apply negb_true_iff in Hc.
    rewrite Hc, IH; done.
Qed.

Lemma digit_facts d :
  0 <= d <= 9 ->
  isDigit (Arduino.digit d) = true /\ digitVal (Arduino.digit d) = d /\
  isSpace (Arduino.digit d) = false /\
  Arduino.digit d <> "-"%char /\ Arduino.digit d <> "+"%char /\
  Arduino.digit d <> ":"%char /\ Arduino.digit d <> "|"%char.
Proof.
  intros Hd.
  assert (d = 0 \/ d = 1 \/ d = 2 \/ d = 3 \/ d = 4 \/ d = 5 \/ d = 6 \/ d = 7 \/
          d = 8 \/ d = 9) as Hcases by lia.
  repeat (destruct Hcases as [->|Hcases]; [by vm_compute|]). subst d. by vm_compute.
Qed.

Lemma digitsOf_S fuel n acc :
  Arduino.digitsOf (S fuel) n acc =
  if n <? 10 then String (Arduino.digit (n mod 10)) acc
  else Arduino.digitsOf fuel (n / 10) (String (Arduino.digit (n mod 10)) acc).
Proof. reflexivity. Qed.

Lemma parseDigits_cons a c r :
  parseDigits a (String c r) =
  if isDigit c then parseDigits (10 * a + digitVal c) r else None.
Proof. reflexivity. Qed.

Lemma allBytes_cons P c r : allBytes P (String c r) = P c && allBytes P r.
Proof. reflexivity. Qed.

(** Reading back the digits written for [n] gives [n]. *)
Lemma parseDigits_digitsOf fuel : forall n acc,
  0 <= n < 10 ^ Z.of_nat fuel ->
  parseDigits 0 (Arduino.digitsOf fuel n acc) = parseDigits n acc.
Proof.
  induction fuel as [|fuel IH]; intros n acc Hn.
  - change (10 ^ Z.of_nat 0) with 1 in Hn. assert (n = 0) as -> by lia. done.
  - rewrite Nat2Z.inj_succ, Z.pow_succ_r in Hn by lia. rewrite digitsOf_S.
    pose proof (Z.mod_pos_bound n 10 ltac:(lia)) as Hmod.
    destruct (digit_facts (n mod 10) ltac:(lia)) as (Hdig & Hval & _).
    destruct (Z.ltb_spec n 10) as [Hlt|Hge].
    + rewrite parseDigits_cons, Hdig, Hval. rewrite Z.mod_small by lia. done.
    + rewrite IH.
      * rewrite parseDigits_cons, Hdig, Hval. f_equal. pose proof (Z.div_mod n 10). lia.
      * split; [apply Z.div_pos; lia|]. apply Z.div_lt_upper_bound; lia.
Qed.

(** The digits written for a number start with a digit, whatever follows. *)
Lemma digitsOf_head fuel : forall n acc,
  0 <= n ->
  exists d rest, 0 <= d <= 9 /\
    Arduino.digitsOf (S fuel) n acc = String (Arduino.digit d) rest.
Proof.
  induction fuel as [|fuel IH]; intros n acc Hn.
  - pose proof (Z.mod_pos_bound n 10 ltac:(lia)). rewrite digitsOf_S.
    destruct (n <? 10); eexists _, _; (split; [|reflexivity]); lia.
  - pose proof (Z.mod_pos_bound n 10 ltac:(lia)). rewrite digitsOf_S.
    destruct (n <? 10); [eexists _, _; (split; [|reflexivity]); lia|].
    apply IH. apply Z.div_pos; lia.
Qed.

(** The digits written for a number are digits. *)
Lemma digitsOf_digits fuel : forall n acc,
  0 <= n -> allBytes isDigit acc = true ->
  allBytes isDigit (Arduino.digitsOf fuel n acc) = true.
Proof.
  induction fuel as [|fuel IH]; intros n acc Hn Hacc; [done|]. rewrite digitsOf_S.
  pose proof (Z.mod_pos_bound n 10 ltac:(lia)).
  destruct (digit_facts (n mod 10) ltac:(lia)) as (Hdig & _).
  destruct (n <? 10).
  - by rewrite allBytes_cons, Hdig.
  - apply IH; [apply Z.div_pos; lia|]. by rewrite allBytes_cons, Hdig.
Qed.

(** [Atoi] reads back what [Itoa] writes. *)
Lemma Atoi_Itoa n : int16 n -> Atoi (Arduino.Itoa n) = (n, true).
Proof.
  unfold int16, Arduino.Itoa. intros Hn.
  assert (forall v, -32768 <= v <= 32767 -> clampInt v = v) as Hclamp.
  { intros v Hv. unfold clampInt, maxInt, minInt. lia. }
  destruct (Z.ltb_spec n 0) as [Hneg|Hpos].
  - destruct (digitsOf_head 4 (- n) "" ltac:(lia)) as (d & rest & Hd & Heq).
    pose proof (parseDigits_digitsOf 5 (- n) "" ltac:(change (10 ^ Z.of_nat 5) with 100000; lia))
      as Hparse.
    rewrite Heq in Hparse |- *. unfold Atoi. rewrite Hparse.
    change (parseDigits (- n) "") with (Some (- n)).
    cbv beta iota. rewrite Hclamp by lia. rewrite Z.eqb_refl. f_equal. lia.
  - destruct (digitsOf_head 4 n "" ltac:(lia)) as (d & rest & Hd & Heq).
    pose proof (parseDigits_digitsOf 5 n "" ltac:(change (10 ^ Z.of_nat 5) with 100000; lia))
      as Hparse.
    destruct (digit_facts d Hd) as (_ & _ & _ & Hminus & Hplus & _).
    rewrite Heq in Hparse |- *. unfold Atoi.
    generalize dependent (Arduino.digit d). intros c _ Hparse Hminus Hplus.
    assert (match String c rest with
            | String "-" r => (true, r)
            | String "+" r => (false, r)
            | _ => (false, String c rest)
            end = (false, String c rest)) as ->.
    { destruct c as [[] [] [] [] [] [] [] []]; try done. }
    rewrite Hparse. change (parseDigits n "") with (Some n).
    cbv beta iota. rewrite Hclamp by lia. by rewrite Z.eqb_refl.
Qed.

(** What [Itoa] writes holds no separator and no white space. *)
Lemma Itoa_bytes n :
  allBytes (fun c => isDigit c || Ascii.eqb c "-") (Arduino.Itoa n) = true.
Proof.
  unfold Arduino.Itoa. destruct (Z.ltb_spec n 0).
  - rewrite allBytes_cons. change (isDigit "-" || Ascii.eqb "-" "-") with true.
    eapply allBytes_impl; [|apply digitsOf_digits; [lia|done]].
    intros c ->. done.
  - eapply allBytes_impl; [|apply digitsOf_digits; [lia|done]].
    intros c ->. done.
Qed.

Lemma digit_or_minus_free (sep : ascii) s :
  isDigit sep = false -> sep <> "-"%char ->
  allBytes (fun c => isDigit c || Ascii.eqb c "-") s = true -> free sep s = true.
Proof.
  intros Hsep Hminus. apply allBytes_impl. intros c Hc.
  apply negb_true_iff. apply Ascii.eqb_neq. intros ->.
  rewrite Hsep in Hc. simpl in Hc. apply Ascii.eqb_eq in Hc. done.
Qed.

Lemma HasPrefix_app p s : HasPrefix (p +:+ s) p = true.
Proof.
  induction p as [|c r IH]; [by destruct s|]. unfold_append. simpl.
  by rewrite Ascii.eqb_refl.
Qed.

(** [trimRight] keeps what holds no white space. *)
Lemma trimRight_no_space s :
  allBytes (fun c => negb (isSpace c)) s = true -> trimRight s = s.
Proof.
  induction s as [|c r IH]; [done|]. rewrite allBytes_cons.
  intros [Hc Hr]%andb_true_iff. apply negb_true_iff in Hc.
  simpl. rewrite (IH Hr), Hc. by destruct r.
Qed.

Lemma TrimSpace_trimmed s : trimmed (TrimSpace s).
Proof.
  unfold trimmed, TrimSpace. rewrite <- trimLeft_trimRight, trimRight_idemp.
  rewrite trimLeft_trimRight.
  assert (forall t, trimLeft (trimLeft t) = trimLeft t) as Hidem.
  { induction t as [|c r IH]; [done|]. simpl. destruct (isSpace c) eqn:Hc; [done|].
    simpl. by rewrite Hc. }
  by rewrite Hidem.
Qed.

(** the fields of a framed message *)
Lemma framed_fields version messageType payload :
  free ":" version = true -> free ":" messageType = true ->
  Split ("deej:" +:+ version +:+ ":" +:+ messageType +:+ ":" +:+ payload) ":" =
  "deej" :: version :: messageType :: Split payload ":".
Proof.
  intros Hv Hm.
  change ("deej:" +:+ version +:+ ":" +:+ messageType +:+ ":" +:+ payload)
    with ("deej" +:+ String ":" (version +:+ String ":"
            (messageType +:+ String ":" payload))).
  by rewrite !Split_app.
Qed.

End TextFacts.

Section DecoderCoverage.
Import Float32 Serial Tracker Strings Text.

Variable NormalizeScalar : float32 -> float32.
Variable SignificantlyDifferent : float32 -> float32 -> string -> bool.
Variable config : CanonicalConfig.

Local Abbreviation handle := (handleLine NormalizeScalar SignificantlyDifferent config).
Local Abbreviation process := (processSliderData NormalizeScalar SignificantlyDifferent config).

(** X6. White space around a line plays no part in what [handleLine] does
    with it: the line may come with CR LF, with LF alone, with no line end
    at all, or behind leading blanks. *)
Theorem surrounding_space_is_ignored sio before line after :
  blank before = true -> blank after = true ->
  handle sio (before +:+ line +:+ after) = handle sio line.
Proof.
  intros Hb Ha. unfold handleLine. by rewrite TrimSpace_padding.
Qed.

(** A framed line is handled by its message type and the first field of
    its payload. *)
Lemma handleLine_framed sio line version messageType payload :
  TrimSpace line =
    "deej:" +:+ version +:+ ":" +:+ messageType +:+ ":" +:+ payload ->
  free ":" version = true ->
  free ":" messageType = true ->
  handle sio line =
  if String.eqb messageType "startup" then LineTrayIcon TrayNormal
  else if String.eqb messageType "sliders" then
    LineSliders (process sio (hd "" (Split payload ":")))
  else if String.eqb messageType "response" then
    LineResponse (handleCommandResponse (hd "" (Split payload ":"))
                    (tl (Split payload ":")))
  else LineIgnored.
Proof.
  intros Hline Hv Hm. unfold handleLine.
  pose proof (expectedLinePattern_never_matches line) as Hlegacy.
  rewrite Hline in *. rewrite Hlegacy.
  rewrite (HasPrefix_app "deej:"), framed_fields by done.
  destruct (Split_cons payload ":") as (f & fs & ->). simpl hd. simpl tl.
  destruct (String.eqb messageType "startup"); [done|].
  destruct (String.eqb messageType "sliders"); [done|].
  destruct (String.eqb messageType "response"); [done|].
  done.
Qed.


End DecoderCoverage.

Lemma surrounding_space_is_ignored_witness :
  Serial.handleLine Sample.NormalizeScalar Sample.SignificantlyDifferent
    (Sample.config false) Sample.fresh
    ((" " +:+ Strings.CRLF) +:+ "deej:v2.0:sliders:512|1023" +:+ Strings.CRLF) =
  Serial.handleLine Sample.NormalizeScalar Sample.SignificantlyDifferent
    (Sample.config false) Sample.fresh "deej:v2.0:sliders:512|1023".
Proof.
  exact (surrounding_space_is_ignored Sample.NormalizeScalar
           Sample.SignificantlyDifferent (Sample.config false) Sample.fresh
           (" " +:+ Strings.CRLF) "deej:v2.0:sliders:512|1023" Strings.CRLF
           eq_refl eq_refl).
Defined.


(* ===================================================================== *)
(** * The host and the firmware taken together *)
(* ===================================================================== *)

Section FirmwareFacts.
Import Float32 Serial Tracker Strings Text Arduino Firmware Wire Connection.

Lemma joinValues_bytes values :
  allBytes (fun c => isDigit c || Ascii.eqb c "-" || Ascii.eqb c "|")
    (joinValues values) = true.
Proof.
  assert (forall v, allBytes (fun c => isDigit c || Ascii.eqb c "-" || Ascii.eqb c "|")
                      (Itoa v) = true) as Hone.
  { intros v. eapply allBytes_impl; [|apply Itoa_bytes]. intros c ->. done. }
  induction values as [|v [|w rest] IH]; [done|apply Hone|].
  change (joinValues (v :: w :: rest))
    with (Itoa v +:+ "|" +:+ joinValues (w :: rest)).
  rewrite !allBytes_app, Hone, IH. done.
Qed.

Lemma joinValues_free_colon values : free ":" (joinValues values) = true.
Proof.
  eapply allBytes_impl; [|apply joinValues_bytes]. intros c Hc.
  apply negb_true_iff, Ascii.eqb_neq. intros ->. by vm_compute in Hc.
Qed.

Lemma joinValues_no_space values :
  allBytes (fun c => negb (isSpace c)) (joinValues values) = true.
Proof.
  eapply allBytes_impl; [|apply joinValues_bytes]. intros c Hc.
  apply negb_true_iff. destruct (isSpace c) eqn:Hsp; [|done].
  unfold isSpace in Hsp. simpl in Hsp.
  repeat (apply orb_true_iff in Hsp as [Heq|Hsp];
          [apply Ascii.eqb_eq in Heq; subst c; by vm_compute in Hc|]).
  done.
Qed.

(** The fields of a slider message are the numbers as [Itoa] wrote them. *)
Lemma fieldsOf_joinValues values :
  values <> [] -> fieldsOf (joinValues values) = map Itoa values.
Proof.
  assert (forall v, free "|" (Itoa v) = true) as Hfree.
  { intros v. apply digit_or_minus_free; [done|done|apply Itoa_bytes]. }
  unfold fieldsOf. induction values as [|v [|w rest] IH]; [done| |]; intros _.
  - simpl. by rewrite Split_free.
  - change (joinValues (v :: w :: rest))
      with (Itoa v +:+ String "|" (joinValues (w :: rest))).
    rewrite Split_app by done. by rewrite IH.
Qed.

Lemma reading_Itoa v : int16 v -> reading (Itoa v) = v.
Proof. intros Hv. unfold reading. by rewrite Atoi_Itoa. Qed.

Lemma readings_joinValues values :
  values <> [] -> Forall int16 values ->
  map reading (fieldsOf (joinValues values)) = values.
Proof.
  intros Hne Hrange. rewrite fieldsOf_joinValues by done.
  induction Hrange as [|v rest Hv Hrest IH]; [done|]. simpl.
  rewrite reading_Itoa by done. f_equal.
  destruct rest; [done|]. by apply IH.
Qed.

(** A line written by [println] reaches [handleLine] as it was built, when
    it starts and ends with bytes that are no white space. *)
Lemma TrimSpace_println s :
  trimLeft s = s -> trimRight s = s -> TrimSpace (println s) = s.
Proof.
  intros Hl Hr. unfold println.
  change (s +:+ CRLF) with ("" +:+ s +:+ CRLF).
  rewrite TrimSpace_padding by done. unfold TrimSpace. by rewrite Hl.
Qed.

Lemma sliderMessage_trimmed values :
  TrimSpace (println (sliderMessage values)) = sliderMessage values.
Proof.
  apply TrimSpace_println; [done|]. unfold sliderMessage.
  change ("deej:" +:+ FIRMWARE_VERSION +:+ ":sliders:" +:+ joinValues values)
    with ("deej:v2.0:sliders:" +:+ joinValues values).
  rewrite (trimRight_app_kept _ ":") by done.
  by rewrite trimRight_no_space by apply joinValues_no_space.
Qed.





Lemma anySignificant_settled values : forall lastSent,
  List.length values = List.length lastSent ->
  anySignificant values lastSent = false ->
  Forall2 (fun v l => Z.abs (v - l) <= CHANGE_THRESHOLD) values lastSent.
Proof.
  induction values as [|v values IH]; intros [|l lastSent] Hlen Hquiet; try done.
  simpl in Hquiet. destruct (Z.ltb_spec CHANGE_THRESHOLD (Z.abs (v - l))); [done|].
  constructor; [done|]. apply IH; [by injection Hlen|done].
Qed.

Lemma settled_same values :
  Forall2 (fun v l => Z.abs (v - l) <= CHANGE_THRESHOLD) values values.
Proof.
  induction values as [|v values IH]; constructor; [|done].
  rewrite Z.sub_diag. unfold CHANGE_THRESHOLD. simpl. lia.
Qed.

Lemma readings_tenBit analogRead :
  tenBit analogRead -> Forall (fun v => 0 <= v <= 1023) (readings analogRead).
Proof.
  intros Hpins. unfold readings. apply List.Forall_map, List.Forall_forall.
  intros i _. apply Hpins.
Qed.

Lemma setup_settled analogRead :
  tenBit analogRead ->
  settled (setup analogRead).1 /\
  analogSliderValues (setup analogRead).1 = readings analogRead /\
  List.length (lastSentValues (setup analogRead).1) = NUM_SLIDERS /\
  Forall (fun l => 0 <= l <= 1023) (lastSentValues (setup analogRead).1).
Proof.
  intros Hpins. split; [|split; [done|split; [done|by apply readings_tenBit]]].
  split; [done|]. apply settled_same.
Qed.

Lemma loop_settled analogRead b rx :
  tenBit analogRead ->
  List.length (lastSentValues b) = NUM_SLIDERS ->
  Forall (fun l => 0 <= l <= 1023) (lastSentValues b) ->
  settled (loop analogRead b rx).1.1 /\
  analogSliderValues (loop analogRead b rx).1.1 = readings analogRead /\
  List.length (lastSentValues (loop analogRead b rx).1.1) = NUM_SLIDERS /\
  Forall (fun l => 0 <= l <= 1023) (lastSentValues (loop analogRead b rx).1.1).
Proof.
  intros Hpins Hlen Hrange. unfold loop.
  destruct (checkForCommands b rx) as [[out eff] rx'].
  destruct eff; [|by apply setup_settled].
  destruct (hasSignificantChanges _) eqn:Hmoved; simpl.
  - split; [|split; [done|split; [done|by apply readings_tenBit]]].
    split; [done|]. apply settled_same.
  - split; [|done]. split; [done|].
    apply anySignificant_settled; [symmetry; exact Hlen|exact Hmoved].
Qed.

Lemma lastPins_cons powerUp t rest :
  lastPins powerUp (t :: rest) = lastPins (pins t) rest.
Proof.
  unfold lastPins. destruct rest as [|t' rest]; [done|].
  change (last (t :: t' :: rest)) with (last (t' :: rest)).
  destruct (last (t' :: rest)) eqn:Hlast; [done|]. by apply last_None in Hlast.
Qed.

Lemma loops_settled turns : forall analogRead b rx,
  Forall (fun t => tenBit (pins t)) turns ->
  settled b -> analogSliderValues b = readings analogRead ->
  List.length (lastSentValues b) = NUM_SLIDERS ->
  Forall (fun l => 0 <= l <= 1023) (lastSentValues b) ->
  settled (loops b rx turns).1 /\
  analogSliderValues (loops b rx turns).1 = readings (lastPins analogRead turns) /\
  Forall (fun l => 0 <= l <= 1023) (lastSentValues (loops b rx turns).1).
Proof.
  induction turns as [|t rest IH]; intros analogRead b rx Hturns Hset Hval Hlen Hrange;
    [done|].
  apply List.Forall_cons_iff in Hturns as [Ht Hrest].
  rewrite lastPins_cons. simpl.
  destruct (loop_settled (pins t) b (rx +:+ arrived t) Ht Hlen Hrange)
    as (Hset' & Hval' & Hlen' & Hrange').
  destruct (loop (pins t) b (rx +:+ arrived t)) as [[b' out] rx']. simpl in *.
  specialize (IH (pins t) b' rx' Hrest Hset' Hval' Hlen' Hrange').
  by destruct (loops b' rx' rest) as [b'' out'].
Qed.

(** X8. The dead band of the firmware holds at the end of every turn.
    Whatever arrives and however the sliders move, with pins that read as
    a 10-bit converter does, the board ends a run with the readings of its
    last turn, each of them within [CHANGE_THRESHOLD] of the value recorded
    as last sent for its slider (a slider that is further off has had its
    value sent in that very turn), and the recorded values are readings
    themselves, so that no difference the sketch takes leaves the range of
    an [int]. *)
Theorem sketch_settles powerUp turns :
  tenBit powerUp ->
  Forall (fun t => tenBit (pins t)) turns ->
  settled (sketch powerUp turns).1 /\
  analogSliderValues (sketch powerUp turns).1 = readings (lastPins powerUp turns) /\
  Forall (fun l => 0 <= l <= 1023) (lastSentValues (sketch powerUp turns).1).
Proof.
  intros Hpins Hturns. unfold sketch.
  destruct (setup_settled powerUp Hpins) as (Hset & Hval & Hlen & Hrange).
  destruct (setup powerUp) as [b out]. simpl in *.
  pose proof (loops_settled turns powerUp b "" Hturns Hset Hval Hlen Hrange) as Hrun.
  by destruct (loops b "" turns) as [b' out'].
Qed.

End FirmwareFacts.

Section HostAndFirmware.
Import Float32 Serial Tracker Strings Text Arduino Firmware Wire Connection.

Variable NormalizeScalar : float32 -> float32.
Variable SignificantlyDifferent : float32 -> float32 -> string -> bool.
Variable config : CanonicalConfig.

Local Abbreviation handle := (handleLine NormalizeScalar SignificantlyDifferent config).
Local Abbreviation process := (processSliderData NormalizeScalar SignificantlyDifferent config).

(** The host hands the values of a slider message to the tracker. *)
Lemma handleLine_sliderMessage sio values :
  handle sio (println (sliderMessage values)) =
  LineSliders (process sio (joinValues values)).
Proof.
  rewrite (handleLine_framed _ _ _ sio _ "v2.0" "sliders" (joinValues values));
    [|by rewrite sliderMessage_trimmed|done|done].
  simpl String.eqb. cbv iota. by rewrite Split_free by apply joinValues_free_colon.
Qed.

(** X9. The slider message of the firmware is read back in full: the host
    hands the tracker one field per slider, and [Atoi] reads in each field
    the very number the firmware wrote, whatever its sign and size. *)
Theorem slider_message_read_back sio values :
  values <> [] ->
  Forall int16 values ->
  handle sio (println (sliderMessage values)) =
    LineSliders (process sio (joinValues values)) /\
  map reading (fieldsOf (joinValues values)) = values.
Proof.
  intros Hne Hrange. split; [apply handleLine_sliderMessage|].
  by apply readings_joinValues.
Qed.

Lemma imap_cons_shift {A B} (f : nat -> A -> B) start x l :
  imap (fun j => f (start + j)%nat) (x :: l) =
  f (start + 0)%nat x :: imap (fun j => f (S start + j)%nat) l.
Proof. simpl. f_equal. apply imap_ext. intros j y _. simpl. f_equal. lia. Qed.

Lemma readings_int16 analogRead : tenBit analogRead -> Forall int16 (readings analogRead).
Proof.
  intros Hpins. eapply List.Forall_impl; [|by apply readings_tenBit].
  unfold int16. simpl. intros. lia.
Qed.

Lemma readings_not_nil analogRead : readings analogRead <> [].
Proof. done. Qed.

(** The tracker computes for a field written by [Itoa] what it computes
    for the number. *)
Lemma events_of_numbers values : forall start,
  Forall int16 values ->
  imap (fun j => eventAt NormalizeScalar config (start + j)) (map Itoa values) =
  imap (fun j => eventOf NormalizeScalar config (start + j)) values.
Proof.
  induction values as [|v rest IH]; intros start Hrange; [done|].
  apply List.Forall_cons_iff in Hrange as [Hv Hrest].
  change (map Itoa (v :: rest)) with (Itoa v :: map Itoa rest).
  rewrite !imap_cons_shift, IH by done. f_equal.
  unfold eventAt, eventOf, normalized, scaled. by rewrite reading_Itoa.
Qed.

(** X10. Power-up, end to end.  The two lines [setup] writes make the
    host show the normal tray icon and then, for a tracker that does not
    know five sliders yet, emit one move event per slider, each with the
    value the tracker computes for the reading of that slider; from then on
    the host knows [NUM_SLIDERS] sliders. *)
Theorem power_up_handshake analogRead sio :
  tenBit analogRead ->
  lastKnownNumSliders sio <> Z.of_nat NUM_SLIDERS ->
  exists sio',
    map (handle sio) (setup analogRead).2 =
      [LineTrayIcon TrayNormal;
       LineSliders (Returned sio'
                      (imap (eventOf NormalizeScalar config) (readings analogRead)))] /\
    GetNumSliders sio' = Z.of_nat NUM_SLIDERS.
Proof.
  intros Hpins Hcount.
  pose proof (readings_int16 _ Hpins) as Hrange.
  pose proof (fieldsOf_joinValues (readings analogRead) (readings_not_nil _)) as Hfields.
  assert (accepted (joinValues (readings analogRead))) as Hacc.
  { unfold accepted, firstReading. rewrite Hfields.
    change (hd "" (map Itoa (readings analogRead))) with (Itoa (analogRead 0%nat)).
    rewrite reading_Itoa; [apply Hpins|]. specialize (Hpins 0%nat). unfold int16. lia. }
  assert (List.length (fieldsOf (joinValues (readings analogRead))) = NUM_SLIDERS)
    as Hlen by (by rewrite Hfields).
  pose proof (events_of_numbers _ 0 Hrange :
    imap (eventAt NormalizeScalar config) (map Itoa (readings analogRead)) =
    imap (eventOf NormalizeScalar config) (readings analogRead)) as Hev.
  eexists. split.
  - change (map (handle sio) (setup analogRead).2)
      with [handle sio (println "deej:v2.0:startup:5sliders");
            handle sio (println (sliderMessage (readings analogRead)))].
    rewrite handleLine_sliderMessage.
    rewrite (process_from_unset _ _ _ sio _ Hacc) by (left; by rewrite Hlen).
    unfold allEvents. rewrite Hfields, Hev. reflexivity.
  - reflexivity.
Qed.

Lemma handleLine_unknown_command sio cmd :
  trimmed cmd ->
  handle sio (println ("deej:" +:+ FIRMWARE_VERSION
                       +:+ ":response:error:unknown_command:" +:+ cmd)) =
  LineResponse (CommandError (Some ("unknown_command", hd "" (Split cmd ":")))).
Proof.
  intros Htrimmed.
  assert (trimRight cmd = cmd) as Hright.
  { rewrite <- Htrimmed. unfold TrimSpace. by rewrite trimRight_idemp. }
  rewrite (handleLine_framed _ _ _ sio _ "v2.0" "response"
             ("error:unknown_command:" +:+ cmd)); [| |done|done].
  - simpl String.eqb. cbv iota.
    change ("error:unknown_command:" +:+ cmd)
      with ("error" +:+ String ":" ("unknown_command" +:+ String ":" cmd)).
    rewrite !Split_app by done.
    destruct (Split_cons cmd ":") as (f & fs & ->). done.
  - apply TrimSpace_println; [done|].
    change (trimRight ("deej:v2.0:response:error:unknown_command:" +:+ cmd) =
            "deej:v2.0:response:error:unknown_command:" +:+ cmd).
    rewrite (trimRight_app_kept _ ":") by done. by rewrite Hright.
Qed.



(** The host reads a slider message of in-range values well. *)
Lemma wellRead_sliders sio values :
  inStep sio ->
  List.length values = NUM_SLIDERS ->
  Forall (fun v => 0 <= v <= 1023) values ->
  wellRead NormalizeScalar SignificantlyDifferent config sio
    (println (sliderMessage values)).
Proof.
  intros Hstep Hlen Hrange. unfold wellRead. cbv zeta.
  rewrite handleLine_sliderMessage.
  assert (values <> []) as Hne by (by destruct values).
  split.
  - destruct (process_in_step NormalizeScalar SignificantlyDifferent config
                sio (joinValues values) Hstep) as (sio' & evs & -> & _). done.
  - intros o [= <-]. exists (joinValues values). split; [done|].
    rewrite fieldsOf_joinValues by done. split.
    + rewrite <- Hlen. apply length_map.
    + apply List.Forall_map. eapply List.Forall_impl; [|exact Hrange].
      intros v Hv. simpl in Hv. unfold inRange.
      rewrite reading_Itoa; [done|]. unfold int16. lia.
Qed.

Lemma wellRead_response sio line r :
  handle sio line = LineResponse r ->
  (forall responseType responseArgs, r <> Unhandled responseType responseArgs) ->
  wellRead NormalizeScalar SignificantlyDifferent config sio line.
Proof.
  intros Hline Hr. unfold wellRead. cbv zeta. rewrite Hline. split; [|done].
  destruct r; try done. by destruct (Hr responseType responseArgs).
Qed.

Lemma processCommand_wellRead sio b command :
  inStep sio -> sane b ->
  Forall (wellRead NormalizeScalar SignificantlyDifferent config sio)
    (processCommand b command).1.
Proof.
  intros Hstep [Hlen Hrange]. unfold processCommand. cbv zeta.
  pose proof (TrimSpace_trimmed command) as Htrimmed. fold (trim command) in Htrimmed.
  generalize dependent (trim command). intros cmd Htrimmed.
  destruct (String.eqb cmd "reboot");
    [apply List.Forall_cons; [|done];
     by apply (wellRead_response sio _ RebootAck)|].
  destruct (String.eqb cmd "version");
    [apply List.Forall_cons; [|done];
     by apply (wellRead_response sio _ (Version (Some FIRMWARE_VERSION)))|].
  destruct (String.eqb cmd "sliders"); apply List.Forall_cons; try done.
  - by apply wellRead_sliders.
  - eapply wellRead_response; [by apply handleLine_unknown_command|done].
Qed.

Lemma checkForCommands_wellRead sio b rx :
  inStep sio -> sane b ->
  Forall (wellRead NormalizeScalar SignificantlyDifferent config sio)
    (checkForCommands b rx).1.1.
Proof.
  intros Hstep Hsane. unfold checkForCommands. destruct rx as [|c r]; [done|].
  destruct (readStringUntil LF (String c r)) as [incoming rx'].
  destruct (startsWith _ _); [|done].
  destruct (indexOf _ _ 5) as [firstColon|]; [|done].
  destruct (indexOf _ _ (firstColon + 1)) as [secondColon|]; [|done].
  destruct (String.eqb _ _); [|done].
  pose proof (processCommand_wellRead sio b
                (substringFrom (trim incoming) (secondColon + 1)) Hstep Hsane) as Hout.
  by destruct (processCommand _ _).
Qed.

Lemma sane_readings analogRead b :
  tenBit analogRead -> sane (updateSliderValues analogRead b).
Proof. intros Hpins. split; [done|]. by apply readings_tenBit. Qed.

Lemma setup_wellRead sio analogRead :
  inStep sio -> tenBit analogRead ->
  sane (setup analogRead).1 /\
  Forall (wellRead NormalizeScalar SignificantlyDifferent config sio)
    (setup analogRead).2.
Proof.
  intros Hstep Hpins. split; [by apply (sane_readings analogRead)|].
  apply List.Forall_cons; [done|]. apply List.Forall_cons; [|done].
  apply wellRead_sliders; [done|done|by apply readings_tenBit].
Qed.

Lemma loop_wellRead sio analogRead b rx :
  inStep sio -> tenBit analogRead -> sane b ->
  sane (loop analogRead b rx).1.1 /\
  Forall (wellRead NormalizeScalar SignificantlyDifferent config sio)
    (loop analogRead b rx).1.2.
Proof.
  intros Hstep Hpins Hsane. unfold loop.
  pose proof (checkForCommands_wellRead sio b rx Hstep Hsane) as Hout.
  destruct (checkForCommands b rx) as [[out eff] rx']. simpl in Hout.
  destruct eff.
  - pose proof (sane_readings analogRead b Hpins) as Hsane'.
    destruct (hasSignificantChanges _); simpl; (split; [done|]); [|done].
    apply Forall_app. split; [done|]. apply List.Forall_cons; [|done].
    apply wellRead_sliders; [done|done|by apply readings_tenBit].
  - destruct (setup_wellRead sio analogRead Hstep Hpins) as [Hsane' Hout'].
    destruct (setup analogRead) as [b' out']. simpl in *. split; [done|].
    apply Forall_app. by split.
Qed.

Lemma loops_wellRead sio turns : forall b rx,
  inStep sio -> Forall (fun t => tenBit (pins t)) turns -> sane b ->
  Forall (wellRead NormalizeScalar SignificantlyDifferent config sio)
    (loops b rx turns).2.
Proof.
  induction turns as [|t rest IH]; intros b rx Hstep Hturns Hsane; [done|].
  apply List.Forall_cons_iff in Hturns as [Ht Hrest]. simpl.
  destruct (loop_wellRead sio (pins t) b (rx +:+ arrived t) Hstep Ht Hsane)
    as [Hsane' Hout].
  destruct (loop (pins t) b (rx +:+ arrived t)) as [[b' out] rx']. simpl in *.
  specialize (IH b' rx' Hstep Hrest Hsane').
  destruct (loops b' rx' rest) as [b'' out']. simpl in *.
  apply Forall_app. by split.
Qed.

(** X12. The host and the firmware speak the same protocol.  Whatever
    arrives at the sketch and however long it runs, with pins that read
    as a 10-bit converter does, every line it writes is one the host acts
    on: none is ignored, none is a response of a type the host does not
    know, none makes the tracker panic.  And every line the host takes
    for a slider message hands the tracker [NUM_SLIDERS] readings, each
    between 0 and 1023. *)
Theorem sketch_lines_are_well_read sio powerUp turns :
  inStep sio ->
  tenBit powerUp ->
  Forall (fun t => tenBit (pins t)) turns ->
  Forall (wellRead NormalizeScalar SignificantlyDifferent config sio)
    (sketch powerUp turns).2.
Proof.
  intros Hstep Hpins Hturns. unfold sketch.
  destruct (setup_wellRead sio powerUp Hstep Hpins) as [Hsane Hout].
  destruct (setup powerUp) as [b out]. simpl in *.
  pose proof (loops_wellRead sio turns b "" Hstep Hturns Hsane) as Hout'.
  destruct (loops b "" turns) as [b' out']. simpl in *.
  apply Forall_app. by split.
Qed.

(** Lines the host reads well leave the slider count at [NUM_SLIDERS]. *)
Lemma feed_keeps_count lines : forall sio,
  inStep sio ->
  lastKnownNumSliders sio = Z.of_nat NUM_SLIDERS ->
  (forall sio0, inStep sio0 ->
     Forall (wellRead NormalizeScalar SignificantlyDifferent config sio0) lines) ->
  exists sio',
    feed NormalizeScalar SignificantlyDifferent config sio (map LineRead lines) = Some sio' /\
    lastKnownNumSliders sio' = Z.of_nat NUM_SLIDERS.
Proof.
  induction lines as [|line rest IH]; intros sio Hstep Hcount Hread; [by exists sio|].
  assert (forall sio0, inStep sio0 ->
            Forall (wellRead NormalizeScalar SignificantlyDifferent config sio0) rest)
    as Hrest.
  { intros sio0 Hsio0. pose proof (Hread sio0 Hsio0) as Hall.
    by apply List.Forall_cons_iff in Hall as [_ ?]. }
  pose proof (Hread sio Hstep) as Hline.
  apply List.Forall_cons_iff in Hline as [[Hund Hsl] _].
  cbv zeta in Hund, Hsl. simpl.
  destruct (handle sio line) as [| | |o]; [done|by apply IH|by apply IH|].
  destruct (Hsl o eq_refl) as (sliderData & -> & Hfields & _).
  destruct (process_in_step NormalizeScalar SignificantlyDifferent config
              sio sliderData Hstep) as (sio' & evs & -> & Hcount' & Hlen').
  apply IH; [right; lia|by rewrite Hcount', Hfields|done].
Qed.

(** X13. The host counts the sliders of the board.  After it has read
    every line the sketch wrote, from power-up on and whatever arrived at
    the sketch in between, the host has not panicked and
    [GetNumSliders] answers [NUM_SLIDERS]. *)
Theorem host_counts_the_sliders powerUp turns :
  tenBit powerUp ->
  Forall (fun t => tenBit (pins t)) turns ->
  exists sio',
    feed NormalizeScalar SignificantlyDifferent config NewSerialIO
      (map LineRead (sketch powerUp turns).2) = Some sio' /\
    GetNumSliders sio' = Z.of_nat NUM_SLIDERS.
Proof.
  intros Hpins Hturns. unfold sketch, GetNumSliders.
  destruct (setup_wellRead NewSerialIO powerUp) as [Hsane _]; [by left|done|].
  assert (forall sio0, inStep sio0 ->
            Forall (wellRead NormalizeScalar SignificantlyDifferent config sio0)
              (loops (setup powerUp).1 "" turns).2) as Hrest.
  { intros sio0 Hsio0. by apply loops_wellRead. }
  change (setup powerUp)
    with (updateLastSentValues (updateSliderValues powerUp
            {| analogSliderValues := replicate NUM_SLIDERS 0;
               lastSentValues := replicate NUM_SLIDERS (-1) |}),
          [println "deej:v2.0:startup:5sliders";
           println (sliderMessage (readings powerUp))]) in *.
  cbv beta iota. simpl fst in Hrest.
  destruct (loops _ "" turns) as [b' out']. simpl snd in *.
  change (feed NormalizeScalar SignificantlyDifferent config NewSerialIO
            (map LineRead (println "deej:v2.0:startup:5sliders"
                           :: println (sliderMessage (readings powerUp)) :: out')))
    with (match handle NewSerialIO (println (sliderMessage (readings powerUp))) with
          | LineSliders Panicked => None
          | LineSliders (Returned sio' _) =>
              feed NormalizeScalar SignificantlyDifferent config sio' (map LineRead out')
          | _ => feed NormalizeScalar SignificantlyDifferent config NewSerialIO
                   (map LineRead out')
          end).
  rewrite handleLine_sliderMessage.
  destruct (process_in_step NormalizeScalar SignificantlyDifferent config
              NewSerialIO (joinValues (readings powerUp)))
    as (sio1 & evs & -> & Hcount & Hlen); [by left|].
  rewrite fieldsOf_joinValues in Hcount, Hlen by done.
  apply feed_keeps_count; [right; rewrite Hcount, Hlen; done|by rewrite Hcount|done].
Qed.

End HostAndFirmware.

Lemma slider_message_read_back_witness :
  Serial.handleLine Sample.NormalizeScalar Sample.SignificantlyDifferent
    (Sample.config false) Sample.fresh
    (Arduino.println (Firmware.sliderMessage [512; -7; 1023])) =
    Serial.LineSliders
      (Sample.process false Sample.fresh (Firmware.joinValues [512; -7; 1023])) /\
  map Tracker.reading (Tracker.fieldsOf (Firmware.joinValues [512; -7; 1023])) =
    [512; -7; 1023].
Proof.
  apply (slider_message_read_back Sample.NormalizeScalar Sample.SignificantlyDifferent
           (Sample.config false) Sample.fresh [512; -7; 1023]); [done|].
  repeat constructor; unfold Text.int16; lia.
Defined.

Lemma power_up_handshake_witness :
  let analogRead := fun i : nat => Z.min 1023 (256 * Z.of_nat i) in
  exists sio',
    map (Serial.handleLine Sample.NormalizeScalar Sample.SignificantlyDifferent
           (Sample.config false) Sample.fresh) (Firmware.setup analogRead).2 =
      [Serial.LineTrayIcon Serial.TrayNormal;
       Serial.LineSliders
         (Serial.Returned sio'
            (imap (Wire.eventOf Sample.NormalizeScalar (Sample.config false))
               [0; 256; 512; 768; 1023]))] /\
    Serial.GetNumSliders sio' = 5.
Proof.
  intros analogRead.
  apply (power_up_handshake Sample.NormalizeScalar Sample.SignificantlyDifferent
           (Sample.config false) analogRead Sample.fresh).
  - intros i. unfold analogRead. lia.
  - vm_compute. discriminate.
Defined.


Lemma sketch_lines_are_well_read_witness :
  Forall (Wire.wellRead Sample.NormalizeScalar Sample.SignificantlyDifferent
            (Sample.config false) Serial.NewSerialIO)
    (Firmware.sketch (fun _ => 512)
       [ {| Firmware.pins := fun _ => 100;
            Firmware.arrived := Connection.formatCommand "blink" |};
         {| Firmware.pins := fun _ => 105; Firmware.arrived := "" |} ]).2.
Proof.
  apply (sketch_lines_are_well_read Sample.NormalizeScalar Sample.SignificantlyDifferent
           (Sample.config false) Serial.NewSerialIO).
  - by left.
  - intros i. lia.
  - repeat constructor; simpl; lia.
Defined.

Lemma sketch_settles_witness :
  let turns := [ {| Firmware.pins := fun _ => 100; Firmware.arrived := "" |};
                 {| Firmware.pins := fun _ => 105; Firmware.arrived := "" |} ] in
  Wire.settled (Firmware.sketch (fun _ => 512) turns).1 /\
  Firmware.analogSliderValues (Firmware.sketch (fun _ => 512) turns).1 =
    [105; 105; 105; 105; 105].
Proof.
  intros turns.
  destruct (sketch_settles (fun _ => 512) turns) as (Hset & Hval & _).
  - intros i. lia.
  - repeat constructor; simpl; lia.
  - split; [exact Hset|exact Hval].
Defined.

(* ===================================================================== *)
(** * More on the session map *)
(* ===================================================================== *)

Section SessionMapCoverage.
Import SessionMap Resolver Sessions.

Variable config : CanonicalConfig.
Variable window : option (list string).

Lemma add_lookup sm s k :
  m (add sm s) !! k =
  if String.eqb (Key s) k then Some (default [] (m sm !! k) ++ [s]) else m sm !! k.
Proof.
  unfold add. simpl. destruct (String.eqb_spec (Key s) k) as [->|Hne].
  - destruct (m sm !! k) as [existing|]; by rewrite lookup_insert_eq.
  - destruct (m sm !! Key s); by rewrite lookup_insert_ne.
Qed.

(** Adding sessions appends each to the list of its key. *)
Lemma addSessions_lookup sessions : forall sm sm',
  addSessions config window sm sessions = Some sm' ->
  forall k,
    m sm' !! k =
    match m sm !! k, under k sessions with
    | None, [] => None
    | existing, added => Some (default [] existing ++ added)
    end.
Proof.
  induction sessions as [|s rest IH]; intros sm sm' Hadd k.
  - injection Hadd as <-. destruct (m sm !! k); simpl; [by rewrite app_nil_r|done].
  - simpl in Hadd.
    assert (exists sm1, m sm1 = m (add sm s) /\
                        addSessions config window sm1 rest = Some sm') as (sm1 & Hm & Hrest).
    { destruct (sessionMapped _ _ _ _) as [[|]|]; [| |done];
        (eexists; split; [|exact Hadd]; done). }
    rewrite (IH _ _ Hrest k), Hm, add_lookup. unfold under. simpl.
    destruct (String.eqb (Key s) k); simpl.
    + rewrite <- app_assoc. simpl. by destruct (_ ++ _) eqn:Happ, (m sm !! k).
    + done.
Qed.

Lemma concat_Permutation {A} (l l' : list (list A)) :
  l ≡ₚ l' -> concat l ≡ₚ concat l'.
Proof.
  induction 1 as [|x l l' _ IH|x y l|l l' l'' _ IH _ IH']; simpl.
  - done.
  - by rewrite IH.
  - rewrite !app_assoc. f_equiv. apply Permutation_app_comm.
  - by rewrite IH.
Qed.

Lemma held_insert (mp : gmap string (list Session)) k l l' :
  mp !! k = Some l ->
  concat (map snd (map_to_list (<[k := l']> mp))) ≡ₚ
  l' ++ concat (map snd (map_to_list (delete k mp))).
Proof.
  intros Hk. rewrite <- insert_delete_eq.
  apply (concat_Permutation _ (l' :: _)).
  apply (Permutation_map snd (l' := (k, l') :: _)).
  apply map_to_list_insert, lookup_delete_eq.
Qed.

(** [add] holds one session more. *)
Lemma held_add sm s : held (add sm s) ≡ₚ held sm ++ [s].
Proof.
  unfold held, add. simpl. destruct (m sm !! Key s) as [existing|] eqn:Hk.
  - rewrite (held_insert _ _ existing) by done.
    rewrite <- (concat_Permutation _ _
                  (Permutation_map snd (map_to_list_delete _ _ _ Hk))).
    simpl. rewrite <- !app_assoc. f_equiv. apply Permutation_app_comm.
  - rewrite (concat_Permutation _ _
               (Permutation_map snd (map_to_list_insert _ _ [s] Hk))).
    simpl. apply Permutation_cons_append.
Qed.

Lemma held_addSessions sessions : forall sm sm',
  addSessions config window sm sessions = Some sm' ->
  held sm' ≡ₚ held sm ++ sessions.
Proof.
  induction sessions as [|s rest IH]; intros sm sm' Hadd.
  - injection Hadd as <-. by rewrite app_nil_r.
  - simpl in Hadd.
    assert (exists sm1, held sm1 = held (add sm s) /\
                        addSessions config window sm1 rest = Some sm') as (sm1 & Hm & Hrest).
    { destruct (sessionMapped _ _ _ _) as [[|]|]; [| |done];
        (eexists; split; [|exact Hadd]; done). }
    rewrite (IH _ _ Hrest), Hm, held_add. by rewrite <- app_assoc.
Qed.

(** A refresh that is due clears the map and asks the backend. *)
Lemma refreshSessions_due force now now' finder (w : world) :
  due force now (fst w) ->
  refreshSessions config window force now now' finder w =
  match getAndAddSessions config window now' finder (clear w) with
  | None => None
  | Some (w', _) => Some w'
  end.
Proof.
  intros Hdue. unfold refreshSessions.
  replace (negb force && (now <? lastSessionRefresh w.1 + minTimeBetweenSessionRefreshes))
    with false; [done|].
  symmetry. destruct Hdue as [->|Hlate]; [done|].
  apply andb_false_iff. right. apply Z.ltb_ge. lia.
Qed.

(** X14. What a refresh leaves in the map.  After a refresh that was due
    and returned, the sessions the backend enumerated are held key by key:
    [get] answers, under a key, the enumerated sessions of that key in the
    order of the enumeration, and knows no key without a session. *)
Theorem refresh_groups_by_key force now now' sessions (w w' : world) :
  due force now (fst w) ->
  refreshSessions config window force now now' (Some sessions) w = Some w' ->
  forall k,
    get (fst w') k =
    match under k sessions with
    | [] => None
    | found => Some found
    end.
Proof.
  intros Hdue. rewrite refreshSessions_due by done.
  destruct w as [sm calls]. unfold getAndAddSessions, clear.
  destruct (addSessions _ _ _ _) as [sm'|] eqn:Hadd; [|done].
  intros [= <-] k. unfold get. simpl.
  rewrite (addSessions_lookup _ _ _ Hadd k). simpl. rewrite lookup_empty.
  by destruct (under k sessions).
Qed.

(** X15. No session is lost between two refreshes.  A refresh that is due
    and returns releases every session the map held, each once, and holds
    afterwards the sessions the backend enumerated, each once (none when
    the backend failed): what one refresh acquires is what the next one
    releases.  Nothing else is released, and the map is cleared whether or
    not the backend answers. *)
Theorem refresh_swaps_sessions force now now' finder (w w' : world) :
  due force now (fst w) ->
  refreshSessions config window force now now' finder w = Some w' ->
  exists calls',
    snd w' = snd w ++ calls' /\
    released calls' ≡ₚ held (fst w) /\
    held (fst w') ≡ₚ default [] finder.
Proof.
  intros Hdue. rewrite refreshSessions_due by done.
  destruct w as [sm calls]. unfold getAndAddSessions, clear.
  assert (forall l, released (map CallRelease l ++ [CallGetAllSessions]) = l) as Hrel.
  { induction l as [|s l IH]; [done|]. simpl. unfold released in *. simpl.
    by rewrite IH. }
  destruct finder as [sessions|].
  - destruct (addSessions _ _ _ _) as [sm'|] eqn:Hadd; [|done].
    intros [= <-]. eexists. split; [simpl; by rewrite <- app_assoc|].
    split; [by rewrite Hrel|]. simpl.
    rewrite (held_addSessions _ _ _ Hadd). unfold held. simpl.
    by rewrite map_to_list_empty.
  - intros [= <-]. eexists. split; [simpl; by rewrite <- app_assoc|].
    split; [by rewrite Hrel|]. unfold held. simpl. by rewrite map_to_list_empty.
Qed.

(** With an empty map no goroutine is started. *)
Lemma handleSliderMoveEvent_empty window' sm event :
  m sm = ∅ -> handleSliderMoveEvent config window' sm event = [].
Proof.
  intros Hempty. unfold handleSliderMoveEvent.
  destruct (SliderMapping config !! _) as [targets|]; [|done].
  induction targets as [|target targets IH]; [done|]. simpl. rewrite IH, app_nil_r.
  induction (resolveTarget window' sm target) as [|key keys IHk]; [done|].
  simpl. rewrite IHk, app_nil_r. unfold get. by rewrite Hempty, lookup_empty.
Qed.

(** X16. A refresh on a backend that fails leaves the volume control
    without effect.  When [GetAllSessions] fails on a refresh that was due,
    the refresh still returns, the map is empty and so is the snapshot of
    the unmapped sessions; no slider move starts a goroutine from then on;
    and since the failed attempt counts as the last refresh, no refresh
    that is not forced will try again within the next five seconds. *)
Theorem failed_refresh_mutes force now now' (w : world) :
  due force now (fst w) ->
  exists w',
    refreshSessions config window force now now' None w = Some w' /\
    m (fst w') = ∅ /\
    unmappedSessions (fst w') = [] /\
    lastSessionRefresh (fst w') = now' /\
    (forall window' event, handleSliderMoveEvent config window' (fst w') event = []) /\
    (forall window' later later' finder,
       later < now' + 5 * Second ->
       refreshSessions config window' false later later' finder w' = Some w').
Proof.
  intros Hdue. rewrite refreshSessions_due by done.
  destruct w as [sm calls]. eexists. split; [reflexivity|]. simpl.
  split; [done|]. split; [done|]. split; [done|]. split.
  - intros window' event. by apply handleSliderMoveEvent_empty.
  - intros window' later later' finder Hsoon. unfold refreshSessions. simpl.
    replace (later <? now' + minTimeBetweenSessionRefreshes) with true; [done|].
    symmetry. apply Z.ltb_lt. unfold minTimeBetweenSessionRefreshes. lia.
Qed.

(** The loop over the sliders gives the same verdict, or panics alike, on
    every arrangement of the same sliders. *)
Lemma iterateMatch_Permutation sm key (sliders sliders' : list (Z * list string)) :
  sliders ≡ₚ sliders' ->
  forall matchFound,
    iterateMatch window sm key sliders matchFound =
    iterateMatch window sm key sliders' matchFound.
Proof.
  induction 1 as [|[i targets] l l' _ IH|[i targets] [j targets'] l|l l' l'' _ IH _ IH'];
    intros found; simpl.
  - done.
  - destruct (targetsMatch _ _ _ targets); [apply IH|done].
  - destruct (targetsMatch _ _ _ targets) as [f|],
             (targetsMatch _ _ _ targets') as [f'|]; try done.
    by rewrite <- !orb_assoc, (orb_comm f f').
  - by rewrite IH.
Qed.

(** X17. The verdict of [sessionMapped] does not depend on the order in
    which Go's map iteration visits the slider mapping: in whatever order
    the sliders are visited, the callback of [sessionMapped] leaves the
    same verdict, or panics alike. *)
Theorem sessionMapped_any_order sm session (visited : list (Z * list string)) :
  visited ≡ₚ map_to_list (SliderMapping config) ->
  sessionMapped config window sm session =
  if bool_decide (Key session ∈
       [masterSessionName; systemSessionName; inputSessionName])
  then Some true
  else if Regexp.MatchString deviceSessionKeyPattern (Key session) then Some true
  else iterateMatch window sm (Key session) visited false.
Proof.
  intros Hvisited. unfold sessionMapped.
  destruct (bool_decide _); [done|]. destruct (Regexp.MatchString _ _); [done|].
  symmetry. by apply iterateMatch_Permutation.
Qed.






End SessionMapCoverage.

Lemma refresh_groups_by_key_witness :
  SessionMap.get Sample.refreshed "chrome.exe" = Some [Sample.chrome; Sample.chrome'] /\
  SessionMap.get Sample.refreshed "discord.exe" = None.
Proof.
  assert (SessionMap.refreshSessions (Sample.config false) None true 0 0
            (Some [Sample.chrome; Sample.spotify; Sample.chrome'])
            (Resolver.newSessionMap, []) =
          Some (Sample.refreshed, [SessionMap.CallGetAllSessions])) as Hrefresh
    by (by vm_compute).
  pose proof (refresh_groups_by_key (Sample.config false) None true 0 0
                [Sample.chrome; Sample.spotify; Sample.chrome']
                (Resolver.newSessionMap, [])
                (Sample.refreshed, [SessionMap.CallGetAllSessions])
                (or_introl eq_refl) Hrefresh) as Hget.
  split; [exact (Hget "chrome.exe")|exact (Hget "discord.exe")].
Defined.

Lemma refresh_swaps_sessions_witness :
  exists w' calls',
    SessionMap.refreshSessions (Sample.config false) None false
      (5 * SessionMap.Second) (5 * SessionMap.Second)
      (Some [Sample.spotify]) (Sample.refreshed, []) = Some w' /\
    snd w' = calls' /\
    Sessions.released calls' ≡ₚ [Sample.spotify; Sample.chrome; Sample.chrome'] /\
    Sessions.held (fst w') ≡ₚ [Sample.spotify].
Proof.
  destruct (SessionMap.refreshSessions (Sample.config false) None false
              (5 * SessionMap.Second) (5 * SessionMap.Second)
              (Some [Sample.spotify]) (Sample.refreshed, [])) as [w'|] eqn:Hrefresh;
    [|by vm_compute in Hrefresh].
  destruct (refresh_swaps_sessions (Sample.config false) None false
              (5 * SessionMap.Second) (5 * SessionMap.Second)
              (Some [Sample.spotify]) (Sample.refreshed, []) w')
    as (calls' & Hcalls & Hreleased & Hheld).
  - right. by vm_compute.
  - exact Hrefresh.
  - exists w', calls'. split; [reflexivity|]. split; [exact Hcalls|].
    split; [|exact Hheld]. rewrite Hreleased. by vm_compute.
Defined.

Lemma failed_refresh_mutes_witness :
  exists w',
    SessionMap.refreshSessions (Sample.config false) None true 0 (7 * SessionMap.Second)
      None (Sample.refreshed, []) = Some w' /\
    SessionMap.m (fst w') = ∅ /\
    SessionMap.refreshSessions (Sample.config false) None false
      (11 * SessionMap.Second) (11 * SessionMap.Second)
      (Some [Sample.spotify]) w' = Some w'.
Proof.
  destruct (failed_refresh_mutes (Sample.config false) None true 0
              (7 * SessionMap.Second) (Sample.refreshed, []) (or_introl eq_refl))
    as (w' & Hrefresh & Hempty & _ & _ & _ & Hskip).
  exists w'. split; [exact Hrefresh|]. split; [exact Hempty|].
  apply Hskip. by vm_compute.
Defined.

Lemma sessionMapped_any_order_witness :
  let config :=
    {| SliderMapping := {[ 0 := ["chrome.exe"]; 1 := ["spotify.exe"] ]};
       InvertSliders := false; NoiseReductionLevel := "default" |} in
  SessionMap.sessionMapped config None Sample.refreshed Sample.spotify =
  SessionMap.iterateMatch None Sample.refreshed "spotify.exe"
    [(0, ["chrome.exe"]); (1, ["spotify.exe"])] false.
Proof.
  intros config.
  apply (sessionMapped_any_order config None Sample.refreshed Sample.spotify
           [(0, ["chrome.exe"]); (1, ["spotify.exe"])]).
  vm_compute. apply perm_swap.
Defined.


(* ===================================================================== *)
(** * The slider mapping *)
(* ===================================================================== *)

Section SliderMapFacts.
Import SliderMap.

(** The cache of [getSliderIdx] never changes an index. *)
Lemma getSliderIdx_sound sliderIdxCache sliderIdxString :
  soundCache sliderIdxCache ->
  (getSliderIdx sliderIdxCache sliderIdxString).1 = fst (Strings.Atoi sliderIdxString) /\
  soundCache (getSliderIdx sliderIdxCache sliderIdxString).2.
Proof.
  intros Hsound. unfold getSliderIdx.
  destruct (sliderIdxCache !! sliderIdxString) as [idx|] eqn:Hcached; simpl.
  - split; [by apply Hsound|done].
  - split; [done|]. intros s idx. destruct (decide (s = sliderIdxString)) as [->|Hne].
    + rewrite lookup_insert_eq. by intros [= <-].
    + rewrite lookup_insert_ne by done. apply Hsound.
Qed.

Lemma copyUser_steps userMapping : forall sliderIdxCache resultMap,
  soundCache sliderIdxCache ->
  soundCache (copyUser userMapping sliderIdxCache resultMap).1 /\
  (copyUser userMapping sliderIdxCache resultMap).2 =
    fold_left userStep userMapping resultMap.
Proof.
  induction userMapping as [|[s targets] rest IH]; intros cache res Hsound; [done|].
  simpl. destruct (getSliderIdx_sound cache s Hsound) as [Hidx Hsound'].
  destruct (getSliderIdx cache s) as [idx cache']. simpl in *. subst idx.
  by apply IH.
Qed.

Lemma addInternal_steps internalMapping : forall sliderIdxCache resultMap,
  soundCache sliderIdxCache ->
  (addInternal internalMapping sliderIdxCache resultMap).2 =
    fold_left internalStep internalMapping resultMap.
Proof.
  induction internalMapping as [|[s targets] rest IH]; intros cache res Hsound; [done|].
  simpl. destruct (getSliderIdx_sound cache s Hsound) as [Hidx Hsound'].
  destruct (getSliderIdx cache s) as [idx cache']. simpl in *. subst idx.
  by apply IH.
Qed.

(** [sliderMapFromConfigs] without its cache. *)
Lemma sliderMapFromConfigs_steps userMapping internalMapping :
  sliderMapFromConfigs userMapping internalMapping =
  fold_left internalStep internalMapping (fold_left userStep userMapping newSliderMap).
Proof.
  unfold sliderMapFromConfigs.
  destruct (copyUser_steps userMapping ∅ newSliderMap) as [Hsound Hres]; [done|].
  destruct (copyUser userMapping ∅ newSliderMap) as [cache res]. simpl in *.
  rewrite <- Hres. by apply addInternal_steps.
Qed.

Lemma filteredTargets_clean targets : "" ∉ filteredTargets targets.
Proof.
  unfold filteredTargets. rewrite list_elem_of_In, filter_In. by intros [_ H].
Qed.

Lemma newTargets_clean targets : forall (existingSet : gset string) t,
  t ∈ newTargets existingSet targets ->
  t <> "" /\ (t ∉ existingSet) /\ t ∈ targets.
Proof.
  induction targets as [|target rest IH]; intros existing t; simpl.
  - by intros H%elem_of_nil.
  - destruct (String.eqb_spec target "") as [->|Hne]; simpl.
    + intros Hin. apply IH in Hin as (? & ? & ?). repeat split; try done. by right.
    + destruct (bool_decide_reflect (target ∈ existing)) as [Hin|Hout]; simpl.
      * intros Ht. apply IH in Ht as (? & ? & ?). repeat split; try done. by right.
      * intros [->|Ht]%elem_of_cons.
        -- repeat split; try done. by left.
        -- apply IH in Ht as (? & Hnew & ?).
           repeat split; try done; [|by right].
           intros Hin. apply Hnew, elem_of_union. by right.
Qed.

Lemma length_pos_not_nil {A} (l : list A) : (0 <? List.length l)%nat = true -> l <> [].
Proof. by destruct l. Qed.

Lemma userStep_clean resultMap entry : clean resultMap -> clean (userStep resultMap entry).
Proof.
  intros Hclean. unfold userStep.
  destruct (0 <? _)%nat eqn:Hlen; [|done]. intros k targets.
  unfold get, set, sliderMap in *.
  destruct (decide (k = sliderOf entry)) as [->|Hne].
  - rewrite lookup_insert_eq. intros [= <-].
    split; [by apply length_pos_not_nil|apply filteredTargets_clean].
  - rewrite lookup_insert_ne by done. apply Hclean.
Qed.

Lemma internalStep_clean resultMap entry :
  clean resultMap -> clean (internalStep resultMap entry).
Proof.
  intros Hclean. unfold internalStep.
  destruct (0 <? _)%nat eqn:Hlen; [|done]. intros k targets.
  unfold get, set, sliderMap in *.
  destruct (decide (k = sliderOf entry)) as [->|Hne].
  - rewrite lookup_insert_eq. intros [= <-]. apply length_pos_not_nil in Hlen. split.
    + intros [_ Hnil]%app_eq_nil. done.
    + intros [Hin|Hin]%elem_of_app.
      * destruct (resultMap !! sliderOf entry) as [existing|] eqn:Hk;
          [|by apply elem_of_nil in Hin].
        by destruct (Hclean _ _ Hk).
      * by apply newTargets_clean in Hin as [? _].
  - rewrite lookup_insert_ne by done. apply Hclean.
Qed.

Lemma fold_left_clean (step : sliderMap -> string * list string -> sliderMap) mp :
  (forall resultMap entry, clean resultMap -> clean (step resultMap entry)) ->
  forall resultMap, clean resultMap -> clean (fold_left step mp resultMap).
Proof.
  intros Hstep. induction mp as [|entry rest IH]; intros res Hclean; [done|].
  simpl. by apply IH, Hstep.
Qed.

(** X20. The slider mapping built from the two configurations maps no
    slider to an empty list of targets, and holds no empty target,
    whatever the configurations hold and in whatever order their keys are
    visited. *)
Theorem merged_mapping_is_clean userMapping internalMapping k targets :
  get (sliderMapFromConfigs userMapping internalMapping) k = Some targets ->
  targets <> [] /\ "" ∉ targets.
Proof.
  rewrite sliderMapFromConfigs_steps.
  apply (fold_left_clean internalStep); [apply internalStep_clean|].
  apply (fold_left_clean userStep); [apply userStep_clean|].
  intros k' targets'. unfold get, newSliderMap, sliderMap. by rewrite lookup_empty.
Qed.

Lemma rawFor_absent k mp :
  k ∉ map sliderOf mp -> rawFor k mp = [].
Proof.
  unfold rawFor. induction mp as [|entry rest IH]; [done|]. simpl.
  intros Hk. destruct (Z.eqb_spec (sliderOf entry) k) as [<-|Hne].
  - destruct Hk. by left.
  - apply IH. intros Hin. apply Hk. by right.
Qed.

(** What the loop over the user mapping leaves for a slider. *)
Lemma userSteps_lookup mp : forall (resultMap : gmap Z (list string)) k,
  distinctSliders mp ->
  fold_left userStep mp resultMap !! k =
  match filteredTargets (rawFor k mp) with
  | [] => resultMap !! k
  | targets => Some targets
  end.
Proof.
  induction mp as [|entry rest IH]; intros res k Hdistinct; [done|].
  apply NoDup_cons in Hdistinct as [Hfresh Hdistinct]. simpl.
  rewrite IH by done. unfold rawFor. simpl. fold (rawFor k rest).
  destruct (Z.eqb_spec (sliderOf entry) k) as [<-|Hne].
  - rewrite (rawFor_absent _ _ Hfresh), app_nil_r. unfold userStep, set.
    fold (filteredTargets (snd entry)).
    destruct (filteredTargets (snd entry)) as [|t ts] eqn:Hf; simpl; [done|].
    unfold sliderMap. by rewrite lookup_insert_eq.
  - simpl. destruct (filteredTargets (rawFor k rest)); [|done].
    unfold userStep, set. destruct (0 <? _)%nat; [|done].
    unfold sliderMap. by rewrite lookup_insert_ne.
Qed.

(** What the loop over the internal mapping leaves for a slider. *)
Lemma internalSteps_lookup mp : forall (resultMap : gmap Z (list string)) k,
  distinctSliders mp ->
  fold_left internalStep mp resultMap !! k =
  match newTargets (list_to_set (default [] (resultMap !! k))) (rawFor k mp) with
  | [] => resultMap !! k
  | added => Some (default [] (resultMap !! k) ++ added)
  end.
Proof.
  induction mp as [|entry rest IH]; intros res k Hdistinct; [done|].
  apply NoDup_cons in Hdistinct as [Hfresh Hdistinct]. simpl.
  rewrite IH by done. unfold rawFor. simpl. fold (rawFor k rest).
  destruct (Z.eqb_spec (sliderOf entry) k) as [<-|Hne].
  - rewrite (rawFor_absent _ _ Hfresh), app_nil_r. simpl.
    unfold internalStep, set, get.
    destruct (newTargets _ (snd entry)) as [|t ts] eqn:Hnew; simpl; [done|].
    unfold sliderMap. by rewrite lookup_insert_eq.
  - simpl. unfold internalStep, set, get. destruct (0 <? _)%nat; [|done].
    unfold sliderMap. by rewrite lookup_insert_ne.
Qed.

(** X21. What a slider is mapped to.  When no two keys of a
    configuration stand for the same slider, a slider gets the non-empty
    targets the user gave for it, in their order, followed by the targets
    of the internal configuration that are not empty, not among the user's
    and not listed before; and it is left out when that leaves it none. *)
Theorem merged_mapping_lookup userMapping internalMapping k :
  distinctSliders userMapping ->
  distinctSliders internalMapping ->
  get (sliderMapFromConfigs userMapping internalMapping) k =
  let fromUser := filteredTargets (rawFor k userMapping) in
  match fromUser ++ newTargets (list_to_set fromUser) (rawFor k internalMapping) with
  | [] => None
  | targets => Some targets
  end.
Proof.
  intros Huser Hinternal. rewrite sliderMapFromConfigs_steps. unfold get.
  rewrite internalSteps_lookup, userSteps_lookup by done.
  unfold newSliderMap, sliderMap. rewrite lookup_empty. cbv zeta.
  destruct (filteredTargets (rawFor k userMapping)) as [|t ts]; [reflexivity|].
  cbn [default]. destruct (newTargets _ _); [by rewrite app_nil_r|done].
Qed.

Lemma distinctSliders_Permutation mp mp' :
  mp ≡ₚ mp' -> distinctSliders mp -> distinctSliders mp'.
Proof.
  intros Hperm. unfold distinctSliders.
  by rewrite (Permutation_map sliderOf Hperm).
Qed.

(** With distinct sliders the targets of a slider do not depend on the
    order of the entries. *)
Lemma rawFor_Permutation k mp mp' :
  mp ≡ₚ mp' -> distinctSliders mp -> rawFor k mp = rawFor k mp'.
Proof.
  unfold rawFor.
  induction 1 as [|x l l' Hperm IH|x y l|l l' l'' Hperm IH Hperm' IH']; intros Hdistinct.
  - done.
  - apply NoDup_cons in Hdistinct as [_ Hdistinct]. simpl. by rewrite IH.
  - apply NoDup_cons in Hdistinct as [Hxy _]. simpl.
    destruct (Z.eqb_spec (sliderOf y) k) as [Hy|_],
             (Z.eqb_spec (sliderOf x) k) as [Hx|_]; simpl; try done.
    destruct Hxy. apply elem_of_cons. left. congruence.
  - rewrite IH by done. apply IH'. by apply (distinctSliders_Permutation l).
Qed.

(** X22. The order in which Go visits the keys of the two configurations
    does not matter to the slider mapping, as long as no two keys of a
    configuration stand for the same slider: every arrangement of the same
    entries gives the same mapping. *)
Theorem merged_mapping_any_order userMapping userMapping' internalMapping internalMapping' :
  userMapping ≡ₚ userMapping' ->
  internalMapping ≡ₚ internalMapping' ->
  distinctSliders userMapping ->
  distinctSliders internalMapping ->
  sliderMapFromConfigs userMapping internalMapping =
  sliderMapFromConfigs userMapping' internalMapping'.
Proof.
  intros Huser Hinternal Hdu Hdi. rewrite !sliderMapFromConfigs_steps.
  pose proof (distinctSliders_Permutation _ _ Huser Hdu) as Hdu'.
  pose proof (distinctSliders_Permutation _ _ Hinternal Hdi) as Hdi'.
  apply (map_eq (M := gmap Z)). intros k.
  rewrite !internalSteps_lookup, !userSteps_lookup by done.
  by rewrite (rawFor_Permutation k _ _ Huser Hdu),
             (rawFor_Permutation k _ _ Hinternal Hdi).
Qed.

End SliderMapFacts.

(** Two keys that stand for the same slider: the one visited last wins,
    so the mapping depends on the order of the visit. *)
Example same_slider_twice :
  SliderMap.sliderMapFromConfigs [("0", ["chrome.exe"]); ("x", ["mic"])] [] =
    {[ 0 := ["mic"] ]} /\
  SliderMap.sliderMapFromConfigs [("x", ["mic"]); ("0", ["chrome.exe"])] [] =
    {[ 0 := ["chrome.exe"] ]}.
Proof. split; by vm_compute. Qed.

Lemma merged_mapping_is_clean_witness :
  SliderMap.get
    (SliderMap.sliderMapFromConfigs [("0", [""; "chrome.exe"]); ("1", [""])]
       [("0", ["chrome.exe"; "master"])]) 0 = Some ["chrome.exe"; "master"] /\
  ["chrome.exe"; "master"] <> [] /\ "" ∉ ["chrome.exe"; "master"].
Proof.
  assert (SliderMap.get
            (SliderMap.sliderMapFromConfigs [("0", [""; "chrome.exe"]); ("1", [""])]
               [("0", ["chrome.exe"; "master"])]) 0 = Some ["chrome.exe"; "master"])
    as Hget by (by vm_compute).
  split; [exact Hget|]. exact (merged_mapping_is_clean _ _ _ _ Hget).
Defined.

Lemma merged_mapping_lookup_witness :
  SliderMap.get
    (SliderMap.sliderMapFromConfigs [("1", ["spotify.exe"]); ("0", [""; "chrome.exe"])]
       [("0", ["chrome.exe"; "master"; ""; "master"])]) 0 =
  Some ["chrome.exe"; "master"].
Proof.
  rewrite merged_mapping_lookup.
  - by vm_compute.
  - apply (bool_decide_unpack _). by vm_compute.
  - apply (bool_decide_unpack _). by vm_compute.
Defined.

Lemma merged_mapping_any_order_witness :
  SliderMap.sliderMapFromConfigs [("0", ["chrome.exe"]); ("1", ["mic"])]
    [("1", ["master"])] =
  SliderMap.sliderMapFromConfigs [("1", ["mic"]); ("0", ["chrome.exe"])]
    [("1", ["master"])].
Proof.
  apply merged_mapping_any_order.
  - apply perm_swap.
  - reflexivity.
  - apply (bool_decide_unpack _). by vm_compute.
  - apply (bool_decide_unpack _). by vm_compute.
Defined.

(* ===================================================================== *)
(** * The theme of the desktop *)
(* ===================================================================== *)

Section TrayFacts.
Import Tray.

Lemma sameUpToCase_refl s : sameUpToCase s s = true.
Proof. induction s as [|a s IH]; [done|]. simpl. by rewrite Ascii.eqb_refl. Qed.

Lemma sameUpToCase_length s : forall t,
  sameUpToCase s t = true -> String.length s = String.length t.
Proof.
  induction s as [|a s IH]; intros [|b t]; simpl; try done.
  intros [_ H]%andb_true_iff. f_equal. by apply IH.
Qed.

(** the body of [containsIgnoreCase] on two strings that are not empty *)
Lemma containsIgnoreCase_cons a s b substr :
  containsIgnoreCase (String a s) (String b substr) =
  let whole :=
    if (String.length substr <=? String.length s)%nat then
      if String.eqb (String a s) (String b substr) then Some true
      else if (String.length substr <? String.length s)%nat then
        match containsIgnoreCase s (String b substr) with
        | Some false => containsIgnoreCase (String a s) substr
        | found => found
        end
      else Some false
    else Some false in
  match whole with
  | Some false =>
      if Ascii.eqb (or32 a) (or32 b) then containsIgnoreCase s substr else Some false
  | found => found
  end.
Proof. reflexivity. Qed.

Lemma containsIgnoreCase_nil_r s : containsIgnoreCase s "" = Some true.
Proof. induction s as [|a s IH]; [done|]. simpl. by rewrite IH. Qed.

Lemma containsIgnoreCase_nil_l substr :
  containsIgnoreCase "" substr = Some (String.eqb "" substr).
Proof. by destruct substr. Qed.

(** What [containsIgnoreCase] computes. *)
Lemma containsIgnoreCase_closed s : forall substr,
  containsIgnoreCase s substr =
  Some ((String.length substr <? String.length s)%nat || sameUpToCase s substr).
Proof.
  induction s as [|a s IHs]; intros substr.
  - rewrite containsIgnoreCase_nil_l. by destruct substr.
  - induction substr as [|b substr IHt].
    + by rewrite containsIgnoreCase_nil_r.
    + rewrite containsIgnoreCase_cons, IHs, IHt, IHs. cbv zeta.
      change (String.length (String b substr)) with (S (String.length substr)).
      change (String.length (String a s)) with (S (String.length s)).
      change (sameUpToCase (String a s) (String b substr))
        with (Ascii.eqb (or32 a) (or32 b) && sameUpToCase s substr).
      change (S (String.length substr) <? S (String.length s))%nat
        with (String.length substr <? String.length s)%nat.
      destruct (Nat.leb_spec (String.length substr) (String.length s)) as [Hle|Hgt].
      * destruct (String.eqb_spec (String a s) (String b substr)) as [Heq|Hne].
        { injection Heq as -> ->. rewrite Nat.ltb_irrefl, Ascii.eqb_refl.
          by rewrite sameUpToCase_refl. }
        destruct (Nat.ltb_spec (String.length substr) (String.length s)) as [Hlt|Hge].
        -- replace (S (String.length substr) <? String.length s)%nat
             with (negb (String.length s <=? S (String.length substr))%nat)
             by (rewrite Nat.leb_antisym; by rewrite negb_involutive).
           destruct (Nat.leb_spec (String.length s) (S (String.length substr)))
             as [Hle'|Hgt']; simpl.
           ++ assert (String.length s = S (String.length substr)) as Hlen by lia.
              replace (String.length substr <? S (String.length s))%nat with true
                by (symmetry; apply Nat.ltb_lt; lia).
              simpl. by destruct (sameUpToCase s (String b substr)).
           ++ done.
        -- simpl. destruct (Ascii.eqb (or32 a) (or32 b)); [|done].
           replace (String.length substr <? String.length s)%nat with false; [done|].
           symmetry. apply Nat.ltb_ge. lia.
      * replace (String.length substr <? String.length s)%nat with false
          by (symmetry; apply Nat.ltb_ge; lia).
        simpl. destruct (Ascii.eqb (or32 a) (or32 b)); [|done]. simpl.
        destruct (sameUpToCase s substr) eqn:Hsame; [|done].
        apply sameUpToCase_length in Hsame. lia.
Qed.

(** X23. [containsIgnoreCase] never panics, and what it tests is the
    length: it holds of every [s] that is longer than [substr], whatever
    the two contain; of strings of one length it holds when they agree
    byte by byte up to bit 5 (the case of a letter); and it fails for
    every [s] that is shorter. *)
Theorem containsIgnoreCase_tests_the_length s substr :
  containsIgnoreCase s substr <> None /\
  ((String.length substr < String.length s)%nat ->
   containsIgnoreCase s substr = Some true) /\
  (String.length s = String.length substr ->
   containsIgnoreCase s substr = Some (sameUpToCase s substr)) /\
  ((String.length s < String.length substr)%nat ->
   containsIgnoreCase s substr = Some false).
Proof.
  rewrite containsIgnoreCase_closed. split; [done|]. split; [|split].
  - intros Hlt. apply Nat.ltb_lt in Hlt. by rewrite Hlt.
  - intros Heq. by rewrite Heq, Nat.ltb_irrefl.
  - intros Hlt. replace (String.length substr <? String.length s)%nat with false
      by (symmetry; apply Nat.ltb_ge; lia).
    destruct (sameUpToCase s substr) eqn:Hsame; [|done].
    apply sameUpToCase_length in Hsame. lia.
Qed.

Lemma isLightTheme_closed theme :
  isLightTheme theme =
  Some ((5 <? String.length theme)%nat || sameUpToCase theme "light").
Proof.
  unfold isLightTheme, lightNames, anyContained.
  rewrite !containsIgnoreCase_closed.
  change (String.length "light") with 5%nat.
  change (String.length "adwaita") with 7%nat.
  change (String.length "breeze-light") with 12%nat.
  change (String.length "yaru-light") with 10%nat.
  destruct (Nat.ltb_spec 5 (String.length theme)) as [Hlong|Hshort]; [done|].
  simpl. destruct (sameUpToCase theme "light"); [done|].
  assert (forall name n, String.length name = n -> (5 < n)%nat ->
            ((n <? String.length theme)%nat || sameUpToCase theme name) = false)
    as Hother.
  { intros name n Hname Hn. apply orb_false_iff. split; [apply Nat.ltb_ge; lia|].
    destruct (sameUpToCase theme name) eqn:Hsame; [|done].
    apply sameUpToCase_length in Hsame. lia. }
  rewrite (Hother "adwaita" 7%nat), (Hother "breeze-light" 12%nat),
          (Hother "yaru-light" 10%nat); (done || lia).
Qed.

(** X24. Which theme is detected.  The theme is read from [GTK_THEME], or
    from [XDG_CURRENT_DESKTOP] when that is empty, and it is taken for a
    light theme exactly when the name has more than five bytes or is the
    word [light] in whatever case: the other names [isLightTheme] lists
    are longer than five bytes themselves, and so is every name that
    contains one of them. *)
Theorem detected_theme Getenv :
  DetectSystemTheme Getenv =
  Some (let name := if String.eqb (Getenv "GTK_THEME") "" then Getenv "XDG_CURRENT_DESKTOP"
                    else Getenv "GTK_THEME" in
        if (5 <? String.length name)%nat || sameUpToCase name "light"
        then ThemeLight else ThemeDark).
Proof.
  unfold DetectSystemTheme. cbv zeta. rewrite !isLightTheme_closed.
  destruct (String.eqb_spec (Getenv "GTK_THEME") "") as [Hgtk|Hgtk]; simpl.
  - destruct (String.eqb_spec (Getenv "XDG_CURRENT_DESKTOP") "") as [->|Hxdg]; simpl.
    + done.
    + by destruct (_ || _).
  - by destruct (_ || _).
Qed.

End TrayFacts.

(** A dark theme by its name, detected as light. *)
Example dark_by_name :
  Tray.DetectSystemTheme (fun name => if String.eqb name "GTK_THEME" then "Adwaita-dark"
                                      else "") = Some Tray.ThemeLight /\
  Tray.DetectSystemTheme (fun name => if String.eqb name "GTK_THEME" then "Dark"
                                      else "") = Some Tray.ThemeDark.
Proof. split; by vm_compute. Qed.

(* ===================================================================== *)
(** * The targets of a slider as text *)
(* ===================================================================== *)

Section WebConfigFacts.
Import Strings Text WebConfig.










End WebConfigFacts.

Lemma host_counts_the_sliders_witness :
  exists sio',
    Connection.feed Sample.NormalizeScalar Sample.SignificantlyDifferent
      (Sample.config false) Serial.NewSerialIO
      (map Connection.LineRead
         (Firmware.sketch (fun _ => 512)
            [ {| Firmware.pins := fun _ => 100;
                 Firmware.arrived := Connection.formatCommand "version" |} ]).2) =
      Some sio' /\
    Serial.GetNumSliders sio' = 5.
Proof.
  apply (host_counts_the_sliders Sample.NormalizeScalar Sample.SignificantlyDifferent
           (Sample.config false)).
  - intros i. lia.
  - repeat constructor; simpl; lia.
Defined.

